(** * mod_logfile_domain: per-domain log files behind a bounded handle cache

    A shallow embedding of [src/mod_logfile_domain/mod_logfile_domain.c]
    and the properties of its domain extraction, cache admission,
    write/reopen protocol, logger callback and shutdown.

    Conventions.
    - A C string is the Rocq [string] of its characters before the
      terminating NUL; a [const char *] that may be NULL is an
      [option string].
    - A [switch_file_t *] is a descriptor number, [None] for NULL.
    - A [domain_cache_entry_t *] is an index into the list of entries
      allocated from the module pool, [None] for NULL.
    - The module is sequential here: a call runs from its lock to its
      unlock without interleaving, so a mutex only matters through being
      initialised (non-NULL) or not.
    - The file system is a map from paths to contents with a table of
      open descriptors.  A descriptor refers to its file, not to a path:
      it follows the file when another process renames it and keeps it
      when the file is removed.  The outcome of each fallible call
      ([open], [write]) is read from a list of replies, so that every
      pattern of failures can be given.
    - A computation returns a value and a state, or faults when the C
      code goes through a NULL pointer. *)

From Stdlib Require Import ZArith Lia Ascii String.
From stdpp Require Import base option list gmap strings pretty.

Local Open Scope string_scope.
Local Open Scope Z_scope.

(** ** Constants of the module *)

Definition DEFAULT_LIMIT : Z := 0xA00000.
Definition MAX_DOMAIN_CACHE_SIZE : Z := 256.

(** [sizeof] of the fixed buffers. *)
Definition sizeof_domain : nat := 128.
Definition sizeof_domainbuf : nat := 128.
Definition sizeof_logfile_path : nat := 512.
Definition sizeof_rendered_msg : nat := 1024.
Definition sizeof_log_line : nat := 2048.

(** [switch_size_t] is a 64-bit unsigned integer. *)
Definition wrap_size (z : Z) : Z := z mod 2 ^ 64.

(** The number [%d] prints for an integer argument: the argument read as
    a 32-bit signed [int]. *)
Definition as_int (z : Z) : Z := (z + 2 ^ 31) mod 2 ^ 32 - 2 ^ 31.

(** ** C strings and <ctype.h> *)

Definition NUL : ascii := "000"%char.

(** [isspace] and [isprint] of the C locale, on [(unsigned char)c]. *)
Definition isspace (c : ascii) : bool :=
  let n := N_of_ascii c in
  (((9 <=? n) && (n <=? 13)) || (n =? 32))%N.

Definition isprint (c : ascii) : bool :=
  let n := N_of_ascii c in
  ((32 <=? n) && (n <=? 126))%N.

(** [zstr(s)]: [s] is NULL or its first character is NUL. *)
Definition zstr (s : option string) : bool :=
  match s with
  | None => true
  | Some EmptyString => true
  | Some (String c _) => Ascii.eqb c NUL
  end.

(** The first [n] characters of [s]: what a bounded copy into a buffer
    of [n + 1] bytes keeps ([switch_copy_string], [switch_snprintf]). *)
Fixpoint str_take (n : nat) (s : string) : string :=
  match n, s with
  | S n', String c s' => String c (str_take n' s')
  | _, _ => EmptyString
  end.

(** [p + n] on a pointer into a string that has at least [n] characters
    left. *)
Fixpoint str_drop (n : nat) (s : string) : string :=
  match n, s with
  | S n', String _ s' => str_drop n' s'
  | _, _ => s
  end.

(** [strstr(hay, needle)]: the suffix of [hay] that starts at the first
    occurrence of [needle], [None] for NULL. *)
Fixpoint strstr (hay needle : string) : option string :=
  if String.prefix needle hay then Some hay
  else match hay with
       | EmptyString => None
       | String _ hay' => strstr hay' needle
       end.

Definition switch_copy_string (src : string) (dst_size : nat) : string :=
  str_take (Nat.pred dst_size) src.

Definition switch_snprintf (size : nat) (formatted : string) : string :=
  str_take (Nat.pred size) formatted.

Definition nl : string := String "010"%char EmptyString.

(** ** Host types *)

Inductive switch_status_t :=
| SWITCH_STATUS_SUCCESS
| SWITCH_STATUS_FALSE
| SWITCH_STATUS_ERRNO (code : Z).

Definition status_code (s : switch_status_t) : Z :=
  match s with
  | SWITCH_STATUS_SUCCESS => 0
  | SWITCH_STATUS_FALSE => 1
  | SWITCH_STATUS_ERRNO c => c
  end.

Definition is_success (s : switch_status_t) : bool :=
  match s with SWITCH_STATUS_SUCCESS => true | _ => false end.

Inductive switch_log_level_t :=
| SWITCH_LOG_CONSOLE | SWITCH_LOG_ALERT | SWITCH_LOG_CRIT | SWITCH_LOG_ERROR
| SWITCH_LOG_WARNING | SWITCH_LOG_NOTICE | SWITCH_LOG_INFO | SWITCH_LOG_DEBUG.

Definition switch_log_level2str (l : switch_log_level_t) : string :=
  match l with
  | SWITCH_LOG_CONSOLE => "CONSOLE"
  | SWITCH_LOG_ALERT => "ALERT"
  | SWITCH_LOG_CRIT => "CRIT"
  | SWITCH_LOG_ERROR => "ERR"
  | SWITCH_LOG_WARNING => "WARNING"
  | SWITCH_LOG_NOTICE => "NOTICE"
  | SWITCH_LOG_INFO => "INFO"
  | SWITCH_LOG_DEBUG => "DEBUG"
  end.

(** A channel: its variables and its uuid. *)
Record switch_channel_t := {
  chan_variables : gmap string string;
  chan_uuid : option string;
}.

Definition switch_channel_get_variable (channel : switch_channel_t)
    (name : string) : option string :=
  chan_variables channel !! name.

Definition switch_channel_get_uuid (channel : switch_channel_t) : option string :=
  chan_uuid channel.

(** A session, with the channel [switch_core_session_get_channel] gives. *)
Record switch_core_session_t := {
  session_channel : option switch_channel_t;
}.

Definition switch_core_session_get_channel (session : switch_core_session_t)
    : option switch_channel_t :=
  session_channel session.

(** The fields of a log node the module reads; [node_content] stands for
    the internal message representation the optional renderer reads. *)
Record switch_log_node_t := {
  node_file : option string;
  node_func : option string;
  node_line : Z;
  node_userdata : option switch_core_session_t;
  node_content : string;
}.

(** ** Domain extraction *)

(** [extract_domain(channel)]. *)
Definition extract_domain (channel : option switch_channel_t) : option string :=
  match channel with
  | None => None
  | Some channel =>
      let domain := switch_channel_get_variable channel "domain_name" in
      if negb (zstr domain) then domain
      else
        let domain := switch_channel_get_variable channel "domain" in
        if negb (zstr domain) then domain
        else None
  end.

(** The copy loop of [extract_domain_from_msg]: while the character at
    [p] is not NUL, is not [isspace] and [i + 1 < sizeof(domainbuf)], it
    is stored at [domainbuf[i]] and both [p] and [i] advance.  The result
    is [domainbuf] after the loop; its length is the final [i]. *)
Fixpoint copy_domain (p : string) (i : nat) : string :=
  match p with
  | EmptyString => EmptyString
  | String c p' =>
      if negb (Ascii.eqb c NUL) && negb (isspace c)
         && (i + 1 <? sizeof_domainbuf)%nat
      then String c (copy_domain p' (S i))
      else EmptyString
  end.

(** The search of [extract_domain_from_msg]: [p] after the marker that
    was found, ["domain_name="] first and ["domain="] otherwise. *)
Definition find_marker (msg : string) : option string :=
  match strstr msg "domain_name=" with
  | None =>
      match strstr msg "domain=" with
      | None => None
      | Some p => Some (str_drop (String.length "domain=") p)
      end
  | Some p => Some (str_drop (String.length "domain_name=") p)
  end.

(** The copy from [p] and the test [i == 0] that follows it. *)
Definition capture (p : string) : option string :=
  let domainbuf := copy_domain p 0 in
  if (String.length domainbuf =? 0)%nat then None else Some domainbuf.

(** [extract_domain_from_msg(msg)]. *)
Definition extract_domain_from_msg (msg : option string) : option string :=
  match msg with
  | None => None
  | Some msg =>
      match find_marker msg with
      | None => None
      | Some p => capture p
      end
  end.

(** *** Vocabulary for the properties of the extraction *)

(** The longest prefix of [s] whose characters all satisfy [f]. *)
Fixpoint span_while (f : ascii -> bool) (s : string) : string :=
  match s with
  | EmptyString => EmptyString
  | String c s' => if f c then String c (span_while f s') else EmptyString
  end.

Fixpoint str_forall (f : ascii -> bool) (s : string) : bool :=
  match s with
  | EmptyString => true
  | String c s' => f c && str_forall f s'
  end.

(** A character of a key as the specification describes it: not a
    whitespace, and printable. *)
Definition key_char (c : ascii) : bool := negb (isspace c) && isprint c.

(** [Some s] for a non-empty [s], [None] for the empty string. *)
Definition non_empty (s : string) : option string :=
  match s with EmptyString => None | _ => Some s end.

(** A character the copy loop takes: not NUL and not a whitespace. *)
Definition token_char (c : ascii) : bool :=
  negb (Ascii.eqb c NUL) && negb (isspace c).

(** [needle] occurs in [msg] at position [i]. *)
Definition occurs_at (needle msg : string) (i : nat) : bool :=
  (i <=? String.length msg)%nat && String.prefix needle (str_drop i msg).

(** The first occurrence of [needle] in [msg] is at position [i]. *)
Definition first_at (needle msg : string) (i : nat) : bool :=
  occurs_at needle msg i
  && forallb (fun j => negb (occurs_at needle msg j)) (seq 0 i).

(** [needle] occurs nowhere in [msg]. *)
Definition absent (needle msg : string) : bool :=
  forallb (fun j => negb (occurs_at needle msg j))
          (seq 0 (S (String.length msg))).

(** [marker_found msg rest]: [rest] is the text of [msg] right after the
    first ["domain_name="], or, when [msg] has no ["domain_name="], right
    after the first ["domain="]. *)
Inductive marker_found (msg : string) : string -> Prop :=
| found_domain_name i :
    first_at "domain_name=" msg i = true ->
    marker_found msg (str_drop (i + String.length "domain_name=") msg)
| found_domain i :
    absent "domain_name=" msg = true ->
    first_at "domain=" msg i = true ->
    marker_found msg (str_drop (i + String.length "domain=") msg).

(** ** The host: file system, console and clock *)

(** The outcome the operating system gives to one fallible call: its
    status and, for a write, the byte count it stores through [nbytes]. *)
Record os_reply := {
  reply_status : switch_status_t;
  reply_nbytes : Z;
}.

(** The optional [switch_log_node_render]: the status it returns and the
    text it leaves in the buffer. *)
Definition renderer : Type := switch_log_node_t -> switch_status_t * string.

(** Where the file of a descriptor is now: at a path, which is the path
    it was opened with unless the file was renamed since; or nowhere,
    when the file was removed, and then its content lives on with the
    descriptor (a removed file that two descriptors share is recorded
    once for each). *)
Inductive location :=
| AtPath (path : string)
| Unlinked (content : string).

(** [files] are the files with the path each has (a file has one path:
    there are no hard links).  A descriptor holds on to its file, not to
    the path: [fd_table] records for every descriptor this module holds
    open the path it was opened with and where its file is now.
    [oracle] lists the outcomes of the coming fallible calls ([open],
    [write]), one per call; when it is empty every call succeeds in
    full. *)
Record World := {
  log_dir : string;
  files : gmap string string;
  fd_table : gmap nat (string * location);
  next_fd : nat;
  oracle : list os_reply;
  console : list (switch_log_level_t * string);
  clock : string;
  host_render : option renderer;
}.

Definition SWITCH_PATH_SEPARATOR : string := "/".

(** The open descriptors, each with the path it was opened with. *)
Definition fds (w : World) : gmap nat string := fst <$> fd_table w.

Definition set_oracle (o : list os_reply) (w : World) : World :=
  {| log_dir := log_dir w; files := files w; fd_table := fd_table w;
     next_fd := next_fd w; oracle := o; console := console w;
     clock := clock w; host_render := host_render w |}.

Definition set_files (f : gmap string string) (w : World) : World :=
  {| log_dir := log_dir w; files := f; fd_table := fd_table w;
     next_fd := next_fd w; oracle := oracle w; console := console w;
     clock := clock w; host_render := host_render w |}.

Definition set_fd_table (t : gmap nat (string * location)) (n : nat) (w : World)
    : World :=
  {| log_dir := log_dir w; files := files w; fd_table := t;
     next_fd := n; oracle := oracle w; console := console w;
     clock := clock w; host_render := host_render w |}.

Definition set_console (c : list (switch_log_level_t * string)) (w : World) : World :=
  {| log_dir := log_dir w; files := files w; fd_table := fd_table w;
     next_fd := next_fd w; oracle := oracle w; console := c;
     clock := clock w; host_render := host_render w |}.

(** A descriptor after other processes have left only the paths of [f]:
    a file whose path is gone was removed, and keeps the content it had
    in [old]. *)
Definition unlink_missing (f old : gmap string string)
    (pl : string * location) : string * location :=
  match pl.2 with
  | AtPath q =>
      match f !! q with
      | Some _ => pl
      | None => (pl.1, Unlinked (default "" (old !! q)))
      end
  | Unlinked _ => pl
  end.

(** Other processes change the files: afterwards the paths and their
    contents are those of [f].  A path that was there before still names
    the same file (it was rewritten in place); a file whose path is not
    in [f] has been removed, and lives on for the descriptors that are
    open on it.  The outcomes of the coming calls are [o]. *)
Definition external_change (f : gmap string string) (o : list os_reply)
    (w : World) : World :=
  set_oracle o
    (set_fd_table (unlink_missing f (files w) <$> fd_table w) (next_fd w)
       (set_files f w)).

(** A descriptor after the file at [src] was renamed to [dst]: it
    follows its file, and a file that was at [dst] has lost its path. *)
Definition rename_location (src dst : string) (old : gmap string string)
    (pl : string * location) : string * location :=
  match pl.2 with
  | AtPath q =>
      if String.eqb q src then (pl.1, AtPath dst)
      else if String.eqb q dst then (pl.1, Unlinked (default "" (old !! dst)))
      else pl
  | Unlinked _ => pl
  end.

(** Another process renames a file ([rename(2)], as log rotation does):
    the file keeps its content and its descriptors. *)
Definition external_rename (src dst : string) (w : World) : World :=
  match files w !! src with
  | Some c =>
      if String.eqb src dst then w
      else
        set_fd_table (rename_location src dst (files w) <$> fd_table w)
          (next_fd w)
          (set_files (<[dst := c]> (delete src (files w))) w)
  | None => w
  end.

(** [switch_file_open] with [SWITCH_FOPEN_CREATE]: a descriptor on the
    file at [path], which is created when there is none, or the failing
    status.  [trunc] is [SWITCH_FOPEN_TRUNC]. *)
Definition open_ok (path : string) (trunc : bool) (w : World)
    : (nat + switch_status_t) * World :=
  let content := if trunc then "" else default "" (files w !! path) in
  let fd := next_fd w in
  (inl fd, set_fd_table (<[fd := (path, AtPath path)]> (fd_table w)) (S fd)
             (set_files (<[path := content]> (files w)) w)).

Definition switch_file_open (path : string) (trunc : bool) (w : World)
    : (nat + switch_status_t) * World :=
  match oracle w with
  | [] => open_ok path trunc w
  | r :: rest =>
      if is_success (reply_status r) then open_ok path trunc (set_oracle rest w)
      else (inr (reply_status r), set_oracle rest w)
  end.

(** The bytes a write adds go to the end of the file the descriptor
    refers to, wherever that file is now. *)
Definition append_at (fd : nat) (pl : string * location) (bytes : string)
    (w : World) : World :=
  match pl.2 with
  | AtPath q =>
      set_files (<[q := default "" (files w !! q) +:+ bytes]> (files w)) w
  | Unlinked c =>
      set_fd_table (<[fd := (pl.1, Unlinked (c +:+ bytes))]> (fd_table w))
        (next_fd w) w
  end.

(** [switch_file_write(fd, data, &nbytes)] on a descriptor opened with
    [SWITCH_FOPEN_APPEND]: the status and the value left in [nbytes]. *)
Definition switch_file_write (fd : nat) (data : string) (nbytes : Z) (w : World)
    : (switch_status_t * Z) * World :=
  match fd_table w !! fd with
  | None => ((SWITCH_STATUS_ERRNO 9, 0), w)
  | Some pl =>
      let r := default {| reply_status := SWITCH_STATUS_SUCCESS;
                          reply_nbytes := nbytes |} (head (oracle w)) in
      let w1 := set_oracle (tail (oracle w)) w in
      let n := Z.max 0 (Z.min nbytes (reply_nbytes r)) in
      if is_success (reply_status r) then
        ((SWITCH_STATUS_SUCCESS, n),
         append_at fd pl (str_take (Z.to_nat n) data) w1)
      else ((reply_status r, n), w1)
  end.

Definition switch_file_close (fd : nat) (w : World) : World :=
  set_fd_table (delete fd (fd_table w)) (next_fd w) w.

Definition switch_file_get_size (fd : nat) (w : World) : Z :=
  match fd_table w !! fd with
  | None => 0
  | Some pl =>
      match pl.2 with
      | AtPath q => Z.of_nat (String.length (default "" (files w !! q)))
      | Unlinked c => Z.of_nat (String.length c)
      end
  end.

(** The operating system keeps the contract of an unbuffered
    [apr_file_write]: a failing write stores 0 through [nbytes]. *)
Definition failed_write_reports_zero (w : World) : Prop :=
  Forall (fun r => is_success (reply_status r) = false -> reply_nbytes r <= 0)
         (oracle w).

(** ** Module state *)

(** [domain_cache_entry_t]. *)
Record domain_cache_entry_t := {
  domain : string;
  log_file : option nat;
  log_size : Z;
  roll_size : Z;
  logfile_path : string;
  file_lock : bool;
}.

Definition set_log_file (f : option nat) (e : domain_cache_entry_t)
    : domain_cache_entry_t :=
  {| domain := domain e; log_file := f; log_size := log_size e;
     roll_size := roll_size e; logfile_path := logfile_path e;
     file_lock := file_lock e |}.

Definition set_log_size (z : Z) (e : domain_cache_entry_t)
    : domain_cache_entry_t :=
  {| domain := domain e; log_file := log_file e; log_size := z;
     roll_size := roll_size e; logfile_path := logfile_path e;
     file_lock := file_lock e |}.

(** The statics of the file: [domain_hash] ([None] for NULL), the
    entries allocated from [module_pool], [globals], the resolved render
    pointer; and, of the host, whether the logger is bound and the
    world. *)
Record module_state := {
  domain_hash : option (gmap string nat);
  pool : list domain_cache_entry_t;
  globals_mutex : bool;
  globals_cache_entries : Z;
  switch_log_node_render_ptr : option renderer;
  logger_bound : bool;
  world : World;
}.

Definition set_world (w : World) (st : module_state) : module_state :=
  {| domain_hash := domain_hash st; pool := pool st;
     globals_mutex := globals_mutex st;
     globals_cache_entries := globals_cache_entries st;
     switch_log_node_render_ptr := switch_log_node_render_ptr st;
     logger_bound := logger_bound st; world := w |}.

Definition set_pool (p : list domain_cache_entry_t) (st : module_state)
    : module_state :=
  {| domain_hash := domain_hash st; pool := p;
     globals_mutex := globals_mutex st;
     globals_cache_entries := globals_cache_entries st;
     switch_log_node_render_ptr := switch_log_node_render_ptr st;
     logger_bound := logger_bound st; world := world st |}.

Definition set_cache (h : option (gmap string nat)) (n : Z)
    (st : module_state) : module_state :=
  {| domain_hash := h; pool := pool st;
     globals_mutex := globals_mutex st;
     globals_cache_entries := n;
     switch_log_node_render_ptr := switch_log_node_render_ptr st;
     logger_bound := logger_bound st; world := world st |}.

Definition set_logger_bound (b : bool) (st : module_state) : module_state :=
  {| domain_hash := domain_hash st; pool := pool st;
     globals_mutex := globals_mutex st;
     globals_cache_entries := globals_cache_entries st;
     switch_log_node_render_ptr := switch_log_node_render_ptr st;
     logger_bound := b; world := world st |}.

(** The state of the process before the module is loaded: zeroed
    statics. *)
Definition boot (w : World) : module_state :=
  {| domain_hash := None; pool := [];
     globals_mutex := false; globals_cache_entries := 0;
     switch_log_node_render_ptr := None;
     logger_bound := false; world := w |}.

(** ** Computations: state passing with memory faults

    [Fault] is the access the C program makes through a NULL pointer (a
    hash table that was never created or was destroyed, a mutex that was
    never initialised). *)
Inductive result (A : Type) :=
| Ret (a : A) (st : module_state)
| Fault.
Arguments Ret {A} a st.
Arguments Fault {A}.

Definition M (A : Type) : Type := module_state -> result A.

Definition ret {A} (a : A) : M A := fun st => Ret a st.

Definition bind {A B} (m : M A) (k : A -> M B) : M B :=
  fun st => match m st with
            | Ret a st' => k a st'
            | Fault => Fault
            end.

Notation "x <- m ;; k" := (bind m (fun x => k))
  (at level 100, m at next level, right associativity).

(** [switch_log_printf(SWITCH_CHANNEL_LOG, level, msg)]. *)
Definition switch_log_printf (level : switch_log_level_t) (msg : string)
    (st : module_state) : module_state :=
  set_world (set_console (console (world st) ++ [(level, msg)]) (world st)) st.

(** ** The module's functions *)

Definition strlen (s : string) : Z := Z.of_nat (String.length s).

(** [cleanup_domain_entry(ptr)], the destructor of a hash value: the
    mutex is destroyed (no trace in this state) and an open file is
    closed. *)
Definition cleanup_domain_entry (ptr : nat) (st : module_state) : module_state :=
  match pool st !! ptr with
  | None => st
  | Some entry =>
      match log_file entry with
      | Some fd => set_world (switch_file_close fd (world st)) st
      | None => st
      end
  end.

(** [open_domain_logfile(entry)]. *)
Definition open_domain_logfile (entry : nat) : M switch_status_t := fun st =>
  match pool st !! entry with
  | None => Fault
  | Some e =>
      match switch_file_open (logfile_path e) false (world st) with
      | (inr stat, w) =>
          Ret SWITCH_STATUS_FALSE
            (switch_log_printf SWITCH_LOG_ERROR
               ("mod_logfile_domain: Failed to open " +:+ logfile_path e
                +:+ " (status=" +:+ pretty (status_code stat) +:+ ")" +:+ nl)
               (set_world w st))
      | (inl afd, w) =>
          let e' := set_log_size (switch_file_get_size afd w)
                      (set_log_file (Some afd) e) in
          Ret SWITCH_STATUS_SUCCESS
            (set_pool (<[entry := e']> (pool st)) (set_world w st))
      end
  end.

(** The entry [get_domain_entry] builds before it opens the file. *)
Definition new_domain_entry (dir : string) (domain : string) : domain_cache_entry_t :=
  {| domain := switch_copy_string domain sizeof_domain;
     log_file := None;
     log_size := 0;
     roll_size := DEFAULT_LIMIT;
     logfile_path :=
       switch_snprintf sizeof_logfile_path
         (dir +:+ SWITCH_PATH_SEPARATOR +:+ "domain_" +:+ domain +:+ ".log");
     file_lock := true |}.

(** [get_domain_entry(domain)].  The table keeps its own copy of the
    key, so the entry is cached under the whole [domain] string even
    when the caller's buffer is reused.  [globals.cache_entries] is an
    [int]; it is incremented only below [MAX_DOMAIN_CACHE_SIZE] and so
    never overflows. *)
Definition get_domain_entry (domain : option string) : M (option nat) := fun st =>
  match domain with
  | None => Ret None st
  | Some d =>
      if zstr domain then Ret None st
      else if negb (globals_mutex st) then Fault
      else
        match domain_hash st with
        | None => Fault
        | Some h =>
            match h !! d with
            | Some entry => Ret (Some entry) st
            | None =>
                if MAX_DOMAIN_CACHE_SIZE <=? globals_cache_entries st then
                  Ret None
                    (switch_log_printf SWITCH_LOG_WARNING
                       ("mod_logfile_domain: Cache full ("
                        +:+ pretty MAX_DOMAIN_CACHE_SIZE +:+ " domains)" +:+ nl) st)
                else
                  let entry := length (pool st) in
                  let st1 := set_pool (pool st ++ [new_domain_entry (log_dir (world st)) d]) st in
                  match open_domain_logfile entry st1 with
                  | Fault => Fault
                  | Ret SWITCH_STATUS_SUCCESS st2 =>
                      Ret (Some entry)
                        (switch_log_printf SWITCH_LOG_DEBUG
                           ("mod_logfile_domain: Created cache entry for domain: "
                            +:+ d +:+ nl)
                           (set_cache (Some (<[d := entry]> h))
                              (globals_cache_entries st2 + 1) st2))
                  | Ret _ st2 => Ret None st2
                  end
            end
        end
  end.

(** The block "Try to reopen and write" of [write_domain_log] and the
    accounting that follows it, from a state in which the entry has no
    handle. *)
Definition reopen_and_write (entry : nat) (log_data : string)
    : M switch_status_t := fun st1 =>
  match open_domain_logfile entry st1 with
  | Fault => Fault
  | Ret SWITCH_STATUS_SUCCESS st2 =>
      match pool st2 !! entry with
      | None => Fault
      | Some e2 =>
          match log_file e2 with
          | None => Fault
          | Some fd2 =>
              let '((_, len2), w2) :=
                switch_file_write fd2 log_data (strlen log_data) (world st2) in
              Ret SWITCH_STATUS_SUCCESS
                (set_pool
                   (<[entry := set_log_size (wrap_size (log_size e2 + len2)) e2]>
                      (pool st2))
                   (set_world w2 st2))
          end
      end
  | Ret _ st2 => Ret SWITCH_STATUS_FALSE st2
  end.

(** The part of [write_domain_log] between [switch_mutex_lock] and
    [switch_mutex_unlock] on [entry->file_lock]. *)
Definition write_entry (entry : nat) (log_data : string) : M switch_status_t := fun st =>
  match pool st !! entry with
  | None => Fault
  | Some e =>
      if negb (file_lock e) then Fault
      else
        let len := strlen log_data in
        let first :=
          match log_file e with
          | None => None
          | Some fd => Some (switch_file_write fd log_data len (world st))
          end in
        match first with
        | Some ((SWITCH_STATUS_SUCCESS, len1), w1) =>
            Ret SWITCH_STATUS_SUCCESS
              (set_pool (<[entry := set_log_size (wrap_size (log_size e + len1)) e]> (pool st))
                 (set_world w1 st))
        | _ =>
            let st1 :=
              match first, log_file e with
              | Some (_, w1), Some fd =>
                  set_pool (<[entry := set_log_file None e]> (pool st))
                    (set_world (switch_file_close fd w1) st)
              | _, _ => st
              end in
            reopen_and_write entry log_data st1
        end
  end.

(** The first attempt of [write_entry] did not succeed, because the
    entry had no handle or because the write failed: the world once the
    handle, if there was one, is closed. *)
Definition first_attempt_failed (e : domain_cache_entry_t) (log_data : string)
    (w : World) : option World :=
  match log_file e with
  | None => Some w
  | Some fd =>
      match switch_file_write fd log_data (strlen log_data) w with
      | ((SWITCH_STATUS_SUCCESS, _), _) => None
      | (_, w1) => Some (switch_file_close fd w1)
      end
  end.

(** The state [write_entry] hands to the reopen block. *)
Definition closed_state (entry : nat) (e : domain_cache_entry_t) (w_c : World)
    (st : module_state) : module_state :=
  set_pool (<[entry := set_log_file None e]> (pool st)) (set_world w_c st).

(** [write_domain_log(domain, log_data)]. *)
Definition write_domain_log (domain log_data : option string) : M switch_status_t :=
  match domain, log_data with
  | Some d, Some data =>
      entry <- get_domain_entry domain ;;
      match entry with
      | None =>
          fun st =>
            Ret SWITCH_STATUS_FALSE
              (switch_log_printf SWITCH_LOG_WARNING
                 ("mod_logfile_domain: No cache entry for domain: " +:+ d +:+ nl) st)
      | Some entry => write_entry entry data
      end
  | _, _ => ret SWITCH_STATUS_FALSE
  end.

(** The first lines of the logger: the message is rendered when the
    optional renderer was resolved and succeeds, and is empty
    otherwise. *)
Definition render_message (render_ptr : option renderer)
    (node : switch_log_node_t) : string :=
  match render_ptr with
  | Some render =>
      match render node with
      | (SWITCH_STATUS_SUCCESS, buf) => str_take (Nat.pred sizeof_rendered_msg) buf
      | _ => ""
      end
  | None => ""
  end.

(** The logger's anti-recursion test on [node->file]. *)
Definition is_internal (node : switch_log_node_t) : bool :=
  match node_file node with
  | Some file =>
      match strstr file "mod_logfile_domain" with Some _ => true | None => false end
  | None => false
  end.

(** The channel of the node's session, when it has one. *)
Definition node_channel (node : switch_log_node_t) : option switch_channel_t :=
  match node_userdata node with
  | Some session => switch_core_session_get_channel session
  | None => None
  end.

(** The logger's resolution of the domain: the channel first, then the
    rendered message when the channel gave nothing and the message is not
    empty. *)
Definition resolve_domain (node : switch_log_node_t) (rendered_msg : string)
    : option string :=
  let domain :=
    match node_channel node with
    | Some channel => extract_domain (Some channel)
    | None => None
    end in
  if zstr domain && negb (zstr (Some rendered_msg)) then
    match extract_domain_from_msg (Some rendered_msg) with
    | Some f => Some f
    | None => domain
    end
  else domain.

(** [switch_strftime_nocheck] into [date[80]]. *)
Definition format_date (w : World) : string := str_take 79 (clock w).

(** The line the logger formats into [log_line]; [msg] is the argument
    given for the message. *)
Definition format_log_line (date : string) (level : switch_log_level_t)
    (node : switch_log_node_t) (msg : string)
    (channel : option switch_channel_t) : string :=
  let head :=
    date +:+ " [" +:+ switch_log_level2str level +:+ "] ["
    +:+ default "unknown" (node_file node) +:+ ":"
    +:+ default "unknown" (node_func node) +:+ ":"
    +:+ pretty (as_int (node_line node)) +:+ "] " +:+ msg in
  match channel with
  | Some channel =>
      switch_snprintf sizeof_log_line
        (head +:+ " [" +:+ default "unknown" (switch_channel_get_uuid channel)
         +:+ "]" +:+ nl)
  | None => switch_snprintf sizeof_log_line (head +:+ nl)
  end.

(** The message argument of the format: the rendered text, or the
    placeholder when it is empty. *)
Definition message_or_placeholder (rendered_msg : string) : string :=
  if zstr (Some rendered_msg) then "(message)" else rendered_msg.

(** [mod_logfile_domain_logger(node, level)]. *)
Definition mod_logfile_domain_logger (node : option switch_log_node_t)
    (level : switch_log_level_t) : M switch_status_t := fun st =>
  match node with
  | None => Ret SWITCH_STATUS_SUCCESS st
  | Some node =>
      let rendered_msg := render_message (switch_log_node_render_ptr st) node in
      if is_internal node then Ret SWITCH_STATUS_SUCCESS st
      else
        let domain := resolve_domain node rendered_msg in
        if negb (zstr domain) then
          let log_line :=
            format_log_line (format_date (world st)) level node
              (message_or_placeholder rendered_msg) (node_channel node) in
          (_ <- write_domain_log domain (Some log_line) ;;
           ret SWITCH_STATUS_SUCCESS) st
        else Ret SWITCH_STATUS_SUCCESS st
  end.

(** The values of the hash in iteration order. *)
Definition hash_values (h : gmap string nat) : list nat := (map_to_list h).*2.

(** The body of the loop of [close_all_domain_logs]. *)
Definition close_entry_log (st : module_state) (ptr : nat) : module_state :=
  match pool st !! ptr with
  | None => st
  | Some entry =>
      if file_lock entry then
        match log_file entry with
        | Some fd =>
            set_pool (<[ptr := set_log_file None entry]> (pool st))
              (set_world (switch_file_close fd (world st)) st)
        | None => st
        end
      else st
  end.

(** [close_all_domain_logs()]. *)
Definition close_all_domain_logs : M unit := fun st =>
  if negb (globals_mutex st) then Fault
  else
    match domain_hash st with
    | None => Fault
    | Some h => Ret tt (foldl close_entry_log st (hash_values h))
    end.

(** [switch_core_hash_destroy(&domain_hash)]: every value goes through
    its destructor and the pointer is set to NULL. *)
Definition switch_core_hash_destroy : M unit := fun st =>
  match domain_hash st with
  | None => Fault
  | Some h =>
      Ret tt
        (set_cache None (globals_cache_entries st)
           (foldl (fun st ptr => cleanup_domain_entry ptr st) st (hash_values h)))
  end.

Definition set_globals (mutex : bool) (entries : Z) (st : module_state)
    : module_state :=
  {| domain_hash := domain_hash st; pool := pool st;
     globals_mutex := mutex; globals_cache_entries := entries;
     switch_log_node_render_ptr := switch_log_node_render_ptr st;
     logger_bound := logger_bound st; world := world st |}.

Definition set_render_ptr (r : option renderer) (st : module_state)
    : module_state :=
  {| domain_hash := domain_hash st; pool := pool st;
     globals_mutex := globals_mutex st;
     globals_cache_entries := globals_cache_entries st;
     switch_log_node_render_ptr := r;
     logger_bound := logger_bound st; world := world st |}.

(** The one-time diagnostic file of the load function. *)
Definition write_diagnostic (st : module_state) : module_state :=
  let diag_path :=
    switch_snprintf 512
      (log_dir (world st) +:+ SWITCH_PATH_SEPARATOR
       +:+ "switch_mod_logfile_domain_loaded") in
  match switch_file_open diag_path true (world st) with
  | (inl diag, w1) =>
      let msg := "mod_logfile_domain loaded" +:+ nl in
      let '(_, w2) := switch_file_write diag msg (strlen msg) w1 in
      set_world (switch_file_close diag w2) st
  | (inr _, w1) =>
      switch_log_printf SWITCH_LOG_WARNING
        ("mod_logfile_domain: could not write diagnostic file " +:+ diag_path +:+ nl)
        (set_world w1 st)
  end.

(** [mod_logfile_domain_load]. *)
Definition mod_logfile_domain_load : M switch_status_t := fun st =>
  let st := set_globals true 0 st in
  let destroyed :=
    match domain_hash st with
    | Some _ => switch_core_hash_destroy st
    | None => Ret tt st
    end in
  match destroyed with
  | Fault => Fault
  | Ret _ st =>
      let st := set_cache (Some ∅) (globals_cache_entries st) st in
      let st := set_render_ptr (host_render (world st)) st in
      let st :=
        switch_log_printf SWITCH_LOG_INFO
          (match switch_log_node_render_ptr st with
           | Some _ => "mod_logfile_domain: runtime resolved switch_log_node_render" +:+ nl
           | None =>
               "mod_logfile_domain: switch_log_node_render not available; using fallback"
               +:+ nl
           end) st in
      let st := set_logger_bound true st in
      let st := write_diagnostic st in
      Ret SWITCH_STATUS_SUCCESS
        (switch_log_printf SWITCH_LOG_NOTICE
           ("mod_logfile_domain: Loaded successfully - Domain-specific logging enabled"
            +:+ nl) st)
  end.

(** [mod_logfile_domain_shutdown]. *)
Definition mod_logfile_domain_shutdown : M switch_status_t := fun st =>
  let st :=
    switch_log_printf SWITCH_LOG_NOTICE
      ("mod_logfile_domain: Shutting down - " +:+ pretty (globals_cache_entries st)
       +:+ " domains cached" +:+ nl) st in
  let st := set_logger_bound false st in
  (_ <- close_all_domain_logs ;;
   _ <- switch_core_hash_destroy ;;
   ret SWITCH_STATUS_SUCCESS) st.

(** ** Runs of the module

    What can happen to the module, in any order: the host loads it or
    shuts it down, emits a log event (delivered to the callback while the
    logger is bound), another process changes or renames the files; and
    the direct calls of the callback and of the two cache functions. *)
Inductive op :=
| OpLoad
| OpShutdown
| OpEvent (node : option switch_log_node_t) (level : switch_log_level_t)
| OpExternal (f : gmap string string) (o : list os_reply)
| OpRename (src dst : string)
| OpLogger (node : option switch_log_node_t) (level : switch_log_level_t)
| OpWrite (domain log_data : option string)
| OpGet (domain : option string).

Definition discard {A} (m : M A) : M unit := _ <- m ;; ret tt.

Definition run_op (o : op) : M unit :=
  match o with
  | OpLoad => discard mod_logfile_domain_load
  | OpShutdown => discard mod_logfile_domain_shutdown
  | OpEvent node level =>
      fun st =>
        if logger_bound st then discard (mod_logfile_domain_logger node level) st
        else Ret tt st
  | OpExternal f o => fun st => Ret tt (set_world (external_change f o (world st)) st)
  | OpRename src dst =>
      fun st => Ret tt (set_world (external_rename src dst (world st)) st)
  | OpLogger node level => discard (mod_logfile_domain_logger node level)
  | OpWrite domain log_data => discard (write_domain_log domain log_data)
  | OpGet domain => discard (get_domain_entry domain)
  end.

Fixpoint run (ops : list op) : M unit :=
  match ops with
  | [] => ret tt
  | o :: ops' => _ <- run_op o ;; run ops'
  end.

(** The event-time operations: everything but load and shutdown. *)
Definition is_lifecycle (o : op) : bool :=
  match o with OpLoad | OpShutdown => true | _ => false end.

(** The operations by which the host hands an event to the module. *)
Definition is_event (o : op) : bool :=
  match o with OpEvent _ _ => true | _ => false end.

(** ** Example inputs *)

Definition ex_world : World :=
  {| log_dir := "/var/log/freeswitch"; files := ∅; fd_table := ∅;
     next_fd := 3;
     oracle := []; console := []; clock := "2024-05-01 12:00:00";
     host_render := None |}.

Definition ex_channel : switch_channel_t :=
  {| chan_variables := {[ "domain_name" := "acme.com"; "domain" := "other.org" ]};
     chan_uuid := Some "4f1c" |}.

Definition ex_channel_domain_only : switch_channel_t :=
  {| chan_variables := {[ "domain" := "other.org" ]}; chan_uuid := None |}.

Definition ex_node (channel : option switch_channel_t) : switch_log_node_t :=
  {| node_file := Some "switch_core_session.c"; node_func := Some "run";
     node_line := 42;
     node_userdata := Some {| session_channel := channel |};
     node_content := "call from domain=text.example" |}.

(** A channel whose [domain_name] has 300 characters. *)
Definition ex_long_key : string := string_of_list_ascii (repeat "a"%char 300).

Definition ex_long_channel : switch_channel_t :=
  {| chan_variables := {[ "domain_name" := ex_long_key ]}; chan_uuid := None |}.

(** A text whose token after the marker has 128 printable characters. *)
Definition ex_long_msg : string :=
  "domain=" +:+ string_of_list_ascii (repeat "b"%char 128).

(** A domain of 200 characters, as the variable [domain_name] of one
    channel and as the variable [domain] of another.  The name of its
    log file has 211 characters, which a file system takes. *)
Definition ex_wide_key : string := string_of_list_ascii (repeat "a"%char 200).

Definition ex_wide_channel : switch_channel_t :=
  {| chan_variables := {[ "domain_name" := ex_wide_key ]}; chan_uuid := None |}.

Definition ex_wide_channel_domain : switch_channel_t :=
  {| chan_variables := {[ "domain" := ex_wide_key ]}; chan_uuid := None |}.

(** A text with a control character in the token after the marker. *)
Definition ex_control_msg : string := "domain=a" +:+ String "001"%char "b".

(** The value a computation returns. *)
Definition result_value {A} (r : result A) : option A :=
  match r with
  | Ret a _ => Some a
  | Fault => None
  end.

(** The state a computation ends in. *)
Definition state_of {A} (r : result A) : module_state :=
  match r with
  | Ret _ st => st
  | Fault => boot ex_world
  end.

(** The module loaded, with one cached domain. *)
Definition ex_cached : module_state :=
  state_of (run [OpLoad; OpGet (Some "acme.com")] (boot ex_world)).

(** The disk is full ([ENOSPC]) for the next write, the reopen succeeds,
    and the disk is still full for the retried write. *)
Definition enospc : os_reply :=
  {| reply_status := SWITCH_STATUS_ERRNO 28; reply_nbytes := 0 |}.

Definition reply_ok : os_reply :=
  {| reply_status := SWITCH_STATUS_SUCCESS; reply_nbytes := 4096 |}.

Definition ex_disk_full : module_state :=
  set_world (set_oracle [enospc; reply_ok; enospc] (world ex_cached)) ex_cached.

(** The cached entry, the world once its failing handle is closed, the
    reopen and the state after the call. *)
Definition ex_entry : domain_cache_entry_t :=
  default (new_domain_entry "" "") (pool ex_disk_full !! 0%nat).

Definition ex_closed : World :=
  default ex_world (first_attempt_failed ex_entry "lost line" (world ex_disk_full)).

Definition ex_reopened : (nat + switch_status_t) * World :=
  switch_file_open (logfile_path ex_entry) false ex_closed.

Definition ex_after_write : module_state :=
  state_of (write_domain_log (Some "acme.com") (Some "lost line") ex_disk_full).

Definition ex_after_shutdown : module_state :=
  state_of (mod_logfile_domain_shutdown ex_cached).

(** The module just loaded; events after the first lookup; the state
    they lead to. *)
Definition ex_loaded : module_state := state_of (run [OpLoad] (boot ex_world)).

Definition ex_events : list op :=
  [OpEvent (Some (ex_node (Some ex_channel))) SWITCH_LOG_INFO;
   OpWrite (Some "other.org") (Some "line");
   OpExternal ∅ [enospc];
   OpEvent (Some (ex_node (Some ex_channel_domain_only))) SWITCH_LOG_DEBUG].

Definition ex_later : module_state := state_of (run ex_events ex_cached).

(** The lookup of a domain of 200 characters. *)
Definition ex_wide_cached : module_state :=
  state_of (get_domain_entry (Some ex_wide_key) ex_loaded).

(** 256 distinct domains, and the run that caches them all. *)
Definition ex_domains : list string :=
  map (fun i : nat => "d" +:+ pretty i +:+ ".example") (seq 0 256).

Definition ex_fill : list op :=
  OpLoad :: map (fun d => OpGet (Some d)) ex_domains.

Definition ex_full : module_state := state_of (run ex_fill (boot ex_world)).

Definition ex_full_hash : gmap string nat := default ∅ (domain_hash ex_full).

(** The warning of a full cache. *)
Definition cache_full_warning : string :=
  "mod_logfile_domain: Cache full (256 domains)" +:+ nl.

(** ** Invariants of the cache *)

(** The fields of an entry that never change after its creation. *)
Definition entry_static (e : domain_cache_entry_t) : string * Z * string * bool :=
  (domain e, roll_size e, logfile_path e, file_lock e).

(** The module is loaded: its mutex and its hash table exist. *)
Definition loaded (st : module_state) : Prop :=
  globals_mutex st = true /\ exists h, domain_hash st = Some h.

(** What holds of the cache in every state the module reaches: the
    counter is the number of cached domains and stays within the limit;
    a cached pointer leads to the entry that was built for its key;
    different keys have different entries. *)
Record cache_inv (st : module_state) : Prop := {
  inv_bound : 0 <= globals_cache_entries st <= MAX_DOMAIN_CACHE_SIZE;
  inv_live : forall h, domain_hash st = Some h ->
    globals_mutex st = true /\ globals_cache_entries st = Z.of_nat (size h);
  inv_entries : forall h d p, domain_hash st = Some h -> h !! d = Some p ->
    exists e, pool st !! p = Some e /\
      entry_static e = entry_static (new_domain_entry (log_dir (world st)) d);
  inv_inj : forall h d1 d2 p, domain_hash st = Some h ->
    h !! d1 = Some p -> h !! d2 = Some p -> d1 = d2;
}.

(** The handle of the entry at [p], if the entry exists and has one. *)
Definition handle_of (st : module_state) (p : nat) : option nat :=
  pool st !! p ≫= log_file.

(** [fd] is the handle of a cached entry. *)
Definition cached_handle (st : module_state) (fd : nat) : Prop :=
  exists h d p, domain_hash st = Some h /\ h !! d = Some p /\
    handle_of st p = Some fd.

(** What holds of the descriptors: the open ones are exactly the handles
    of the cached entries, no two cached entries share a handle, and the
    next descriptor is fresh. *)
Record fd_inv (st : module_state) : Prop := {
  inv_open : forall fd, is_Some (fds (world st) !! fd) <-> cached_handle st fd;
  inv_handle_inj : forall h d1 d2 p1 p2 fd, domain_hash st = Some h ->
    h !! d1 = Some p1 -> h !! d2 = Some p2 ->
    handle_of st p1 = Some fd -> handle_of st p2 = Some fd -> p1 = p2;
  inv_fresh : forall fd, is_Some (fds (world st) !! fd) ->
    (fd < next_fd (world st))%nat;
}.

(** [pl'] still holds every entry of [pl], with the same static fields. *)
Definition pool_le (pl pl' : list domain_cache_entry_t) : Prop :=
  forall p e, pl !! p = Some e ->
    exists e', pl' !! p = Some e' /\ entry_static e' = entry_static e.

(** A step that leaves the cache table, the counter and the globals as
    they were, and only touches handles, sizes and the world. *)
Definition same_cache (st st' : module_state) : Prop :=
  domain_hash st' = domain_hash st /\
  globals_mutex st' = globals_mutex st /\
  globals_cache_entries st' = globals_cache_entries st /\
  switch_log_node_render_ptr st' = switch_log_node_render_ptr st /\
  logger_bound st' = logger_bound st /\
  log_dir (world st') = log_dir (world st) /\
  pool_le (pool st) (pool st').

(** An event-time step: the globals stay, entries keep their static
    fields, and the cache table only gains keys. *)
Definition cache_grows (st st' : module_state) : Prop :=
  globals_mutex st' = globals_mutex st /\
  switch_log_node_render_ptr st' = switch_log_node_render_ptr st /\
  logger_bound st' = logger_bound st /\
  log_dir (world st') = log_dir (world st) /\
  pool_le (pool st) (pool st') /\
  match domain_hash st with
  | Some h => exists h', domain_hash st' = Some h' /\ h ⊆ h'
  | None => domain_hash st' = None
  end.

(** ** Files and paths *)

(** The path [get_domain_entry] builds for a domain. *)
Definition domain_log_path (dir d : string) : string :=
  switch_snprintf sizeof_logfile_path
    (dir +:+ SWITCH_PATH_SEPARATOR +:+ "domain_" +:+ d +:+ ".log").

(** The path of the diagnostic file of the load function. *)
Definition diag_path (dir : string) : string :=
  switch_snprintf 512
    (dir +:+ SWITCH_PATH_SEPARATOR +:+ "switch_mod_logfile_domain_loaded").

(** What a file holds; a file that does not exist holds nothing. *)
Definition file_content (w : World) (path : string) : string :=
  default "" (files w !! path).

(** The handle of a cached entry is open on the path of the entry. *)
Definition path_inv (st : module_state) : Prop :=
  forall h d p e fd, domain_hash st = Some h -> h !! d = Some p ->
    pool st !! p = Some e -> log_file e = Some fd ->
    fds (world st) !! fd = Some (logfile_path e).

(** Every coming call of the operating system succeeds in full. *)
Definition healthy (w : World) : Prop := oracle w = [].

(** The path where the file of the descriptor [fd] is now. *)
Definition fd_path (w : World) (fd : nat) : option string :=
  match fd_table w !! fd with
  | Some (_, AtPath q) => Some q
  | _ => None
  end.

(** The file of the descriptor [fd] is at the path it was opened with:
    it was neither removed nor renamed since. *)
Definition attached (w : World) (fd : nat) : bool :=
  match fd_table w !! fd with
  | Some (p, AtPath q) => String.eqb p q
  | _ => false
  end.

(** Every open descriptor is at the path it was opened with. *)
Definition all_attached (w : World) : Prop :=
  forall fd pl, fd_table w !! fd = Some pl -> pl.2 = AtPath pl.1.

(** The operations of other processes on the files. *)
Definition is_external (o : op) : bool :=
  match o with OpExternal _ _ | OpRename _ _ => true | _ => false end.

(** The handle of the entry cached for [d], when there is one, is
    attached. *)
Definition handle_attached (st : module_state) (d : string) : bool :=
  match domain_hash st with
  | Some h =>
      match h !! d with
      | Some p =>
          match handle_of st p with
          | Some fd => attached (world st) fd
          | None => true
          end
      | None => true
      end
  | None => true
  end.

(** The invariants of the cache, of the descriptors and of the paths
    together. *)
Definition module_inv (st : module_state) : Prop :=
  cache_inv st /\ fd_inv st /\ path_inv st.

(** ** More example inputs *)

Definition ex_cached_hash : gmap string nat := default ∅ (domain_hash ex_cached).

(** An event raised from a source file of the module itself. *)
Definition ex_internal_node : switch_log_node_t :=
  {| node_file := Some "src/mod_logfile_domain.c";
     node_func := Some "write_domain_log"; node_line := 250;
     node_userdata := None; node_content := "domain=loop.example" |}.

(** Permission denied ([EACCES]) for the next call. *)
Definition eacces : os_reply :=
  {| reply_status := SWITCH_STATUS_ERRNO 13; reply_nbytes := 0 |}.

(** The module just loaded, in a directory it may not write to, and the
    world after the refused open. *)
Definition ex_denied : module_state :=
  set_world (set_oracle [eacces] (world ex_loaded)) ex_loaded.

Definition ex_denied_open : World :=
  snd (switch_file_open (domain_log_path (log_dir (world ex_denied)) "acme.com")
         false (world ex_denied)).

(** The world after the first open of a domain's file. *)
Definition ex_opened : World :=
  snd (switch_file_open (domain_log_path (log_dir (world ex_loaded)) "acme.com")
         false (world ex_loaded)).

(** One cached domain, every handle closed; its entry. *)
Definition ex_all_closed : module_state :=
  state_of (close_all_domain_logs ex_cached).

Definition ex_closed_entry : domain_cache_entry_t :=
  default (new_domain_entry "" "") (pool ex_all_closed !! 0%nat).

(** The disk is full for one write only. *)
Definition ex_transient : module_state :=
  set_world (set_oracle [enospc] (world ex_cached)) ex_cached.

(** After a direct write, and after an event. *)
Definition ex_written : module_state :=
  state_of (write_domain_log (Some "acme.com") (Some "line") ex_cached).

Definition ex_logged : module_state :=
  state_of (mod_logfile_domain_logger (Some (ex_node (Some ex_channel)))
              SWITCH_LOG_INFO ex_cached).

(** The process started in a directory it may not write to. *)
Definition ex_readonly : module_state := boot (set_oracle [eacces] ex_world).

(** Log rotation by another process: a line has been written for the
    cached domain, then its log was renamed. *)
Definition ex_log_path : string := "/var/log/freeswitch/domain_acme.com.log".

Definition ex_rotation : list op :=
  [OpLoad; OpGet (Some "acme.com");
   OpWrite (Some "acme.com") (Some ("first" +:+ nl));
   OpRename ex_log_path (ex_log_path +:+ ".1")].

Definition ex_rotated : module_state := state_of (run ex_rotation (boot ex_world)).

(** Another process has removed every file. *)
Definition ex_removal : list op :=
  [OpLoad; OpGet (Some "acme.com");
   OpWrite (Some "acme.com") (Some ("first" +:+ nl));
   OpExternal ∅ []].

Definition ex_removed : module_state := state_of (run ex_removal (boot ex_world)).

(** * Properties *)

(** ** Strings *)

Section Strings.

Lemma append_cons c (a b : string) : String c a +:+ b = String c (a +:+ b).
Proof. reflexivity. Qed.

Lemma append_assoc (a b c : string) : (a +:+ b) +:+ c = a +:+ (b +:+ c).
Proof.
  induction a as [|x a IH]; [reflexivity |].
  rewrite !append_cons. now rewrite IH.
Qed.


Lemma str_take_length n s :
  String.length (str_take n s) = Nat.min n (String.length s).
Proof.
  revert s; induction n as [|n IH]; intros [|c s]; simpl; try reflexivity.
  now rewrite IH.
Qed.

Lemma str_take_length_le n s : (String.length (str_take n s) <= n)%nat.
Proof. rewrite str_take_length. lia. Qed.

Lemma str_take_nil n : str_take n EmptyString = EmptyString.
Proof. now destruct n. Qed.

Lemma str_drop_drop n m s : str_drop m (str_drop n s) = str_drop (n + m) s.
Proof.
  revert s; induction n as [|n IH]; intros s; [reflexivity |].
  destruct s as [|c s]; simpl; [now destruct m | apply IH].
Qed.

Lemma strstr_unfold hay needle :
  strstr hay needle =
    if String.prefix needle hay then Some hay
    else match hay with
         | EmptyString => None
         | String _ hay' => strstr hay' needle
         end.
Proof. destruct hay; reflexivity. Qed.

Lemma occurs_at_0 needle msg : occurs_at needle msg 0 = String.prefix needle msg.
Proof. reflexivity. Qed.

Lemma occurs_at_S needle c msg i :
  occurs_at needle (String c msg) (S i) = occurs_at needle msg i.
Proof. reflexivity. Qed.

Lemma forallb_seq_S (f : nat -> bool) n :
  forallb f (seq 0 (S n)) = f 0%nat && forallb (fun j => f (S j)) (seq 0 n).
Proof.
  simpl. f_equal. rewrite <- seq_shift.
  induction (seq 0 n) as [|x l IH]; simpl; [reflexivity | now rewrite IH].
Qed.

(** [strstr] returns the first occurrence. *)
Lemma strstr_first needle msg i :
  first_at needle msg i = true -> strstr msg needle = Some (str_drop i msg).
Proof.
  unfold first_at. revert msg; induction i as [|i IH]; intros msg H;
    apply andb_prop in H as [Hocc Hmin]; rewrite strstr_unfold.
  - rewrite occurs_at_0 in Hocc. now rewrite Hocc.
  - rewrite forallb_seq_S in Hmin. apply andb_prop in Hmin as [H0 Hmin].
    rewrite occurs_at_0 in H0. apply negb_true_iff in H0. rewrite H0.
    destruct msg as [|c msg]; [discriminate |].
    apply IH. rewrite occurs_at_S in Hocc. rewrite Hocc. exact Hmin.
Qed.

(** [strstr] returns NULL when there is no occurrence. *)
Lemma strstr_absent needle msg :
  absent needle msg = true -> strstr msg needle = None.
Proof.
  unfold absent. induction msg as [|c msg IH]; intros H;
    rewrite forallb_seq_S in H; apply andb_prop in H as [H0 H];
    rewrite occurs_at_0 in H0; apply negb_true_iff in H0;
    rewrite strstr_unfold, H0; [reflexivity |].
  apply IH. exact H.
Qed.

Lemma find_marker_found msg rest :
  marker_found msg rest -> find_marker msg = Some rest.
Proof.
  unfold find_marker. intros [i Hi | i Hno Hi].
  - rewrite (strstr_first _ _ _ Hi). now rewrite str_drop_drop.
  - rewrite (strstr_absent _ _ Hno), (strstr_first _ _ _ Hi).
    now rewrite str_drop_drop.
Qed.

(** The copy loop takes the run of token characters, cut to what the
    buffer still holds. *)
Lemma copy_domain_span p i :
  (i <= 127)%nat ->
  copy_domain p i = str_take (127 - i) (span_while token_char p).
Proof.
  revert i; induction p as [|c p IH]; intros i Hi; simpl.
  - now rewrite str_take_nil.
  - fold (token_char c). destruct (token_char c); simpl.
    + unfold sizeof_domainbuf. destruct (Nat.ltb_spec (i + 1) 128) as [Hlt|Hge].
      * rewrite IH by lia. replace (127 - i)%nat with (S (127 - S i)) by lia.
        reflexivity.
      * now replace (127 - i)%nat with 0%nat by lia.
    + now rewrite str_take_nil.
Qed.

Lemma capture_span p :
  capture p = non_empty (str_take 127 (span_while token_char p)).
Proof.
  unfold capture. rewrite copy_domain_span by lia. rewrite Nat.sub_0_r.
  now destruct (str_take 127 (span_while token_char p)).
Qed.

Lemma capture_length p d : capture p = Some d -> (String.length d <= 127)%nat.
Proof.
  rewrite capture_span.
  destruct (str_take 127 (span_while token_char p)) eqn:E; [discriminate |].
  intros [= <-]. rewrite <- E. apply str_take_length_le.
Qed.

Lemma capture_not_empty p d : capture p = Some d -> zstr (Some d) = false.
Proof.
  rewrite capture_span.
  destruct (span_while token_char p) as [|c s] eqn:E; [discriminate |].
  simpl. intros [= <-]. simpl.
  destruct p as [|c' p]; [discriminate |]. simpl in E.
  destruct (token_char c') eqn:Ht; [| discriminate]. injection E as -> _.
  unfold token_char in Ht. apply andb_prop in Ht as [Ht _].
  now apply negb_true_iff in Ht.
Qed.

(** On characters that are printable or whitespace, the loop's test and
    the specification's notion of a key character agree. *)
Lemma token_char_printable c :
  isspace c = true \/ isprint c = true -> token_char c = key_char c.
Proof.
  destruct c as [[] [] [] [] [] [] [] []]; vm_compute; intuition congruence.
Qed.

Lemma span_token_key s :
  str_forall isprint (span_while (fun c => negb (isspace c)) s) = true ->
  span_while token_char s = span_while key_char s.
Proof.
  induction s as [|c s IH]; simpl; [reflexivity |].
  destruct (isspace c) eqn:Hs; simpl.
  - intros _. rewrite token_char_printable by auto.
    unfold key_char. now rewrite Hs.
  - intros H. apply andb_prop in H as [Hp H].
    rewrite token_char_printable by auto.
    unfold key_char. rewrite Hs, Hp. simpl. now rewrite IH.
Qed.

End Strings.

(** ** Domain extraction *)

Section Extraction.

Lemma extract_domain_not_empty channel d :
  extract_domain channel = Some d -> zstr (Some d) = false.
Proof.
  unfold extract_domain. destruct channel as [channel|]; [| discriminate].
  destruct (zstr (switch_channel_get_variable channel "domain_name")) eqn:E1; simpl.
  - destruct (zstr (switch_channel_get_variable channel "domain")) eqn:E2; simpl;
      [discriminate |].
    intros H. now rewrite H in E2.
  - intros H. now rewrite H in E1.
Qed.

Lemma extract_domain_from_msg_not_empty msg d :
  extract_domain_from_msg msg = Some d -> zstr (Some d) = false.
Proof.
  unfold extract_domain_from_msg. destruct msg as [msg|]; [| discriminate].
  destruct (find_marker msg); [apply capture_not_empty | discriminate].
Qed.

Lemma resolve_domain_not_empty node rendered_msg d :
  resolve_domain node rendered_msg = Some d -> zstr (Some d) = false.
Proof.
  unfold resolve_domain.
  set (domain := match node_channel node with
                 | Some channel => extract_domain (Some channel)
                 | None => None
                 end).
  assert (Hd : forall d, domain = Some d -> zstr (Some d) = false).
  { subst domain. destruct (node_channel node); [| discriminate].
    apply extract_domain_not_empty. }
  destruct (zstr domain && negb (zstr (Some rendered_msg))); [| apply Hd].
  destruct (extract_domain_from_msg (Some rendered_msg)) eqn:E; [| apply Hd].
  intros [= <-]. eapply extract_domain_from_msg_not_empty, E.
Qed.




(** When every character between the marker and the first whitespace is
    printable, the captured key is the run of non-whitespace printable
    characters that follows the marker, cut to its first 127 characters;
    an empty run gives NULL. *)
Lemma text_capture_is_capped_key_run (msg rest : string) :
  marker_found msg rest ->
  str_forall isprint (span_while (fun c => negb (isspace c)) rest) = true ->
  extract_domain_from_msg (Some msg)
  = non_empty (str_take 127 (span_while key_char rest)).
Proof.
  intros Hm Hp. unfold extract_domain_from_msg.
  rewrite (find_marker_found _ _ Hm), capture_span.
  now rewrite (span_token_key _ Hp).
Qed.

Lemma non_empty_inj (a b : string) : non_empty a = non_empty b -> a = b.
Proof. destruct a, b; simpl; congruence. Qed.

(** Where the run the copy loop takes holds a character that is not
    printable, the run of printable characters ends before it. *)
Lemma key_run_shorter n s :
  str_forall isprint (str_take n (span_while token_char s)) = false ->
  (String.length (span_while key_char s)
   < String.length (str_take n (span_while token_char s)))%nat.
Proof.
  revert n. induction s as [|c s IH]; intros n; simpl.
  { destruct n; discriminate. }
  destruct (token_char c) eqn:Ht; [| destruct n; discriminate].
  destruct n as [|n]; [discriminate |]. simpl.
  destruct (isprint c) eqn:Hp; simpl.
  - rewrite <- (token_char_printable c) by auto. rewrite Ht. simpl.
    intros H. apply IH in H. lia.
  - intros _. unfold key_char. rewrite Hp, andb_false_r. simpl. lia.
Qed.

(** C6. The copy loop does not test [isprint].  The captured key is the
    run of characters after the marker up to the first whitespace or NUL,
    cut to its first 127 characters, whether they are printable or not.
    Where that run holds a character that is not printable, the key goes
    on past it: it is longer than the run of non-whitespace printable
    characters, and is not what the specification and the comment of
    the loop say. *)
Theorem capture_takes_non_printable (msg rest : string) :
  marker_found msg rest ->
  extract_domain_from_msg (Some msg)
  = non_empty (str_take 127 (span_while token_char rest)) /\
  (str_forall isprint (str_take 127 (span_while token_char rest)) = false ->
   extract_domain_from_msg (Some msg)
   = Some (str_take 127 (span_while token_char rest)) /\
   (String.length (span_while key_char rest)
    < String.length (str_take 127 (span_while token_char rest)))%nat /\
   extract_domain_from_msg (Some msg)
   <> non_empty (str_take 127 (span_while key_char rest)) /\
   extract_domain_from_msg (Some msg) <> non_empty (span_while key_char rest)).
Proof.
  intros Hm.
  assert (E : extract_domain_from_msg (Some msg)
              = non_empty (str_take 127 (span_while token_char rest))).
  { unfold extract_domain_from_msg.
    now rewrite (find_marker_found _ _ Hm), capture_span. }
  split; [exact E |]. intros Hnp.
  pose proof (key_run_shorter _ _ Hnp) as Hlt.
  split; [| split; [exact Hlt | split]].
  - rewrite E. destruct (str_take 127 (span_while token_char rest));
      [discriminate | reflexivity].
  - rewrite E. intros H. apply non_empty_inj in H.
    apply (f_equal String.length) in H.
    pose proof (str_take_length_le 127 (span_while key_char rest)).
    rewrite H in Hlt. rewrite str_take_length in Hlt. lia.
  - rewrite E. intros H. apply non_empty_inj in H.
    rewrite H in Hlt. lia.
Qed.

End Extraction.

(** ** Frames: what a step leaves unchanged *)

Section Frames.

Lemma fds_close fd w : fds (switch_file_close fd w) = delete fd (fds w).
Proof. unfold fds. simpl. apply fmap_delete. Qed.

Lemma fds_lookup w fd :
  fds w !! fd = fst <$> fd_table w !! fd.
Proof. unfold fds. apply lookup_fmap. Qed.

Lemma fst_fmap_same (g : string * location -> string * location)
    (t : gmap nat (string * location)) :
  (forall pl, (g pl).1 = pl.1) -> fst <$> (g <$> t) = fst <$> t.
Proof.
  intros Hg. rewrite <- map_fmap_compose. apply map_fmap_ext.
  intros k pl _. apply Hg.
Qed.

Lemma fst_insert_same (t : gmap nat (string * location)) fd pl l :
  t !! fd = Some pl -> fst <$> <[fd := (pl.1, l)]> t = fst <$> t.
Proof.
  intros H. rewrite fmap_insert. apply insert_id.
  now rewrite lookup_fmap, H.
Qed.

Lemma unlink_missing_fst f old pl : (unlink_missing f old pl).1 = pl.1.
Proof.
  unfold unlink_missing. destruct (pl.2); [destruct (f !! _) |]; reflexivity.
Qed.

Lemma rename_location_fst src dst old pl :
  (rename_location src dst old pl).1 = pl.1.
Proof.
  unfold rename_location.
  destruct (pl.2); [destruct (String.eqb _ src); [| destruct (String.eqb _ dst)] |];
    reflexivity.
Qed.

(** What other processes do touches neither the paths the descriptors
    of the module were opened with, nor the directory of the logs. *)
Lemma external_change_log_dir f o w : log_dir (external_change f o w) = log_dir w.
Proof. reflexivity. Qed.

Lemma external_change_fds f o w : fds (external_change f o w) = fds w.
Proof. unfold fds. simpl. apply fst_fmap_same, unlink_missing_fst. Qed.

Lemma external_change_next_fd f o w : next_fd (external_change f o w) = next_fd w.
Proof. reflexivity. Qed.

Lemma external_rename_log_dir src dst w :
  log_dir (external_rename src dst w) = log_dir w.
Proof.
  unfold external_rename.
  destruct (files w !! src); [destruct (String.eqb src dst) |]; reflexivity.
Qed.

Lemma external_rename_fds src dst w : fds (external_rename src dst w) = fds w.
Proof.
  unfold external_rename.
  destruct (files w !! src); [destruct (String.eqb src dst) |]; try reflexivity.
  unfold fds. simpl. apply fst_fmap_same, rename_location_fst.
Qed.

Lemma external_rename_next_fd src dst w :
  next_fd (external_rename src dst w) = next_fd w.
Proof.
  unfold external_rename.
  destruct (files w !! src); [destruct (String.eqb src dst) |]; reflexivity.
Qed.

Lemma pool_le_refl pl : pool_le pl pl.
Proof. intros p e H. eauto. Qed.

Lemma pool_le_trans pl1 pl2 pl3 :
  pool_le pl1 pl2 -> pool_le pl2 pl3 -> pool_le pl1 pl3.
Proof.
  intros H12 H23 p e H. destruct (H12 _ _ H) as (e2 & H2 & E2).
  destruct (H23 _ _ H2) as (e3 & H3 & E3). exists e3. split; congruence.
Qed.

Lemma pool_le_app pl l : pool_le pl (pl ++ l).
Proof.
  intros p e H. exists e. split; [| reflexivity].
  rewrite lookup_app_l; [exact H |]. eapply lookup_lt_Some, H.
Qed.

Lemma pool_le_insert (pl : list domain_cache_entry_t) p e e' :
  pl !! p = Some e -> entry_static e' = entry_static e ->
  pool_le pl (<[p := e']> pl).
Proof.
  intros Hp He q eq Hq. destruct (decide (p = q)) as [<-|Hne].
  - exists e'. rewrite list_lookup_insert_eq by (eapply lookup_lt_Some, Hp).
    split; congruence.
  - exists eq. now rewrite list_lookup_insert_ne.
Qed.

Lemma same_cache_refl st : same_cache st st.
Proof. repeat split. apply pool_le_refl. Qed.

Lemma same_cache_trans st1 st2 st3 :
  same_cache st1 st2 -> same_cache st2 st3 -> same_cache st1 st3.
Proof.
  intros (A1 & A2 & A3 & A4 & A5 & A6 & A7) (B1 & B2 & B3 & B4 & B5 & B6 & B7).
  repeat split; try congruence. eapply pool_le_trans; eauto.
Qed.

Lemma same_cache_world st w :
  log_dir w = log_dir (world st) -> same_cache st (set_world w st).
Proof. intros H. repeat split; [exact H | apply pool_le_refl]. Qed.

Lemma same_cache_pool st pl :
  pool_le (pool st) pl -> same_cache st (set_pool pl st).
Proof. intros H. repeat split. exact H. Qed.

Lemma same_cache_printf st level msg : same_cache st (switch_log_printf level msg st).
Proof. apply same_cache_world. reflexivity. Qed.

Lemma open_log_dir path trunc w r w' :
  switch_file_open path trunc w = (r, w') -> log_dir w' = log_dir w.
Proof.
  unfold switch_file_open, open_ok.
  destruct (oracle w) as [|rep rest];
    [| destruct (is_success (reply_status rep))];
    simpl; now intros [= <- <-].
Qed.

Lemma append_at_log_dir fd pl bytes w : log_dir (append_at fd pl bytes w) = log_dir w.
Proof. unfold append_at. now destruct (pl.2). Qed.

Lemma write_log_dir fd data n w r w' :
  switch_file_write fd data n w = (r, w') -> log_dir w' = log_dir w.
Proof.
  unfold switch_file_write. destruct (fd_table w !! fd); [| now intros [= <- <-]].
  destruct (is_success _); intros [= <- <-]; [now rewrite append_at_log_dir | reflexivity].
Qed.

Lemma cache_inv_frame st st' :
  cache_inv st ->
  domain_hash st' = domain_hash st ->
  globals_mutex st' = globals_mutex st ->
  globals_cache_entries st' = globals_cache_entries st ->
  log_dir (world st') = log_dir (world st) ->
  pool_le (pool st) (pool st') ->
  cache_inv st'.
Proof.
  intros [Hb Hl He Hi] A1 A2 A3 A6 A7.
  split; rewrite ?A1, ?A2, ?A3, ?A6; auto.
  intros h d p Hh Hd. destruct (He _ _ _ Hh Hd) as (e & Hp & Hs).
  destruct (A7 _ _ Hp) as (e' & Hp' & Hs'). exists e'. split; congruence.
Qed.

Lemma cache_inv_same st st' : cache_inv st -> same_cache st st' -> cache_inv st'.
Proof.
  intros Hinv (A1 & A2 & A3 & A4 & A5 & A6 & A7).
  now apply (cache_inv_frame st).
Qed.

End Frames.

(** ** Opening and writing a domain file *)

Section FileEntry.

Lemma open_domain_logfile_failure entry e st stat w :
  pool st !! entry = Some e ->
  switch_file_open (logfile_path e) false (world st) = (inr stat, w) ->
  exists msg,
    open_domain_logfile entry st
    = Ret SWITCH_STATUS_FALSE
        (switch_log_printf SWITCH_LOG_ERROR msg (set_world w st)).
Proof.
  intros Hp Ho. unfold open_domain_logfile. rewrite Hp, Ho. eauto.
Qed.

Lemma open_domain_logfile_success entry e st afd w :
  pool st !! entry = Some e ->
  switch_file_open (logfile_path e) false (world st) = (inl afd, w) ->
  open_domain_logfile entry st
  = Ret SWITCH_STATUS_SUCCESS
      (set_pool (<[entry := set_log_size (switch_file_get_size afd w)
                              (set_log_file (Some afd) e)]> (pool st))
         (set_world w st)).
Proof.
  intros Hp Ho. unfold open_domain_logfile. now rewrite Hp, Ho.
Qed.

(** The open never faults on an allocated entry; it keeps the cache, and
    its status tells whether the entry now has a handle. *)
Lemma open_domain_logfile_total entry e st :
  pool st !! entry = Some e ->
  exists status st',
    open_domain_logfile entry st = Ret status st' /\
    same_cache st st' /\
    ((status = SWITCH_STATUS_SUCCESS /\
      exists afd, pool st' !! entry
                  = Some (set_log_size (switch_file_get_size afd (world st'))
                            (set_log_file (Some afd) e))) \/
     (status = SWITCH_STATUS_FALSE /\ pool st' = pool st)).
Proof.
  intros Hp.
  destruct (switch_file_open (logfile_path e) false (world st)) as [[afd|stat] w] eqn:Ho.
  - rewrite (open_domain_logfile_success _ _ _ _ _ Hp Ho).
    do 2 eexists. split; [reflexivity |]. split.
    + eapply same_cache_trans; [apply same_cache_world, (open_log_dir _ _ _ _ _ Ho) |].
      apply same_cache_pool. simpl. eapply pool_le_insert; [exact Hp | reflexivity].
    + left. split; [reflexivity |]. exists afd. simpl.
      apply list_lookup_insert_eq. eapply lookup_lt_Some, Hp.
  - destruct (open_domain_logfile_failure _ _ _ _ _ Hp Ho) as [msg ->].
    do 2 eexists. split; [reflexivity |]. split.
    + eapply same_cache_trans; [apply same_cache_world, (open_log_dir _ _ _ _ _ Ho) |].
      apply same_cache_printf.
    + right. split; reflexivity.
Qed.

Lemma set_log_file_None_id e : log_file e = None -> set_log_file None e = e.
Proof. destruct e; simpl; now intros ->. Qed.

Lemma set_world_id st : set_world (world st) st = st.
Proof. now destruct st. Qed.

Lemma set_pool_id st : set_pool (pool st) st = st.
Proof. now destruct st. Qed.

Lemma write_entry_first_ok entry e data st fd n w1 :
  pool st !! entry = Some e -> file_lock e = true ->
  log_file e = Some fd ->
  switch_file_write fd data (strlen data) (world st)
  = ((SWITCH_STATUS_SUCCESS, n), w1) ->
  write_entry entry data st
  = Ret SWITCH_STATUS_SUCCESS
      (set_pool (<[entry := set_log_size (wrap_size (log_size e + n)) e]> (pool st))
         (set_world w1 st)).
Proof.
  intros Hp Hl Hf Hw. unfold write_entry. now rewrite Hp, Hl, Hf, Hw.
Qed.

Lemma write_entry_reopen entry e data st w_c :
  pool st !! entry = Some e -> file_lock e = true ->
  first_attempt_failed e data (world st) = Some w_c ->
  write_entry entry data st
  = reopen_and_write entry data (closed_state entry e w_c st).
Proof.
  intros Hp Hl. unfold write_entry, first_attempt_failed, closed_state.
  rewrite Hp, Hl. simpl. destruct (log_file e) as [fd|] eqn:Hf.
  - destruct (switch_file_write fd data (strlen data) (world st))
      as [[[] n] w1]; [discriminate | |]; now intros [= <-].
  - intros [= <-]. rewrite set_log_file_None_id by exact Hf.
    rewrite list_insert_id by exact Hp. now rewrite set_world_id, set_pool_id.
Qed.

Lemma reopen_and_write_failure entry e1 data st1 stat w :
  pool st1 !! entry = Some e1 ->
  switch_file_open (logfile_path e1) false (world st1) = (inr stat, w) ->
  exists msg,
    reopen_and_write entry data st1
    = Ret SWITCH_STATUS_FALSE
        (switch_log_printf SWITCH_LOG_ERROR msg (set_world w st1)).
Proof.
  intros Hp Ho. unfold reopen_and_write.
  destruct (open_domain_logfile_failure _ _ _ _ _ Hp Ho) as [msg ->]. eauto.
Qed.

Lemma reopen_and_write_success entry e1 data st1 fd2 w2 s2 n2 w3 :
  pool st1 !! entry = Some e1 ->
  switch_file_open (logfile_path e1) false (world st1) = (inl fd2, w2) ->
  switch_file_write fd2 data (strlen data) w2 = ((s2, n2), w3) ->
  reopen_and_write entry data st1
  = Ret SWITCH_STATUS_SUCCESS
      (set_pool
         (<[entry := set_log_size (wrap_size (switch_file_get_size fd2 w2 + n2))
                       (set_log_file (Some fd2) e1)]> (pool st1))
         (set_world w3 st1)).
Proof.
  intros Hp Ho Hw. unfold reopen_and_write.
  rewrite (open_domain_logfile_success _ _ _ _ _ Hp Ho). simpl.
  rewrite list_lookup_insert_eq by (eapply lookup_lt_Some, Hp). simpl.
  rewrite Hw. unfold set_pool, set_world. simpl.
  now rewrite list_insert_insert_eq.
Qed.

(** The three courses of [write_entry]. *)
Lemma write_entry_cases entry e data st :
  pool st !! entry = Some e -> file_lock e = true ->
  (exists fd n w1,
      log_file e = Some fd /\
      switch_file_write fd data (strlen data) (world st)
      = ((SWITCH_STATUS_SUCCESS, n), w1) /\
      write_entry entry data st
      = Ret SWITCH_STATUS_SUCCESS
          (set_pool (<[entry := set_log_size (wrap_size (log_size e + n)) e]> (pool st))
             (set_world w1 st))) \/
  (exists w_c stat w msg,
      first_attempt_failed e data (world st) = Some w_c /\
      switch_file_open (logfile_path e) false w_c = (inr stat, w) /\
      write_entry entry data st
      = Ret SWITCH_STATUS_FALSE
          (switch_log_printf SWITCH_LOG_ERROR msg
             (set_world w (closed_state entry e w_c st)))) \/
  (exists w_c fd2 w2 s2 n2 w3,
      first_attempt_failed e data (world st) = Some w_c /\
      switch_file_open (logfile_path e) false w_c = (inl fd2, w2) /\
      switch_file_write fd2 data (strlen data) w2 = ((s2, n2), w3) /\
      write_entry entry data st
      = Ret SWITCH_STATUS_SUCCESS
          (set_pool
             (<[entry := set_log_size (wrap_size (switch_file_get_size fd2 w2 + n2))
                           (set_log_file (Some fd2) e)]> (pool st))
             (set_world w3 st))).
Proof.
  intros Hp Hl.
  destruct (first_attempt_failed e data (world st)) as [w_c|] eqn:Hfirst.
  - right. rewrite (write_entry_reopen _ _ _ _ _ Hp Hl Hfirst).
    assert (Hp1 : pool (closed_state entry e w_c st) !! entry
                  = Some (set_log_file None e)).
    { simpl. apply list_lookup_insert_eq. eapply lookup_lt_Some, Hp. }
    destruct (switch_file_open (logfile_path e) false w_c) as [[fd2|stat] w2] eqn:Ho.
    + right.
      destruct (switch_file_write fd2 data (strlen data) w2) as [[s2 n2] w3] eqn:Hw.
      exists w_c, fd2, w2, s2, n2, w3. repeat split; try assumption.
      rewrite (reopen_and_write_success _ _ _ _ _ _ _ _ _ Hp1 Ho Hw).
      unfold closed_state, set_pool, set_world. simpl.
      now rewrite list_insert_insert_eq.
    + left.
      destruct (reopen_and_write_failure _ _ data _ _ _ Hp1 Ho) as [msg Hr].
      exists w_c, stat, w2, msg. repeat split; assumption.
  - left. unfold first_attempt_failed in Hfirst.
    destruct (log_file e) as [fd|] eqn:Hf; [| discriminate].
    destruct (switch_file_write fd data (strlen data) (world st))
      as [[[] n] w1] eqn:Hw; try discriminate.
    exists fd, n, w1. split; [reflexivity |]. split; [exact Hw |].
    now apply (write_entry_first_ok _ _ _ _ fd).
Qed.

End FileEntry.

(** ** The cache: lookup, admission, creation *)

Section Cache.

Lemma first_attempt_failed_log_dir e data w w_c :
  first_attempt_failed e data w = Some w_c -> log_dir w_c = log_dir w.
Proof.
  unfold first_attempt_failed. destruct (log_file e) as [fd|]; [| now intros [= <-]].
  destruct (switch_file_write fd data (strlen data) w) as [[s n] w1] eqn:Hw.
  apply write_log_dir in Hw. destruct s; [discriminate | |]; now intros [= <-].
Qed.

(** A write never faults on an allocated, locked entry, and keeps the
    cache. *)
Lemma write_entry_total entry e data st :
  pool st !! entry = Some e -> file_lock e = true ->
  exists status st', write_entry entry data st = Ret status st' /\ same_cache st st'.
Proof.
  intros Hp Hl.
  destruct (write_entry_cases entry e data st Hp Hl)
    as [(fd & n & w1 & Hf & Hw & ->)
       |[(w_c & stat & w & msg & Hfirst & Ho & ->)
        |(w_c & fd2 & w2 & s2 & n2 & w3 & Hfirst & Ho & Hw & ->)]];
    do 2 eexists; (split; [reflexivity |]).
  - eapply same_cache_trans;
      [apply same_cache_world, (write_log_dir _ _ _ _ _ _ Hw) |].
    apply same_cache_pool. simpl. eapply pool_le_insert; [exact Hp | reflexivity].
  - apply first_attempt_failed_log_dir in Hfirst. apply open_log_dir in Ho.
    repeat split; simpl; try congruence.
    eapply pool_le_insert; [exact Hp | reflexivity].
  - apply first_attempt_failed_log_dir in Hfirst. apply open_log_dir in Ho.
    apply write_log_dir in Hw.
    repeat split; simpl; try congruence.
    eapply pool_le_insert; [exact Hp | reflexivity].
Qed.

Lemma same_cache_grows st st' : same_cache st st' -> cache_grows st st'.
Proof.
  intros (A1 & A2 & A3 & A4 & A5 & A6 & A7). repeat split; auto.
  rewrite A1. destruct (domain_hash st) as [h|]; [| reflexivity].
  exists h. split; reflexivity.
Qed.

Lemma cache_grows_refl st : cache_grows st st.
Proof. apply same_cache_grows, same_cache_refl. Qed.

Lemma cache_grows_trans st1 st2 st3 :
  cache_grows st1 st2 -> cache_grows st2 st3 -> cache_grows st1 st3.
Proof.
  intros (A1 & A2 & A3 & A4 & A5 & A6) (B1 & B2 & B3 & B4 & B5 & B6).
  repeat split; try congruence; [eapply pool_le_trans; eauto |].
  destruct (domain_hash st1) as [h1|].
  - destruct A6 as (h2 & Hh2 & Hsub). rewrite Hh2 in B6.
    destruct B6 as (h3 & Hh3 & Hsub'). exists h3. split; [exact Hh3 |].
    etrans; eauto.
  - now rewrite A6 in B6.
Qed.

Lemma get_domain_entry_null st : get_domain_entry None st = Ret None st.
Proof. reflexivity. Qed.

Lemma get_domain_entry_empty d st :
  zstr (Some d) = true -> get_domain_entry (Some d) st = Ret None st.
Proof. intros H. unfold get_domain_entry. now rewrite H. Qed.

Lemma get_domain_entry_found d st h p :
  zstr (Some d) = false -> globals_mutex st = true ->
  domain_hash st = Some h -> h !! d = Some p ->
  get_domain_entry (Some d) st = Ret (Some p) st.
Proof.
  intros Hz Hm Hh Hd. unfold get_domain_entry. now rewrite Hz, Hm, Hh, Hd.
Qed.

Lemma get_domain_entry_full d st h :
  zstr (Some d) = false -> globals_mutex st = true ->
  domain_hash st = Some h -> h !! d = None ->
  MAX_DOMAIN_CACHE_SIZE <= globals_cache_entries st ->
  get_domain_entry (Some d) st
  = Ret None (switch_log_printf SWITCH_LOG_WARNING cache_full_warning st).
Proof.
  intros Hz Hm Hh Hd Hfull. unfold get_domain_entry.
  rewrite Hz, Hm, Hh, Hd. simpl.
  destruct (Z.leb_spec MAX_DOMAIN_CACHE_SIZE (globals_cache_entries st)); [| lia].
  reflexivity.
Qed.

(** Below the limit, an unseen domain is either refused because its file
    does not open, with the cache as it was, or cached under a new entry
    that holds an open handle. *)
Lemma get_domain_entry_create d st h :
  zstr (Some d) = false -> globals_mutex st = true ->
  domain_hash st = Some h -> h !! d = None ->
  globals_cache_entries st < MAX_DOMAIN_CACHE_SIZE ->
  (exists st', get_domain_entry (Some d) st = Ret None st' /\ same_cache st st') \/
  (exists st' e' afd,
      get_domain_entry (Some d) st = Ret (Some (length (pool st))) st' /\
      domain_hash st' = Some (<[d := length (pool st)]> h) /\
      globals_cache_entries st' = globals_cache_entries st + 1 /\
      cache_grows st st' /\
      pool st' !! length (pool st) = Some e' /\
      entry_static e' = entry_static (new_domain_entry (log_dir (world st)) d) /\
      log_file e' = Some afd).
Proof.
  intros Hz Hm Hh Hd Hlt. unfold get_domain_entry.
  rewrite Hz, Hm, Hh, Hd. simpl.
  destruct (Z.leb_spec MAX_DOMAIN_CACHE_SIZE (globals_cache_entries st)); [lia |].
  set (new := new_domain_entry (log_dir (world st)) d).
  set (st1 := set_pool (pool st ++ [new]) st).
  assert (Hp1 : pool st1 !! length (pool st) = Some new).
  { simpl. rewrite lookup_app_r by lia. now rewrite Nat.sub_diag. }
  assert (H01 : same_cache st st1) by apply same_cache_pool, pool_le_app.
  destruct (open_domain_logfile_total _ _ _ Hp1)
    as (status & st2 & -> & H12 & [[-> [afd Hp2]] | [-> Hpool]]).
  - right. eexists.
    exists (set_log_size (switch_file_get_size afd (world st2))
              (set_log_file (Some afd) new)), afd.
    split; [reflexivity |].
    pose proof (same_cache_trans _ _ _ H01 H12) as (A1 & A2 & A3 & A4 & A5 & A6 & A7).
    unfold cache_grows, switch_log_printf. cbn.
    rewrite Hh.
    split; [reflexivity |]. split; [now rewrite A3 |].
    split; [| split; [exact Hp2 | split; reflexivity]].
    repeat split; try assumption.
    eexists. split; [reflexivity |]. now apply insert_subseteq.
  - left. eexists. split; [reflexivity |]. eapply same_cache_trans; eauto.
Qed.

Lemma cache_inv_created st st' h d e' :
  cache_inv st -> domain_hash st = Some h -> h !! d = None ->
  globals_cache_entries st < MAX_DOMAIN_CACHE_SIZE ->
  domain_hash st' = Some (<[d := length (pool st)]> h) ->
  globals_cache_entries st' = globals_cache_entries st + 1 ->
  cache_grows st st' ->
  pool st' !! length (pool st) = Some e' ->
  entry_static e' = entry_static (new_domain_entry (log_dir (world st)) d) ->
  cache_inv st'.
Proof.
  intros [Hb Hl He Hi] Hh Hd Hlt Hh' Hc' (G1 & _ & _ & G4 & G5 & _) Hp' Hs'.
  destruct (Hl _ Hh) as [Hm Hsize].
  assert (Hnew : forall d0, h !! d0 <> Some (length (pool st))).
  { intros d0 Hd0. destruct (He _ _ _ Hh Hd0) as (e0 & Hp0 & _).
    apply lookup_lt_Some in Hp0. lia. }
  split.
  - lia.
  - intros h' Hh''. rewrite Hh' in Hh''. injection Hh'' as <-.
    split; [congruence |].
    rewrite map_size_insert_None by exact Hd. lia.
  - intros h' d0 p Hh'' Hd0. rewrite Hh' in Hh''. injection Hh'' as <-.
    rewrite G4. destruct (decide (d = d0)) as [<-|Hne].
    + rewrite lookup_insert_eq in Hd0. injection Hd0 as <-. eauto.
    + rewrite lookup_insert_ne in Hd0 by exact Hne.
      destruct (He _ _ _ Hh Hd0) as (e0 & Hp0 & Hs0).
      destruct (G5 _ _ Hp0) as (e0' & Hp0' & Hs0'). exists e0'.
      split; congruence.
  - intros h' d1 d2 p Hh'' H1 H2. rewrite Hh' in Hh''. injection Hh'' as <-.
    destruct (decide (d = d1)) as [<-|Hne1], (decide (d = d2)) as [<-|Hne2];
      [reflexivity | | |].
    + rewrite lookup_insert_eq in H1. injection H1 as <-.
      rewrite lookup_insert_ne in H2 by exact Hne2. now destruct (Hnew d2).
    + rewrite lookup_insert_eq in H2. injection H2 as <-.
      rewrite lookup_insert_ne in H1 by exact Hne1. now destruct (Hnew d1).
    + rewrite lookup_insert_ne in H1, H2 by assumption. eauto.
Qed.

(** [get_domain_entry] on a loaded module: it returns, the cache only
    grows, the invariant is kept, and a returned entry is the one the
    table now holds for the domain. *)
Lemma get_domain_entry_spec domain st :
  loaded st ->
  exists r st',
    get_domain_entry domain st = Ret r st' /\
    cache_grows st st' /\
    (cache_inv st -> cache_inv st') /\
    (forall p, r = Some p ->
       exists d h', domain = Some d /\ zstr (Some d) = false /\
         domain_hash st' = Some h' /\ h' !! d = Some p).
Proof.
  intros [Hm [h Hh]]. destruct domain as [d|].
  2:{ exists None, st. rewrite get_domain_entry_null.
      split; [reflexivity |]. split; [apply cache_grows_refl |].
      split; [auto |]. intros p [=]. }
  destruct (zstr (Some d)) eqn:Hz.
  { exists None, st. rewrite (get_domain_entry_empty _ _ Hz).
    split; [reflexivity |]. split; [apply cache_grows_refl |].
    split; [auto |]. intros p [=]. }
  destruct (h !! d) as [p|] eqn:Hd.
  { exists (Some p), st. rewrite (get_domain_entry_found _ _ _ _ Hz Hm Hh Hd).
    split; [reflexivity |]. split; [apply cache_grows_refl |]. split; [auto |].
    intros p' [= <-]. exists d, h. auto. }
  destruct (Z.le_gt_cases MAX_DOMAIN_CACHE_SIZE (globals_cache_entries st)) as [Hfull|Hlt].
  { eexists None, _. rewrite (get_domain_entry_full _ _ _ Hz Hm Hh Hd Hfull).
    split; [reflexivity |].
    split; [apply same_cache_grows, same_cache_printf |].
    split; [intros Hinv; eapply cache_inv_same, same_cache_printf; exact Hinv |].
    intros p [=]. }
  destruct (get_domain_entry_create _ _ _ Hz Hm Hh Hd Hlt)
    as [(st' & -> & Hsame)
       |(st' & e' & afd & -> & Hh' & Hc' & Hgrow & Hp' & Hs' & Hf')].
  - exists None, st'. split; [reflexivity |].
    split; [now apply same_cache_grows |].
    split; [intros Hinv; eapply cache_inv_same; eauto |]. intros p [=].
  - exists (Some (length (pool st))), st'. split; [reflexivity |].
    split; [exact Hgrow |].
    split; [intros Hinv; eapply cache_inv_created; eauto |].
    intros p [= <-]. exists d. eexists. repeat split; eauto.
    apply lookup_insert_eq.
Qed.

(** [write_domain_log] on a loaded module in a state of the invariant. *)
Lemma write_domain_log_spec domain log_data st :
  loaded st -> cache_inv st ->
  exists status st',
    write_domain_log domain log_data st = Ret status st' /\
    cache_grows st st' /\ cache_inv st'.
Proof.
  intros Hl Hinv. unfold write_domain_log.
  destruct domain as [d|]; [| exists SWITCH_STATUS_FALSE, st;
    auto using cache_grows_refl].
  destruct log_data as [data|]; [| exists SWITCH_STATUS_FALSE, st;
    auto using cache_grows_refl].
  unfold bind.
  destruct (get_domain_entry_spec (Some d) st Hl)
    as (r & st1 & -> & Hgrow & Hinv1 & Hr).
  specialize (Hinv1 Hinv). destruct r as [p|].
  - destruct (Hr p eq_refl) as (d' & h' & [= <-] & Hz & Hh' & Hd').
    destruct (inv_entries _ Hinv1 _ _ _ Hh' Hd') as (e & Hp & Hs).
    assert (Hlock : file_lock e = true).
    { unfold entry_static in Hs. now injection Hs. }
    destruct (write_entry_total p e data st1 Hp Hlock) as (status & st2 & -> & Hsame).
    exists status, st2. split; [reflexivity |]. split.
    + eapply cache_grows_trans; [exact Hgrow | now apply same_cache_grows].
    + eapply cache_inv_same; eauto.
  - eexists _, _. split; [reflexivity |]. split.
    + eapply cache_grows_trans; [exact Hgrow |].
      apply same_cache_grows, same_cache_printf.
    + eapply cache_inv_same; [exact Hinv1 | apply same_cache_printf].
Qed.

Lemma mod_logfile_domain_logger_spec node level st :
  loaded st -> cache_inv st ->
  exists st',
    mod_logfile_domain_logger node level st = Ret SWITCH_STATUS_SUCCESS st' /\
    cache_grows st st' /\ cache_inv st'.
Proof.
  intros Hl Hinv. unfold mod_logfile_domain_logger.
  destruct node as [node|]; [| exists st; auto using cache_grows_refl].
  destruct (is_internal node); [exists st; auto using cache_grows_refl |].
  destruct (negb (zstr _)); [| exists st; auto using cache_grows_refl].
  unfold bind.
  match goal with
  | |- context [write_domain_log ?d ?l st] =>
      destruct (write_domain_log_spec d l st Hl Hinv)
        as (status & st' & -> & Hgrow & Hinv')
  end.
  exists st'. auto.
Qed.

(** *** Calls that return, from any state *)

Lemma write_entry_ret entry data st status st' :
  write_entry entry data st = Ret status st' -> same_cache st st'.
Proof.
  intros H. destruct (pool st !! entry) as [e|] eqn:Hp.
  - destruct (file_lock e) eqn:Hl.
    + destruct (write_entry_total entry e data st Hp Hl) as (s & st2 & E & Hs).
      congruence.
    + unfold write_entry in H. rewrite Hp, Hl in H. discriminate.
  - unfold write_entry in H. rewrite Hp in H. discriminate.
Qed.

Lemma get_domain_entry_ret domain st r st' :
  get_domain_entry domain st = Ret r st' ->
  cache_grows st st' /\
  (cache_inv st -> cache_inv st') /\
  (forall p, r = Some p ->
     exists d h', domain = Some d /\ zstr (Some d) = false /\
       domain_hash st' = Some h' /\ h' !! d = Some p).
Proof.
  intros H.
  destruct (globals_mutex st) eqn:Hm, (domain_hash st) as [h|] eqn:Hh.
  { destruct (get_domain_entry_spec domain st) as (r2 & st2 & E & Hspec).
    - split; eauto.
    - rewrite E in H. now injection H as <- <-. }
  all: unfold get_domain_entry in H; destruct domain as [d|];
    [destruct (zstr (Some d)); rewrite ?Hm, ?Hh in H; simpl in H |];
    try discriminate; injection H as <- <-;
    (split; [apply cache_grows_refl | split; [auto | intros p [=]]]).
Qed.

Lemma write_domain_log_ret domain log_data st status st' :
  write_domain_log domain log_data st = Ret status st' ->
  cache_grows st st' /\ (cache_inv st -> cache_inv st').
Proof.
  unfold write_domain_log.
  destruct domain as [d|];
    [| intros [= <- <-]; split; [apply cache_grows_refl | auto]].
  destruct log_data as [data|];
    [| intros [= <- <-]; split; [apply cache_grows_refl | auto]].
  unfold bind. destruct (get_domain_entry (Some d) st) as [r st1|] eqn:Hget;
    [| discriminate].
  apply get_domain_entry_ret in Hget as (Hgrow & Hinv & _).
  destruct r as [p|].
  - intros Hw. apply write_entry_ret in Hw. split.
    + eapply cache_grows_trans; [exact Hgrow | now apply same_cache_grows].
    + intros Hi. eapply cache_inv_same; [apply Hinv, Hi | exact Hw].
  - intros [= <- <-]. split.
    + eapply cache_grows_trans; [exact Hgrow |].
      apply same_cache_grows, same_cache_printf.
    + intros Hi. eapply cache_inv_same; [apply Hinv, Hi | apply same_cache_printf].
Qed.

Lemma mod_logfile_domain_logger_ret node level st status st' :
  mod_logfile_domain_logger node level st = Ret status st' ->
  status = SWITCH_STATUS_SUCCESS /\
  cache_grows st st' /\ (cache_inv st -> cache_inv st').
Proof.
  unfold mod_logfile_domain_logger.
  destruct node as [node|];
    [| intros [= <- <-]; auto using cache_grows_refl].
  destruct (is_internal node);
    [intros [= <- <-]; auto using cache_grows_refl |].
  destruct (negb (zstr _));
    [| intros [= <- <-]; auto using cache_grows_refl].
  unfold bind.
  match goal with
  | |- context [write_domain_log ?d ?l st] =>
      destruct (write_domain_log d l st) as [s st1|] eqn:Hw; [| discriminate]
  end.
  apply write_domain_log_ret in Hw as [Hgrow Hinv].
  intros [= <- <-]. auto.
Qed.

End Cache.

(** ** Load, shutdown and runs *)

Section Lifecycle.

Lemma same_cache_close_entry st ptr : same_cache st (close_entry_log st ptr).
Proof.
  unfold close_entry_log.
  destruct (pool st !! ptr) as [e|] eqn:Hp; [| apply same_cache_refl].
  destruct (file_lock e); [| apply same_cache_refl].
  destruct (log_file e) as [fd|]; [| apply same_cache_refl].
  apply same_cache_trans with (set_world (switch_file_close fd (world st)) st);
    [apply same_cache_world; reflexivity |].
  apply same_cache_pool. simpl. eapply pool_le_insert; [exact Hp | reflexivity].
Qed.

Lemma same_cache_cleanup st ptr : same_cache st (cleanup_domain_entry ptr st).
Proof.
  unfold cleanup_domain_entry.
  destruct (pool st !! ptr) as [e|]; [| apply same_cache_refl].
  destruct (log_file e); [| apply same_cache_refl].
  apply same_cache_world; reflexivity.
Qed.

Lemma same_cache_foldl (f : module_state -> nat -> module_state) l :
  (forall st ptr, same_cache st (f st ptr)) ->
  forall st, same_cache st (foldl f st l).
Proof.
  intros Hf. induction l as [|ptr l IH]; intros st; simpl.
  - apply same_cache_refl.
  - eapply same_cache_trans; [apply Hf | apply IH].
Qed.

Lemma same_cache_diagnostic st : same_cache st (write_diagnostic st).
Proof.
  unfold write_diagnostic.
  destruct (switch_file_open _ true (world st)) as [[diag|stat] w1] eqn:Ho;
    apply open_log_dir in Ho.
  - destruct (switch_file_write diag _ _ w1) as [r w2] eqn:Hw.
    apply write_log_dir in Hw. apply same_cache_world. simpl. congruence.
  - eapply same_cache_trans; [apply same_cache_world, Ho | apply same_cache_printf].
Qed.

Lemma cache_inv_boot w : cache_inv (boot w).
Proof.
  split; simpl; try discriminate. unfold MAX_DOMAIN_CACHE_SIZE. lia.
Qed.

(** A state with an empty table and a zero counter. *)
Lemma cache_inv_empty st :
  domain_hash st = Some ∅ -> globals_cache_entries st = 0 ->
  globals_mutex st = true -> cache_inv st.
Proof.
  intros Hh Hc Hm. split.
  - rewrite Hc. unfold MAX_DOMAIN_CACHE_SIZE. lia.
  - intros h Hh'. rewrite Hh in Hh'. injection Hh' as <-.
    split; [exact Hm |]. now rewrite Hc, map_size_empty.
  - intros h d p Hh' Hd. rewrite Hh in Hh'. injection Hh' as <-.
    now rewrite lookup_empty in Hd.
  - intros h d1 d2 p Hh' Hd. rewrite Hh in Hh'. injection Hh' as <-.
    now rewrite lookup_empty in Hd.
Qed.

(** The load function returns [SWITCH_STATUS_SUCCESS] from every state
    and leaves an empty cache and a bound logger. *)
Lemma mod_logfile_domain_load_spec st :
  exists st',
    mod_logfile_domain_load st = Ret SWITCH_STATUS_SUCCESS st' /\
    domain_hash st' = Some ∅ /\ globals_cache_entries st' = 0 /\
    globals_mutex st' = true /\ logger_bound st' = true /\
    log_dir (world st') = log_dir (world st) /\
    pool_le (pool st) (pool st').
Proof.
  unfold mod_logfile_domain_load.
  set (st0 := set_globals true 0 st).
  assert (Hd : exists st1,
    match domain_hash st0 with
    | Some _ => switch_core_hash_destroy st0
    | None => Ret tt st0
    end = Ret tt st1 /\ globals_cache_entries st1 = 0 /\
    globals_mutex st1 = true /\ log_dir (world st1) = log_dir (world st) /\
    pool_le (pool st) (pool st1)).
  { unfold switch_core_hash_destroy.
    destruct (domain_hash st0) as [h|] eqn:Hh.
    - eexists. split; [reflexivity |].
      destruct (same_cache_foldl (fun st ptr => cleanup_domain_entry ptr st)
                  (hash_values h) same_cache_cleanup st0)
        as (A1 & A2 & A3 & A4 & A5 & A6 & A7).
      simpl. auto.
    - exists st0. simpl. auto using pool_le_refl. }
  destruct Hd as (st1 & -> & Hc & Hm & Hdir & Hpool).
  cbv beta iota zeta.
  match goal with
  | |- context [write_diagnostic ?s] => set (st3 := s)
  end.
  match goal with
  | |- context [Ret _ ?s] => set (stf := s)
  end.
  assert (Hs : same_cache st3 stf).
  { eapply same_cache_trans; [apply same_cache_diagnostic | apply same_cache_printf]. }
  destruct Hs as (A1 & A2 & A3 & A4 & A5 & A6 & A7).
  exists stf. split; [reflexivity |].
  rewrite A1, A2, A3, A5, A6. subst st3. cbn.
  repeat split; try assumption.
  eapply pool_le_trans; [exact Hpool | exact A7].
Qed.

Lemma mod_logfile_domain_load_ret st status st' :
  mod_logfile_domain_load st = Ret status st' ->
  status = SWITCH_STATUS_SUCCESS /\ loaded st' /\ cache_inv st' /\
  logger_bound st' = true.
Proof.
  destruct (mod_logfile_domain_load_spec st)
    as (st2 & -> & Hh & Hc & Hm & Hb & _).
  intros [= <- <-]. split; [reflexivity |].
  split; [split; eauto |]. split; [now apply cache_inv_empty | exact Hb].
Qed.

(** Shutdown on a loaded module: the table is gone, the logger is
    unbound, the counter and the mutex stay. *)
Lemma mod_logfile_domain_shutdown_spec st :
  loaded st ->
  exists st',
    mod_logfile_domain_shutdown st = Ret SWITCH_STATUS_SUCCESS st' /\
    domain_hash st' = None /\ logger_bound st' = false /\
    globals_cache_entries st' = globals_cache_entries st /\
    globals_mutex st' = globals_mutex st /\
    log_dir (world st') = log_dir (world st) /\
    pool_le (pool st) (pool st').
Proof.
  intros [Hm [h Hh]].
  unfold mod_logfile_domain_shutdown, bind, close_all_domain_logs,
    switch_core_hash_destroy.
  cbn. rewrite Hm, Hh. cbn.
  match goal with
  | |- context [foldl close_entry_log ?s ?l] =>
      destruct (same_cache_foldl close_entry_log l same_cache_close_entry s)
        as (A1 & A2 & A3 & A4 & A5 & A6 & A7);
      set (st1 := foldl close_entry_log s l) in *
  end.
  cbn in A1. rewrite A1, Hh.
  destruct (same_cache_foldl (fun st ptr => cleanup_domain_entry ptr st)
              (hash_values h) same_cache_cleanup st1)
    as (B1 & B2 & B3 & B4 & B5 & B6 & B7).
  eexists. split; [reflexivity |]. cbn.
  cbn in A2, A3, A5, A6, A7.
  repeat split; try congruence.
  eapply pool_le_trans; eauto.
Qed.

Lemma mod_logfile_domain_shutdown_ret st status st' :
  mod_logfile_domain_shutdown st = Ret status st' -> loaded st.
Proof.
  unfold mod_logfile_domain_shutdown, bind, close_all_domain_logs. cbn.
  destruct (globals_mutex st) eqn:Hm; [| discriminate].
  destruct (domain_hash st) as [h|] eqn:Hh; [| discriminate].
  intros _. split; eauto.
Qed.

End Lifecycle.

Section Runs.

Lemma discard_ret {A} (m : M A) st st' :
  discard m st = Ret tt st' -> exists a, m st = Ret a st'.
Proof.
  unfold discard, bind, ret. destruct (m st) as [a st2|]; [| discriminate].
  intros [= <-]. eauto.
Qed.

Lemma cache_inv_shutdown st st' :
  cache_inv st -> domain_hash st' = None ->
  globals_cache_entries st' = globals_cache_entries st -> cache_inv st'.
Proof.
  intros [Hb _ _ _] Hh Hc. split; rewrite ?Hc, ?Hh; auto; discriminate.
Qed.

(** Every operation keeps the invariant of the cache. *)
Lemma run_op_inv o st st' :
  cache_inv st -> run_op o st = Ret tt st' -> cache_inv st'.
Proof.
  intros Hinv. destruct o as [| |node level|f o|src dst|node level|d l|d]; simpl.
  - intros H. apply discard_ret in H as [s H].
    now apply mod_logfile_domain_load_ret in H.
  - intros H. apply discard_ret in H as [s H].
    pose proof (mod_logfile_domain_shutdown_ret _ _ _ H) as Hl.
    destruct (mod_logfile_domain_shutdown_spec st Hl)
      as (st2 & E & Hh & _ & Hc & _).
    rewrite E in H. injection H as _ <-.
    eapply cache_inv_shutdown; eauto.
  - destruct (logger_bound st); [| now intros [= <-]].
    intros H. apply discard_ret in H as [s H].
    apply mod_logfile_domain_logger_ret in H as (_ & _ & H). auto.
  - intros [= <-]. eapply cache_inv_same; [exact Hinv |].
    apply same_cache_world, external_change_log_dir.
  - intros [= <-]. eapply cache_inv_same; [exact Hinv |].
    apply same_cache_world, external_rename_log_dir.
  - intros H. apply discard_ret in H as [s H].
    apply mod_logfile_domain_logger_ret in H as (_ & _ & H). auto.
  - intros H. apply discard_ret in H as [s H].
    apply write_domain_log_ret in H as (_ & H). auto.
  - intros H. apply discard_ret in H as [s H].
    apply get_domain_entry_ret in H as (_ & H & _). auto.
Qed.

Lemma run_cons o ops st st' :
  run (o :: ops) st = Ret tt st' ->
  exists st1, run_op o st = Ret tt st1 /\ run ops st1 = Ret tt st'.
Proof.
  simpl. unfold bind. destruct (run_op o st) as [[] st1|]; [| discriminate].
  eauto.
Qed.

Lemma run_inv ops st st' :
  cache_inv st -> run ops st = Ret tt st' -> cache_inv st'.
Proof.
  revert st; induction ops as [|o ops IH]; intros st Hinv H.
  - now injection H as <-.
  - apply run_cons in H as (st1 & H1 & H2).
    eapply IH; [| exact H2]. eapply run_op_inv; eauto.
Qed.

(** The invariant holds in every state the module reaches from the
    start of the process. *)
Lemma reachable_inv ops w st : run ops (boot w) = Ret tt st -> cache_inv st.
Proof. apply run_inv, cache_inv_boot. Qed.

(** An event-time operation only makes the cache grow. *)
Lemma run_op_grows o st st' :
  is_lifecycle o = false -> run_op o st = Ret tt st' -> cache_grows st st'.
Proof.
  destruct o as [| |node level|f o|src dst|node level|d l|d]; simpl;
    try discriminate; intros _.
  - destruct (logger_bound st); [| intros [= <-]; apply cache_grows_refl].
    intros H. apply discard_ret in H as [s H].
    now apply mod_logfile_domain_logger_ret in H as (_ & H & _).
  - intros [= <-]. apply same_cache_grows, same_cache_world.
    apply external_change_log_dir.
  - intros [= <-]. apply same_cache_grows, same_cache_world.
    apply external_rename_log_dir.
  - intros H. apply discard_ret in H as [s H].
    now apply mod_logfile_domain_logger_ret in H as (_ & H & _).
  - intros H. apply discard_ret in H as [s H].
    now apply write_domain_log_ret in H as (H & _).
  - intros H. apply discard_ret in H as [s H].
    now apply get_domain_entry_ret in H as (H & _).
Qed.

Lemma run_grows ops st st' :
  forallb (fun o => negb (is_lifecycle o)) ops = true ->
  run ops st = Ret tt st' -> cache_grows st st'.
Proof.
  revert st; induction ops as [|o ops IH]; intros st Hev H.
  - injection H as <-. apply cache_grows_refl.
  - simpl in Hev. apply andb_prop in Hev as [Ho Hev].
    apply negb_true_iff in Ho.
    apply run_cons in H as (st1 & H1 & H2).
    eapply cache_grows_trans; [eapply run_op_grows; eauto | eauto].
Qed.

End Runs.

(** ** The cache as the module's callers see it *)

Section CacheProperties.

(** C2. In every state the module reaches, the counter of cached
    domains is the size of the table and is at most 256; and when the
    table holds 256 domains, [get_domain_entry] on an unseen, non-empty
    domain returns NULL and changes nothing but the console, which gains
    the warning: the table, the entries, the counter, the descriptors
    and the files are as before. *)
Theorem full_cache_rejects_without_eviction
    (ops : list op) (w : World) (st : module_state)
    (h : gmap string nat) (d : string) :
  run ops (boot w) = Ret tt st ->
  0 <= globals_cache_entries st <= MAX_DOMAIN_CACHE_SIZE /\
  (domain_hash st = Some h ->
   globals_cache_entries st = Z.of_nat (size h) /\
   (size h <= 256)%nat /\
   (size h = 256%nat -> h !! d = None -> zstr (Some d) = false ->
    exists st',
      get_domain_entry (Some d) st = Ret None st' /\
      domain_hash st' = Some h /\
      pool st' = pool st /\
      globals_cache_entries st' = globals_cache_entries st /\
      fds (world st') = fds (world st) /\
      files (world st') = files (world st) /\
      console (world st')
      = (console (world st) ++ [(SWITCH_LOG_WARNING, cache_full_warning)])%list)).
Proof.
  intros Hrun. pose proof (reachable_inv _ _ _ Hrun) as Hinv.
  split; [apply (inv_bound _ Hinv) |].
  intros Hh. destruct (inv_live _ Hinv _ Hh) as [Hm Hc].
  pose proof (inv_bound _ Hinv) as Hb. unfold MAX_DOMAIN_CACHE_SIZE in Hb.
  split; [exact Hc |]. split; [lia |].
  intros Hsize Hd Hz. eexists. split.
  - apply (get_domain_entry_full _ _ h); try assumption.
    unfold MAX_DOMAIN_CACHE_SIZE. lia.
  - cbn. split; [exact Hh |]. repeat split; reflexivity.
Qed.

(** C3. In every state the module reaches: once [get_domain_entry] has
    returned an entry for a domain, any later call with the same domain,
    after any event-time operations, returns that same entry and changes
    nothing; an entry of the table is still there, under its key, after
    any event-time operations; and the table holds one entry per key,
    different keys having different entries. *)
Theorem get_domain_entry_same_entry
    (ops0 ops : list op) (w : World) (st st1 st2 : module_state)
    (domain : option string) (entry : nat) :
  run ops0 (boot w) = Ret tt st ->
  get_domain_entry domain st = Ret (Some entry) st1 ->
  forallb (fun o => negb (is_lifecycle o)) ops = true ->
  run ops st1 = Ret tt st2 ->
  get_domain_entry domain st2 = Ret (Some entry) st2 /\
  (forall h d p, domain_hash st = Some h -> h !! d = Some p ->
     exists h2, domain_hash st2 = Some h2 /\ h2 !! d = Some p) /\
  (forall h2, domain_hash st2 = Some h2 ->
     globals_cache_entries st2 = Z.of_nat (size h2) /\
     forall d1 d2 p1 p2, h2 !! d1 = Some p1 -> h2 !! d2 = Some p2 ->
       (d1 = d2 <-> p1 = p2)).
Proof.
  intros Hrun Hget Hev Hops.
  pose proof (reachable_inv _ _ _ Hrun) as Hinv.
  pose proof (get_domain_entry_ret _ _ _ _ Hget) as (Hg1 & Hinv1 & Hr).
  destruct (Hr _ eq_refl) as (d & h1 & -> & Hz & Hh1 & Hd1).
  pose proof (run_grows _ _ _ Hev Hops) as Hg2.
  pose proof (run_inv _ _ _ (Hinv1 Hinv) Hops) as Hinv2.
  pose proof (cache_grows_trans _ _ _ Hg1 Hg2) as Hg.
  split; [| split].
  - destruct Hg2 as (Hm & _ & _ & _ & _ & Hsub). rewrite Hh1 in Hsub.
    destruct Hsub as (h2 & Hh2 & Hsub).
    apply (get_domain_entry_found _ _ h2); try assumption.
    + rewrite Hm. apply (inv_live _ (Hinv1 Hinv) _ Hh1).
    + eapply lookup_weaken; eauto.
  - intros h d0 p Hh Hd0. destruct Hg as (_ & _ & _ & _ & _ & Hsub).
    rewrite Hh in Hsub. destruct Hsub as (h2 & Hh2 & Hsub).
    exists h2. split; [exact Hh2 |]. eapply lookup_weaken; eauto.
  - intros h2 Hh2. split; [apply (inv_live _ Hinv2 _ Hh2) |].
    intros d1 d2 p1 p2 H1 H2. split.
    + intros <-. congruence.
    + intros <-. eapply (inv_inj _ Hinv2); eauto.
Qed.

(** C8. In every state the module reaches in which it is loaded, the
    logger callback returns [SWITCH_STATUS_SUCCESS] for every node, NULL
    included, and every level: whether no domain resolves, the cache
    refuses the domain or the write fails. *)
Theorem logger_always_succeeds
    (ops : list op) (w : World) (st : module_state)
    (node : option switch_log_node_t) (level : switch_log_level_t) :
  run ops (boot w) = Ret tt st ->
  loaded st ->
  exists st',
    mod_logfile_domain_logger node level st = Ret SWITCH_STATUS_SUCCESS st'.
Proof.
  intros Hrun Hl.
  destruct (mod_logfile_domain_logger_spec node level st Hl
              (reachable_inv _ _ _ Hrun)) as (st' & H & _).
  eauto.
Qed.

(** C5, as the code has it.  A key taken from the rendered text has at
    most 127 characters.  A key taken from a channel variable, be it
    [domain_name] or, when that one is empty, [domain], is the variable
    as it is, whatever its length.  In every state the module reaches,
    the entry [get_domain_entry] returns for a domain is cached under the
    whole domain; its [domain] field is the first 127 characters of the
    domain and its path has at most 511 characters. *)
Theorem domain_key_bounds
    (ops : list op) (w : World) (st st' : module_state)
    (msg : option string) (channel : switch_channel_t)
    (v d key : string) (entry : nat) :
  (extract_domain_from_msg msg = Some key -> (String.length key <= 127)%nat) /\
  (switch_channel_get_variable channel "domain_name" = Some v ->
   zstr (Some v) = false ->
   extract_domain (Some channel) = Some v) /\
  (zstr (switch_channel_get_variable channel "domain_name") = true ->
   switch_channel_get_variable channel "domain" = Some v ->
   zstr (Some v) = false ->
   extract_domain (Some channel) = Some v) /\
  (run ops (boot w) = Ret tt st ->
   get_domain_entry (Some d) st = Ret (Some entry) st' ->
   exists h' e,
     domain_hash st' = Some h' /\ h' !! d = Some entry /\
     pool st' !! entry = Some e /\
     domain e = str_take 127 d /\
     (String.length (domain e) <= 127)%nat /\
     (String.length (logfile_path e) <= 511)%nat).
Proof.
  split; [| split; [| split]].
  - unfold extract_domain_from_msg. destruct msg as [m|]; [| discriminate].
    destruct (find_marker m); [apply capture_length | discriminate].
  - intros Hv Hz. unfold extract_domain. now rewrite Hv, Hz.
  - intros Hz1 Hv Hz. unfold extract_domain. now rewrite Hz1, Hv, Hz.
  - intros Hrun Hget.
    pose proof (reachable_inv _ _ _ Hrun) as Hinv.
    apply get_domain_entry_ret in Hget as (_ & Hinv' & Hr).
    destruct (Hr _ eq_refl) as (d' & h' & [= <-] & _ & Hh' & Hd').
    destruct (inv_entries _ (Hinv' Hinv) _ _ _ Hh' Hd') as (e & Hp & Hs).
    unfold entry_static in Hs. simpl in Hs.
    injection Hs as Hdom _ Hpath _.
    exists h', e. repeat split; try assumption.
    + rewrite Hdom. apply str_take_length_le.
    + rewrite Hpath. apply str_take_length_le.
Qed.

End CacheProperties.

(** ** The write/reopen protocol *)

Section WriteProtocol.

Lemma length_append (a b : string) :
  String.length (a +:+ b) = (String.length a + String.length b)%nat.
Proof.
  induction a as [|c a IH]; [reflexivity |].
  change (String c a +:+ b) with (String c (a +:+ b)). simpl. now rewrite IH.
Qed.

(** A successful write appends the bytes it reports. *)
Lemma switch_file_write_success fd data w n w1 :
  switch_file_write fd data (strlen data) w = ((SWITCH_STATUS_SUCCESS, n), w1) ->
  0 <= n <= strlen data /\
  fds w1 = fds w /\
  switch_file_get_size fd w1 = switch_file_get_size fd w + n.
Proof.
  unfold switch_file_write, switch_file_get_size, strlen.
  destruct (fd_table w !! fd) as [pi|] eqn:Hfd; [| discriminate].
  set (r := default _ (head (oracle w))).
  destruct (is_success (reply_status r)) eqn:Hs.
  - intros [= <- <-]. split; [lia |].
    unfold append_at, fds. destruct pi as [p [q|c]]; simpl.
    + rewrite Hfd. simpl. rewrite lookup_insert_eq. simpl.
      rewrite length_append, str_take_length. split; [reflexivity | lia].
    + rewrite lookup_insert_eq. simpl.
      rewrite length_append, str_take_length.
      split; [exact (fst_insert_same _ _ (p, Unlinked c) _ Hfd) | lia].
  - intros [= E _ _]. now rewrite E in Hs.
Qed.

(** A failing write, under the contract of [apr_file_write], reports no
    byte and leaves the files as they were. *)
Lemma switch_file_write_failure fd data w s n w1 :
  failed_write_reports_zero w ->
  switch_file_write fd data (strlen data) w = ((s, n), w1) ->
  s <> SWITCH_STATUS_SUCCESS ->
  n = 0 /\ files w1 = files w /\ fds w1 = fds w /\
  forall fd', switch_file_get_size fd' w1 = switch_file_get_size fd' w.
Proof.
  unfold failed_write_reports_zero, switch_file_write, strlen. intros Hzero.
  destruct (fd_table w !! fd) as [pi|] eqn:Hfd; [| now intros [= <- <- <-]].
  destruct (oracle w) as [|r rest] eqn:Ho; simpl.
  - intros [= <- _ _]. congruence.
  - destruct (is_success (reply_status r)) eqn:Hs.
    + intros [= <- _ _]. congruence.
    + intros [= <- <- <-] _. apply Forall_cons in Hzero as [Hr _].
      specialize (Hr Hs). simpl. split; [lia | auto].
Qed.

Lemma failed_write_reports_zero_tail w o :
  failed_write_reports_zero w -> (o = oracle w \/ o = tail (oracle w)) ->
  Forall (fun r => is_success (reply_status r) = false -> reply_nbytes r <= 0) o.
Proof.
  unfold failed_write_reports_zero. intros H [-> | ->]; [exact H |].
  destruct (oracle w); [exact H | now apply Forall_cons in H as [_ H]].
Qed.

Lemma zero_after_write fd data n w r w' :
  failed_write_reports_zero w -> switch_file_write fd data n w = (r, w') ->
  failed_write_reports_zero w'.
Proof.
  intros Hz. unfold switch_file_write.
  destruct (fd_table w !! fd); [| now intros [= <- <-]].
  destruct (is_success _); intros [= <- <-];
    [unfold failed_write_reports_zero, append_at; destruct (p.2) |];
    apply (failed_write_reports_zero_tail w); auto.
Qed.

Lemma zero_after_open path trunc w r w' :
  failed_write_reports_zero w -> switch_file_open path trunc w = (r, w') ->
  failed_write_reports_zero w'.
Proof.
  intros Hz. unfold switch_file_open, open_ok.
  destruct (oracle w) as [|rep rest] eqn:Ho.
  { intros [= <- <-]. unfold failed_write_reports_zero. simpl. now rewrite Ho. }
  assert (Hrest : Forall (fun r => is_success (reply_status r) = false ->
                             reply_nbytes r <= 0) rest).
  { apply (failed_write_reports_zero_tail w); auto. right. now rewrite Ho. }
  destruct (is_success _); simpl; intros [= <- <-]; exact Hrest.
Qed.

Lemma zero_after_first_attempt e data w w_c :
  failed_write_reports_zero w -> first_attempt_failed e data w = Some w_c ->
  failed_write_reports_zero w_c.
Proof.
  intros Hz. unfold first_attempt_failed.
  destruct (log_file e) as [fd|]; [| now intros [= <-]].
  destruct (switch_file_write fd data (strlen data) w) as [[s n] w1] eqn:Hw.
  apply (zero_after_write _ _ _ _ _ _ Hz) in Hw.
  destruct s; [discriminate | |]; now intros [= <-].
Qed.

(** C7. A call of [write_entry] on an allocated entry, under the
    contract that a failing write reports no byte, takes one of three
    courses.  The first write succeeds: [log_size] grows by the bytes
    written, which is what the file grew by.  The first attempt fails and
    the reopen fails: the status is [SWITCH_STATUS_FALSE] and [log_size]
    is as before.  The first attempt fails and the reopen succeeds:
    [log_size] is the size of the file at the reopen plus the bytes the
    retried write wrote, which is what the file grew by since, and is
    nothing when the retried write failed. *)
Theorem written_bytes_accounting
    (entry : nat) (e : domain_cache_entry_t) (data : string) (st : module_state) :
  pool st !! entry = Some e -> file_lock e = true ->
  failed_write_reports_zero (world st) ->
  exists status st' e',
    write_entry entry data st = Ret status st' /\
    pool st' !! entry = Some e' /\
    ((exists fd n,
        log_file e = Some fd /\
        fst (switch_file_write fd data (strlen data) (world st))
        = (SWITCH_STATUS_SUCCESS, n) /\
        status = SWITCH_STATUS_SUCCESS /\
        log_file e' = Some fd /\
        log_size e' = wrap_size (log_size e + n) /\
        n = switch_file_get_size fd (world st')
            - switch_file_get_size fd (world st)) \/
     (exists w_c stat w,
        first_attempt_failed e data (world st) = Some w_c /\
        switch_file_open (logfile_path e) false w_c = (inr stat, w) /\
        status = SWITCH_STATUS_FALSE /\
        log_file e' = None /\
        log_size e' = log_size e) \/
     (exists w_c fd2 w2 s2 n2,
        first_attempt_failed e data (world st) = Some w_c /\
        switch_file_open (logfile_path e) false w_c = (inl fd2, w2) /\
        fst (switch_file_write fd2 data (strlen data) w2) = (s2, n2) /\
        status = SWITCH_STATUS_SUCCESS /\
        log_file e' = Some fd2 /\
        log_size e' = wrap_size (switch_file_get_size fd2 w2 + n2) /\
        n2 = switch_file_get_size fd2 (world st')
             - switch_file_get_size fd2 w2 /\
        (s2 <> SWITCH_STATUS_SUCCESS -> n2 = 0))).
Proof.
  intros Hp Hl Hz.
  assert (Hlt : (entry < length (pool st))%nat) by (eapply lookup_lt_Some, Hp).
  destruct (write_entry_cases entry e data st Hp Hl)
    as [(fd & n & w1 & Hf & Hw & ->)
       |[(w_c & stat & w & msg & Hfirst & Ho & ->)
        |(w_c & fd2 & w2 & s2 & n2 & w3 & Hfirst & Ho & Hw & ->)]].
  - do 3 eexists. split; [reflexivity |].
    split; [simpl; now apply list_lookup_insert_eq |].
    left. exists fd, n. rewrite Hw. simpl.
    apply switch_file_write_success in Hw as (_ & _ & Hsize).
    repeat split; try assumption. lia.
  - do 3 eexists. split; [reflexivity |].
    split; [simpl; now apply list_lookup_insert_eq |].
    right; left. exists w_c, stat, w. repeat split; assumption.
  - do 3 eexists. split; [reflexivity |].
    split; [simpl; now apply list_lookup_insert_eq |].
    right; right. exists w_c, fd2, w2, s2, n2. rewrite Hw. simpl.
    pose proof (zero_after_open _ _ _ _ _
                  (zero_after_first_attempt _ _ _ _ Hz Hfirst) Ho) as Hz2.
    repeat split; try assumption.
    + destruct s2 as [| |c].
      * apply switch_file_write_success in Hw as (_ & _ & Hsize). lia.
      * apply (switch_file_write_failure _ _ _ _ _ _ Hz2) in Hw
          as (-> & _ & _ & Hsize); [| discriminate].
        rewrite Hsize. lia.
      * apply (switch_file_write_failure _ _ _ _ _ _ Hz2) in Hw
          as (-> & _ & _ & Hsize); [| discriminate].
        rewrite Hsize. lia.
    + intros Hs. now apply (switch_file_write_failure _ _ _ _ _ _ Hz2) in Hw.
Qed.

End WriteProtocol.

(** ** The logger without a rendered message *)

Section Placeholder.

(** C10. When the render pointer is NULL, or the renderer fails on the
    node, the rendered message is empty and the domain is the one of the
    channel alone.  The logger leaves the state untouched when the channel
    gives no domain.  Otherwise it hands [write_domain_log] one line for
    that domain, which is, cut to the 2047 characters the buffer holds:
    the date (79 characters at most), the level in brackets, the source
    file, function and line (as the [int] that [%d] prints) in brackets,
    the placeholder ["(message)"], the identifier of the channel in
    brackets, and a line feed. *)
Theorem no_rendering_no_text_fallback
    (node : switch_log_node_t) (level : switch_log_level_t)
    (st : module_state) (d : string) :
  (switch_log_node_render_ptr st = None \/
   exists render, switch_log_node_render_ptr st = Some render /\
                  fst (render node) <> SWITCH_STATUS_SUCCESS) ->
  render_message (switch_log_node_render_ptr st) node = EmptyString /\
  resolve_domain node (render_message (switch_log_node_render_ptr st) node)
  = extract_domain (node_channel node) /\
  (extract_domain (node_channel node) = None ->
   mod_logfile_domain_logger (Some node) level st
   = Ret SWITCH_STATUS_SUCCESS st) /\
  (is_internal node = false ->
   extract_domain (node_channel node) = Some d ->
   exists channel,
     node_channel node = Some channel /\
     mod_logfile_domain_logger (Some node) level st
     = (_ <- write_domain_log (Some d)
               (Some
                  (str_take 2047
                     (str_take 79 (clock (world st)) +:+ " ["
                      +:+ switch_log_level2str level +:+ "] ["
                      +:+ default "unknown" (node_file node) +:+ ":"
                      +:+ default "unknown" (node_func node) +:+ ":"
                      +:+ pretty (as_int (node_line node)) +:+ "] "
                      +:+ "(message)"
                      +:+ " [" +:+ default "unknown" (switch_channel_get_uuid channel)
                      +:+ "]" +:+ nl))) ;;
        ret SWITCH_STATUS_SUCCESS) st).
Proof.
  intros Hr.
  assert (Hmsg : render_message (switch_log_node_render_ptr st) node = EmptyString).
  { unfold render_message. destruct Hr as [-> | (render & -> & Hs)]; [reflexivity |].
    destruct (render node) as [[] buf]; simpl in Hs; congruence. }
  assert (Hres : resolve_domain node EmptyString = extract_domain (node_channel node)).
  { unfold resolve_domain. simpl. rewrite andb_false_r.
    now destruct (node_channel node). }
  rewrite Hmsg. split; [reflexivity |]. split; [exact Hres |].
  unfold mod_logfile_domain_logger. rewrite Hmsg, Hres. split.
  - intros ->. simpl. now destruct (is_internal node).
  - intros -> Hd. rewrite Hd.
    rewrite (extract_domain_not_empty _ _ Hd).
    destruct (node_channel node) as [channel|] eqn:Hc; [| discriminate].
    exists channel. split; [reflexivity |].
    cbv beta iota zeta delta [negb]. unfold format_log_line, message_or_placeholder,
      format_date, switch_snprintf. simpl zstr. cbv iota.
    rewrite !append_assoc. reflexivity.
Qed.

End Placeholder.

(** ** Descriptors *)

Section Descriptors.

Lemma fd_inv_same st st' :
  fd_inv st ->
  domain_hash st' = domain_hash st ->
  (forall q, handle_of st' q = handle_of st q) ->
  fds (world st') = fds (world st) ->
  next_fd (world st') = next_fd (world st) ->
  fd_inv st'.
Proof.
  intros [Ho Hi Hf] Hh Hq Hfds Hn.
  assert (Hc : forall fd, cached_handle st' fd <-> cached_handle st fd).
  { intros fd. unfold cached_handle. rewrite Hh.
    split; intros (h & d & p & H1 & H2 & H3); exists h, d, p;
      rewrite ?Hq in *; auto. }
  split.
  - intros fd. rewrite Hfds, Hc. apply Ho.
  - intros h d1 d2 p1 p2 fd. rewrite Hh, !Hq. apply Hi.
  - intros fd. rewrite Hfds, Hn. apply Hf.
Qed.

(** A cached entry gives up its handle, which is closed. *)
Lemma fd_inv_close st st' h d p fd :
  fd_inv st ->
  domain_hash st = Some h -> h !! d = Some p -> handle_of st p = Some fd ->
  domain_hash st' = domain_hash st ->
  handle_of st' p = None ->
  (forall q, q <> p -> handle_of st' q = handle_of st q) ->
  fds (world st') = delete fd (fds (world st)) ->
  next_fd (world st') = next_fd (world st) ->
  fd_inv st'.
Proof.
  intros [Ho Hi Hf] Hh Hd Hp Hh' Hp' Hq Hfds Hn. split.
  - intros fd0. rewrite Hfds. split.
    + intros Hopen. destruct (decide (fd0 = fd)) as [->|Hne].
      { rewrite lookup_delete_eq in Hopen. now destruct Hopen. }
      rewrite lookup_delete_ne in Hopen by auto.
      apply Ho in Hopen as (h0 & d0 & p0 & H1 & H2 & H3).
      exists h0, d0, p0. rewrite Hh'. repeat split; auto.
      rewrite Hq; [exact H3 |]. intros ->. congruence.
    + intros (h0 & d0 & p0 & H1 & H2 & H3). rewrite Hh' in H1.
      assert (Hne : p0 <> p) by (intros ->; congruence).
      rewrite Hq in H3 by exact Hne.
      assert (fd0 <> fd).
      { intros ->. apply Hne. rewrite Hh in H1. injection H1 as <-.
        eapply Hi; eauto. }
      rewrite lookup_delete_ne by auto. apply Ho. exists h0, d0, p0. auto.
  - intros h0 d1 d2 p1 p2 fd0 H0 H1 H2 H3 H4. rewrite Hh' in H0.
    assert (p1 <> p) by (intros ->; congruence).
    assert (p2 <> p) by (intros ->; congruence).
    rewrite Hq in H3, H4 by assumption. eapply Hi; eauto.
  - intros fd0. rewrite Hfds, Hn. intros Hopen. apply Hf.
    destruct (decide (fd0 = fd)) as [->|Hne].
    + rewrite lookup_delete_eq in Hopen. now destruct Hopen.
    + now rewrite lookup_delete_ne in Hopen by auto.
Qed.

(** An entry without handle, cached or about to be cached under [d],
    takes the next descriptor. *)
Lemma fd_inv_open st st' h h' d p path :
  fd_inv st ->
  domain_hash st = Some h -> domain_hash st' = Some h' ->
  h ⊆ h' -> h' !! d = Some p ->
  (forall d0 p0, h' !! d0 = Some p0 -> p0 <> p -> h !! d0 = Some p0) ->
  handle_of st p = None ->
  handle_of st' p = Some (next_fd (world st)) ->
  (forall q, q <> p -> handle_of st' q = handle_of st q) ->
  fds (world st') = <[next_fd (world st) := path]> (fds (world st)) ->
  next_fd (world st') = S (next_fd (world st)) ->
  fd_inv st'.
Proof.
  intros [Ho Hi Hf] Hh Hh' Hsub Hd Hold Hp Hp' Hq Hfds Hn.
  assert (Hfresh : forall h0 d0 p0, domain_hash st = Some h0 -> h0 !! d0 = Some p0 ->
                     handle_of st p0 <> Some (next_fd (world st))).
  { intros h0 d0 p0 H0 H1 H2.
    assert (Hopen : is_Some (fds (world st) !! next_fd (world st))).
    { apply Ho. exists h0, d0, p0. auto. }
    apply Hf in Hopen. lia. }
  split.
  - intros fd0. rewrite Hfds. split.
    + intros Hopen. destruct (decide (fd0 = next_fd (world st))) as [->|Hne].
      { exists h', d, p. auto. }
      rewrite lookup_insert_ne in Hopen by auto.
      apply Ho in Hopen as (h0 & d0 & p0 & H1 & H2 & H3).
      rewrite Hh in H1. injection H1 as <-.
      exists h', d0, p0. repeat split; auto.
      * eapply lookup_weaken; eauto.
      * rewrite Hq; [exact H3 |]. intros ->. congruence.
    + intros (h0 & d0 & p0 & H1 & H2 & H3). rewrite Hh' in H1.
      injection H1 as <-.
      destruct (decide (p0 = p)) as [->|Hne].
      { rewrite Hp' in H3. injection H3 as <-. rewrite lookup_insert_eq. eauto. }
      rewrite Hq in H3 by exact Hne.
      assert (Hc : h !! d0 = Some p0) by auto.
      destruct (decide (next_fd (world st) = fd0)) as [<-|Hne'].
      { now destruct (Hfresh _ _ _ Hh Hc). }
      rewrite lookup_insert_ne by auto. apply Ho. exists h, d0, p0. auto.
  - intros h0 d1 d2 p1 p2 fd0 H0 H1 H2 H3 H4. rewrite Hh' in H0.
    injection H0 as <-.
    destruct (decide (p1 = p)) as [->|Hne1], (decide (p2 = p)) as [->|Hne2];
      [reflexivity | | |].
    + rewrite Hp' in H3. injection H3 as <-. rewrite Hq in H4 by exact Hne2.
      now destruct (Hfresh _ _ _ Hh (Hold _ _ H2 Hne2)).
    + rewrite Hp' in H4. injection H4 as <-. rewrite Hq in H3 by exact Hne1.
      now destruct (Hfresh _ _ _ Hh (Hold _ _ H1 Hne1)).
    + rewrite Hq in H3, H4 by assumption. eapply Hi; eauto.
  - intros fd0. rewrite Hfds, Hn. intros Hopen.
    destruct (decide (fd0 = next_fd (world st))) as [->|Hne]; [lia |].
    rewrite lookup_insert_ne in Hopen by auto. apply Hf in Hopen. lia.
Qed.

(** With no cached handle, no descriptor is open. *)
Lemma fd_inv_no_handle st :
  fd_inv st -> (forall fd, ~ cached_handle st fd) -> fds (world st) = ∅.
Proof.
  intros [Ho _ _] Hno. apply map_eq. intros fd. rewrite lookup_empty.
  destruct (fds (world st) !! fd) eqn:E; [| reflexivity].
  destruct (Hno fd). apply Ho. eauto.
Qed.

Lemma fd_inv_empty st :
  fds (world st) = ∅ -> (forall fd, ~ cached_handle st fd) -> fd_inv st.
Proof.
  intros Hfds Hno. split.
  - intros fd. rewrite Hfds, lookup_empty. split.
    + intros [x Hx]. discriminate.
    + intros H. now destruct (Hno fd).
  - intros h d1 d2 p1 p2 fd Hh H1 H2 H3 H4.
    destruct (Hno fd). exists h, d1, p1. auto.
  - intros fd. rewrite Hfds, lookup_empty. intros [x Hx]. discriminate.
Qed.

Lemma open_fds_success path trunc w fd w2 :
  switch_file_open path trunc w = (inl fd, w2) ->
  fd = next_fd w /\ fds w2 = <[fd := path]> (fds w) /\
  next_fd w2 = S (next_fd w).
Proof.
  unfold switch_file_open, open_ok.
  destruct (oracle w) as [|rep rest];
    [| destruct (is_success _); [| discriminate]];
    simpl; intros [= <- <-]; unfold fds; simpl; now rewrite fmap_insert.
Qed.

Lemma open_fds_failure path trunc w stat w2 :
  switch_file_open path trunc w = (inr stat, w2) ->
  fds w2 = fds w /\ next_fd w2 = next_fd w.
Proof.
  unfold switch_file_open, open_ok.
  destruct (oracle w) as [|rep rest].
  { discriminate. }
  destruct (is_success _); [discriminate | now intros [= <- <-]].
Qed.

Lemma write_fds fd data n w r w' :
  switch_file_write fd data n w = (r, w') ->
  fds w' = fds w /\ next_fd w' = next_fd w.
Proof.
  unfold switch_file_write.
  destruct (fd_table w !! fd) as [pl|] eqn:Hfd; [| now intros [= <- <-]].
  destruct (is_success _); intros [= <- <-]; [| now split].
  unfold append_at, fds. destruct pl as [p [q|c]]; simpl; [now split |].
  split; [exact (fst_insert_same _ _ (p, Unlinked c) _ Hfd) | reflexivity].
Qed.

Lemma first_attempt_failed_fds e data w w_c :
  first_attempt_failed e data w = Some w_c ->
  fds w_c = match log_file e with
            | Some fd => delete fd (fds w)
            | None => fds w
            end /\
  next_fd w_c = next_fd w.
Proof.
  unfold first_attempt_failed. destruct (log_file e) as [fd|]; [| now intros [= <-]].
  destruct (switch_file_write fd data (strlen data) w) as [[s n] w1] eqn:Hw.
  apply write_fds in Hw as [Hf Hn].
  destruct s; [discriminate | |]; intros [= <-];
    (split; [rewrite fds_close; now rewrite Hf | simpl; exact Hn]).
Qed.

Lemma handle_of_insert_eq st st' p e' :
  pool st' = <[p := e']> (pool st) -> (p < length (pool st))%nat ->
  handle_of st' p = log_file e'.
Proof.
  intros Hp Hlt. unfold handle_of. rewrite Hp.
  now rewrite list_lookup_insert_eq by exact Hlt.
Qed.

Lemma handle_of_insert_ne st st' p q e' :
  pool st' = <[p := e']> (pool st) -> q <> p ->
  handle_of st' q = handle_of st q.
Proof.
  intros Hp Hne. unfold handle_of. rewrite Hp.
  now rewrite list_lookup_insert_ne by auto.
Qed.

Lemma handle_of_pool st st' :
  pool st' = pool st -> forall q, handle_of st' q = handle_of st q.
Proof. intros Hp q. unfold handle_of. now rewrite Hp. Qed.

(** The state handed to the reopen block keeps the invariant: the
    handle that failed, if there was one, is closed and forgotten. *)
Lemma fd_inv_closed_state st h d p e data w_c :
  fd_inv st -> domain_hash st = Some h -> h !! d = Some p ->
  pool st !! p = Some e ->
  first_attempt_failed e data (world st) = Some w_c ->
  fd_inv (closed_state p e w_c st).
Proof.
  intros Hinv Hh Hd Hp Hfirst.
  assert (Hlt : (p < length (pool st))%nat) by (eapply lookup_lt_Some, Hp).
  apply first_attempt_failed_fds in Hfirst as [Hfds Hn].
  assert (Hnone : handle_of (closed_state p e w_c st) p = None).
  { now rewrite (handle_of_insert_eq st _ p (set_log_file None e)). }
  assert (Hq : forall q, q <> p ->
            handle_of (closed_state p e w_c st) q = handle_of st q).
  { intros q Hne. now apply (handle_of_insert_ne st _ p q (set_log_file None e)). }
  destruct (log_file e) as [fd|] eqn:Hf.
  - eapply (fd_inv_close st _ h d p fd); eauto.
    unfold handle_of. now rewrite Hp.
  - eapply (fd_inv_same st); eauto.
    intros q. destruct (decide (q = p)) as [->|Hne]; [| auto].
    rewrite Hnone. unfold handle_of. now rewrite Hp.
Qed.

Lemma write_entry_fd_inv st h d p e data status st' :
  fd_inv st -> domain_hash st = Some h -> h !! d = Some p ->
  pool st !! p = Some e -> file_lock e = true ->
  write_entry p data st = Ret status st' ->
  fd_inv st'.
Proof.
  intros Hinv Hh Hd Hp Hl Hw.
  assert (Hlt : (p < length (pool st))%nat) by (eapply lookup_lt_Some, Hp).
  destruct (write_entry_cases p e data st Hp Hl)
    as [(fd & n & w1 & Hf & Hw1 & E)
       |[(w_c & stat & w & msg & Hfirst & Ho & E)
        |(w_c & fd2 & w2 & s2 & n2 & w3 & Hfirst & Ho & Hw2 & E)]];
    rewrite E in Hw; injection Hw as _ <-.
  - apply write_fds in Hw1 as [Hfds Hn].
    eapply (fd_inv_same st); eauto.
    intros q. destruct (decide (q = p)) as [->|Hne].
    + rewrite (handle_of_insert_eq st _ p (set_log_size (wrap_size (log_size e + n)) e))
        by auto.
      unfold handle_of. now rewrite Hp.
    + now apply (handle_of_insert_ne st _ p q (set_log_size (wrap_size (log_size e + n)) e)).
  - pose proof (fd_inv_closed_state _ _ _ _ _ _ _ Hinv Hh Hd Hp Hfirst) as Hc.
    apply open_fds_failure in Ho as [Hfds Hn].
    eapply (fd_inv_same (closed_state p e w_c st)); eauto.
  - pose proof (fd_inv_closed_state _ _ _ _ _ _ _ Hinv Hh Hd Hp Hfirst) as Hc.
    apply open_fds_success in Ho as (-> & Hfds & Hn).
    apply write_fds in Hw2 as [Hfds3 Hn3].
    set (e3 := set_log_size (wrap_size (switch_file_get_size (next_fd w_c) w2 + n2))
                 (set_log_file (Some (next_fd w_c)) e)).
    eapply (fd_inv_open (closed_state p e w_c st) _ h h d p (logfile_path e));
      eauto; simpl.
    + now rewrite (handle_of_insert_eq st _ p (set_log_file None e)).
    + now rewrite (handle_of_insert_eq st _ p e3).
    + intros q Hne.
      rewrite (handle_of_insert_ne st _ p q e3) by auto.
      symmetry. now apply (handle_of_insert_ne st _ p q (set_log_file None e)).
    + congruence.
    + congruence.
Qed.

Lemma fd_inv_printf st level msg : fd_inv st -> fd_inv (switch_log_printf level msg st).
Proof. intros H. now apply (fd_inv_same st). Qed.

Lemma handle_of_app_new st dir d q :
  (pool st ++ [new_domain_entry dir d])%list !! q ≫= log_file = handle_of st q.
Proof.
  unfold handle_of. destruct (lt_eq_lt_dec q (length (pool st))) as [[Hlt | ->] | Hgt].
  - now rewrite lookup_app_l by exact Hlt.
  - rewrite lookup_app_r by lia. rewrite Nat.sub_diag. simpl.
    now rewrite (lookup_ge_None_2 (pool st)) by lia.
  - rewrite !lookup_ge_None_2; [reflexivity | lia |].
    rewrite length_app. simpl. lia.
Qed.

Lemma get_domain_entry_fd_inv domain st r st' :
  fd_inv st -> get_domain_entry domain st = Ret r st' -> fd_inv st'.
Proof.
  intros Hinv. unfold get_domain_entry.
  destruct domain as [d|]; [| now intros [= _ <-]].
  destruct (zstr (Some d)); [now intros [= _ <-] |].
  destruct (globals_mutex st); [| discriminate]. simpl.
  destruct (domain_hash st) as [h|] eqn:Hh; [| discriminate].
  destruct (h !! d) as [p|] eqn:Hd; [now intros [= _ <-] |].
  destruct (MAX_DOMAIN_CACHE_SIZE <=? globals_cache_entries st).
  { intros [= _ <-]. now apply fd_inv_printf. }
  set (new := new_domain_entry (log_dir (world st)) d).
  set (st1 := set_pool (pool st ++ [new])%list st).
  assert (Hp1 : pool st1 !! length (pool st) = Some new).
  { simpl. rewrite lookup_app_r by lia. now rewrite Nat.sub_diag. }
  destruct (switch_file_open (logfile_path new) false (world st1))
    as [[afd|stat] w] eqn:Ho.
  - rewrite (open_domain_logfile_success _ _ _ _ _ Hp1 Ho).
    intros [= _ <-]. apply fd_inv_printf.
    apply open_fds_success in Ho as (-> & Hfds & Hn).
    eapply (fd_inv_open st _ h (<[d := length (pool st)]> h) d (length (pool st))
              (logfile_path new)); eauto; simpl.
    + now apply insert_subseteq.
    + apply lookup_insert_eq.
    + intros d0 p0 Hd0 Hne. destruct (decide (d = d0)) as [<-|Hned].
      * rewrite lookup_insert_eq in Hd0. congruence.
      * now rewrite lookup_insert_ne in Hd0.
    + unfold handle_of. now rewrite lookup_ge_None_2.
    + unfold handle_of. simpl.
      rewrite list_lookup_insert_eq; [reflexivity |].
      rewrite length_app. simpl. lia.
    + intros q Hne. unfold handle_of at 1. simpl.
      rewrite list_lookup_insert_ne by auto. apply handle_of_app_new.
  - destruct (open_domain_logfile_failure _ _ _ _ _ Hp1 Ho) as [msg ->].
    intros [= _ <-]. apply fd_inv_printf.
    apply open_fds_failure in Ho as [Hfds Hn].
    eapply (fd_inv_same st); eauto.
    intros q. apply handle_of_app_new.
Qed.

Lemma write_domain_log_fd_inv domain log_data st status st' :
  cache_inv st -> fd_inv st ->
  write_domain_log domain log_data st = Ret status st' -> fd_inv st'.
Proof.
  intros Hc Hinv. unfold write_domain_log.
  destruct domain as [d|]; [| now intros [= _ <-]].
  destruct log_data as [data|]; [| now intros [= _ <-]].
  unfold bind. destruct (get_domain_entry (Some d) st) as [r st1|] eqn:Hget;
    [| discriminate].
  pose proof (get_domain_entry_fd_inv _ _ _ _ Hinv Hget) as Hinv1.
  apply get_domain_entry_ret in Hget as (_ & Hc1 & Hr).
  destruct r as [p|].
  - destruct (Hr p eq_refl) as (d' & h' & [= <-] & _ & Hh' & Hd').
    destruct (inv_entries _ (Hc1 Hc) _ _ _ Hh' Hd') as (e & Hp & Hs).
    assert (Hlock : file_lock e = true).
    { unfold entry_static in Hs. now injection Hs. }
    intros Hw. eapply write_entry_fd_inv; eauto.
  - intros [= _ <-]. now apply fd_inv_printf.
Qed.

Lemma mod_logfile_domain_logger_fd_inv node level st status st' :
  cache_inv st -> fd_inv st ->
  mod_logfile_domain_logger node level st = Ret status st' -> fd_inv st'.
Proof.
  intros Hc Hinv. unfold mod_logfile_domain_logger.
  destruct node as [node|]; [| now intros [= _ <-]].
  destruct (is_internal node); [now intros [= _ <-] |].
  destruct (negb (zstr _)); [| now intros [= _ <-]].
  unfold bind.
  match goal with
  | |- context [write_domain_log ?d ?l st] =>
      destruct (write_domain_log d l st) as [s st1|] eqn:Hw; [| discriminate]
  end.
  intros [= _ <-]. eapply write_domain_log_fd_inv; eauto.
Qed.

(** *** Closing every cached handle *)

Lemma elem_of_hash_values (h : gmap string nat) p :
  p ∈ hash_values h <-> exists d, h !! d = Some p.
Proof.
  unfold hash_values. rewrite list_elem_of_fmap. split.
  - intros [[d p'] [-> Hin]]. apply elem_of_map_to_list in Hin. eauto.
  - intros [d Hd]. exists (d, p). split; [reflexivity |].
    now apply elem_of_map_to_list.
Qed.

Lemma close_entry_log_closed st p q :
  handle_of st q = None -> handle_of (close_entry_log st p) q = None.
Proof.
  intros Hq. unfold close_entry_log.
  destruct (pool st !! p) as [e|] eqn:Hp; [| exact Hq].
  destruct (file_lock e); [| exact Hq].
  destruct (log_file e) as [fd|]; [| exact Hq].
  assert (Hlt : (p < length (pool st))%nat) by (eapply lookup_lt_Some, Hp).
  destruct (decide (q = p)) as [->|Hne].
  - now rewrite (handle_of_insert_eq st _ p (set_log_file None e)).
  - now rewrite (handle_of_insert_ne st _ p q (set_log_file None e)).
Qed.

Lemma close_entry_log_cached st h d p :
  cache_inv st -> fd_inv st -> domain_hash st = Some h -> h !! d = Some p ->
  fd_inv (close_entry_log st p) /\ handle_of (close_entry_log st p) p = None.
Proof.
  intros Hc Hinv Hh Hd.
  destruct (inv_entries _ Hc _ _ _ Hh Hd) as (e & Hp & Hs).
  assert (Hlock : file_lock e = true).
  { unfold entry_static in Hs. now injection Hs. }
  assert (Hlt : (p < length (pool st))%nat) by (eapply lookup_lt_Some, Hp).
  unfold close_entry_log. rewrite Hp, Hlock.
  destruct (log_file e) as [fd|] eqn:Hf.
  - assert (Hnone : handle_of
              (set_pool (<[p := set_log_file None e]> (pool st))
                 (set_world (switch_file_close fd (world st)) st)) p = None).
    { now rewrite (handle_of_insert_eq st _ p (set_log_file None e)). }
    split; [| exact Hnone].
    eapply (fd_inv_close st _ h d p fd); eauto.
    + unfold handle_of. now rewrite Hp.
    + intros q Hne.
      now apply (handle_of_insert_ne st _ p q (set_log_file None e)).
    + apply fds_close.
  - split; [exact Hinv |]. unfold handle_of. now rewrite Hp.
Qed.

Lemma close_loop h l :
  forall st, cache_inv st -> fd_inv st -> domain_hash st = Some h ->
    (forall p, p ∈ l -> exists d, h !! d = Some p) ->
    fd_inv (foldl close_entry_log st l) /\
    (forall q, handle_of st q = None ->
               handle_of (foldl close_entry_log st l) q = None) /\
    (forall p, p ∈ l -> handle_of (foldl close_entry_log st l) p = None).
Proof.
  induction l as [|p l IH]; intros st Hc Hinv Hh Hl; simpl.
  - split; [exact Hinv |]. split; [auto |]. intros p Hp. inversion Hp.
  - destruct (Hl p) as [d Hd]; [left |].
    destruct (close_entry_log_cached st h d p Hc Hinv Hh Hd) as [Hinv1 Hp1].
    pose proof (same_cache_close_entry st p) as Hsame.
    destruct (IH (close_entry_log st p)) as (H1 & H2 & H3).
    + eapply cache_inv_same; eauto.
    + exact Hinv1.
    + destruct Hsame as (E & _). now rewrite E.
    + intros q Hq. apply Hl. now right.
    + split; [exact H1 |]. split.
      * intros q Hq. apply H2. now apply close_entry_log_closed.
      * intros q Hq. apply elem_of_cons in Hq as [-> | Hq]; auto.
Qed.

Lemma cleanup_closed st p :
  handle_of st p = None -> cleanup_domain_entry p st = st.
Proof.
  unfold handle_of, cleanup_domain_entry.
  destruct (pool st !! p) as [e|]; [| reflexivity]. simpl.
  now intros ->.
Qed.

Lemma cleanup_loop_closed l :
  forall st, (forall p, p ∈ l -> handle_of st p = None) ->
    foldl (fun st ptr => cleanup_domain_entry ptr st) st l = st.
Proof.
  induction l as [|p l IH]; intros st Hl; simpl; [reflexivity |].
  rewrite cleanup_closed by (apply Hl; left).
  apply IH. intros q Hq. apply Hl. now right.
Qed.

(** The destructors alone, as the load function runs them over a table
    that was not closed first: a descriptor still open afterwards is the
    handle of none of the entries. *)
Lemma cleanup_loop_fds l :
  forall st fd,
    is_Some (fds (world (foldl (fun st ptr => cleanup_domain_entry ptr st) st l)) !! fd) ->
    is_Some (fds (world st) !! fd) /\
    forall p, p ∈ l -> handle_of st p <> Some fd.
Proof.
  induction l as [|p l IH]; intros st fd; simpl.
  - intros H. split; [exact H |]. intros p Hp. inversion Hp.
  - intros H. apply IH in H as [Hopen Hl].
    assert (Hh : forall q, handle_of (cleanup_domain_entry p st) q = handle_of st q).
    { apply handle_of_pool. unfold cleanup_domain_entry.
      destruct (pool st !! p) as [e|]; [| reflexivity].
      now destruct (log_file e). }
    assert (Hp : is_Some (fds (world st) !! fd) /\ handle_of st p <> Some fd).
    { revert Hopen. unfold cleanup_domain_entry, handle_of.
      destruct (pool st !! p) as [e|]; simpl; [| now split].
      destruct (log_file e) as [fd'|]; simpl; [| now split].
      rewrite fds_close.
      destruct (decide (fd' = fd)) as [->|Hne].
      - rewrite lookup_delete_eq. intros [x Hx]. discriminate.
      - rewrite lookup_delete_ne by auto. split; [assumption | congruence]. }
    destruct Hp as [Hopen' Hp]. split; [exact Hopen' |].
    intros q Hq. apply elem_of_cons in Hq as [-> | Hq]; [exact Hp |].
    rewrite <- Hh. now apply Hl.
Qed.

(** *** Shutdown and load *)

Lemma mod_logfile_domain_shutdown_unfold st h :
  globals_mutex st = true -> domain_hash st = Some h ->
  exists msg,
    mod_logfile_domain_shutdown st
    = Ret SWITCH_STATUS_SUCCESS
        (set_cache None (globals_cache_entries st)
           (foldl (fun st ptr => cleanup_domain_entry ptr st)
              (foldl close_entry_log
                 (set_logger_bound false
                    (switch_log_printf SWITCH_LOG_NOTICE msg st))
                 (hash_values h))
              (hash_values h))).
Proof.
  intros Hm Hh. eexists.
  unfold mod_logfile_domain_shutdown, bind, close_all_domain_logs,
    switch_core_hash_destroy.
  cbn. rewrite Hm, Hh. cbn.
  match goal with
  | |- context [foldl close_entry_log ?s ?l] =>
      destruct (same_cache_foldl close_entry_log l same_cache_close_entry s)
        as (A1 & A2 & A3 & _)
  end.
  cbn in A1, A3. rewrite A1, Hh, A3. reflexivity.
Qed.

(** After shutdown no descriptor is open and no entry that was cached
    has a handle. *)
Lemma mod_logfile_domain_shutdown_fds st status st' :
  cache_inv st -> fd_inv st ->
  mod_logfile_domain_shutdown st = Ret status st' ->
  fds (world st') = ∅ /\ fd_inv st' /\
  forall h d p, domain_hash st = Some h -> h !! d = Some p ->
    handle_of st' p = None.
Proof.
  intros Hc Hinv H.
  destruct (mod_logfile_domain_shutdown_ret _ _ _ H) as [Hm [h Hh]].
  destruct (mod_logfile_domain_shutdown_unfold st h Hm Hh) as [msg E].
  rewrite E in H. injection H as _ <-.
  set (st0 := set_logger_bound false (switch_log_printf SWITCH_LOG_NOTICE msg st)).
  assert (Hc0 : cache_inv st0).
  { apply (cache_inv_frame st); auto using pool_le_refl. }
  assert (Hinv0 : fd_inv st0) by now apply (fd_inv_same st).
  destruct (close_loop h (hash_values h) st0 Hc0 Hinv0 Hh) as (H1 & H2 & H3).
  { intros p Hp. now apply elem_of_hash_values. }
  set (st1 := foldl close_entry_log st0 (hash_values h)) in *.
  rewrite cleanup_loop_closed by exact H3.
  assert (Hh1 : domain_hash st1 = Some h).
  { destruct (same_cache_foldl close_entry_log (hash_values h)
                same_cache_close_entry st0) as (A1 & _).
    fold st1 in A1. now rewrite A1. }
  assert (Hno : forall fd, ~ cached_handle st1 fd).
  { intros fd (h0 & d & p & E1 & E2 & E3). rewrite Hh1 in E1. injection E1 as <-.
    rewrite H3 in E3; [discriminate |]. apply elem_of_hash_values. eauto. }
  assert (Hfds : fds (world st1) = ∅) by now apply fd_inv_no_handle.
  split; [exact Hfds |]. split.
  - apply fd_inv_empty; [exact Hfds |].
    intros fd (h0 & d & p & E1 & _). discriminate.
  - intros h0 d p Hh0 Hd. rewrite Hh in Hh0. injection Hh0 as <-.
    change (handle_of st1 p = None). apply H3, elem_of_hash_values. eauto.
Qed.

Lemma write_diagnostic_fds st :
  fds (world st) = ∅ -> fds (world (write_diagnostic st)) = ∅.
Proof.
  intros Hfds. unfold write_diagnostic.
  destruct (switch_file_open _ true (world st)) as [[diag|stat] w1] eqn:Ho.
  - apply open_fds_success in Ho as (-> & Hf1 & _).
    destruct (switch_file_write _ _ _ w1) as [r w2] eqn:Hw.
    apply write_fds in Hw as [Hf2 _]. simpl. rewrite fds_close.
    rewrite Hf2, Hf1, Hfds. rewrite delete_insert_eq. apply delete_empty.
  - apply open_fds_failure in Ho as [Hf1 _]. unfold fds in *. simpl. congruence.
Qed.

Lemma mod_logfile_domain_load_fds st status st' :
  fd_inv st -> mod_logfile_domain_load st = Ret status st' -> fd_inv st'.
Proof.
  intros Hinv H.
  destruct (mod_logfile_domain_load_spec st) as (st2 & E & Hh2 & _).
  assert (Hst : st2 = st') by congruence. subst st2. clear E.
  apply fd_inv_empty.
  2:{ intros fd (h & d & p & E1 & E2 & _). rewrite Hh2 in E1.
      injection E1 as <-. now rewrite lookup_empty in E2. }
  revert H. unfold mod_logfile_domain_load.
  set (st0 := set_globals true 0 st).
  assert (Hinv0 : fd_inv st0) by now apply (fd_inv_same st).
  assert (Hd : exists st1,
    match domain_hash st0 with
    | Some _ => switch_core_hash_destroy st0
    | None => Ret tt st0
    end = Ret tt st1 /\ fds (world st1) = ∅).
  { unfold switch_core_hash_destroy.
    destruct (domain_hash st0) as [h|] eqn:Hh.
    - eexists. split; [reflexivity |]. simpl.
      apply map_eq. intros fd. rewrite lookup_empty.
      match goal with
      | |- ?x = None => destruct x eqn:Hx; [| reflexivity]
      end.
      destruct (cleanup_loop_fds (hash_values h) st0 fd) as [Hopen Hl];
        [rewrite Hx; eauto |].
      apply (inv_open _ Hinv0) in Hopen as (h0 & d & p & E1 & E2 & E3).
      rewrite Hh in E1. injection E1 as <-.
      destruct (Hl p); [apply elem_of_hash_values; eauto | exact E3].
    - exists st0. split; [reflexivity |]. apply fd_inv_no_handle; [exact Hinv0 |].
      intros fd (h & d & p & E1 & _). congruence. }
  destruct Hd as (st1 & -> & Hfds1). cbv beta iota zeta.
  intros [= _ <-].
  match goal with
  | |- context [write_diagnostic ?s] =>
      change (fds (world (write_diagnostic s)) = ∅)
  end.
  apply write_diagnostic_fds. exact Hfds1.
Qed.

Lemma fd_inv_boot w : fds w = ∅ -> fd_inv (boot w).
Proof.
  intros Hfds. apply fd_inv_empty; [exact Hfds |].
  intros fd (h & d & p & E & _). discriminate.
Qed.

(** Every operation keeps the invariant of the descriptors. *)
Lemma run_op_fd_inv o st st' :
  cache_inv st -> fd_inv st -> run_op o st = Ret tt st' -> fd_inv st'.
Proof.
  intros Hc Hinv.
  destruct o as [| |node level|f o|src dst|node level|d l|d]; simpl.
  - intros H. apply discard_ret in H as [s H].
    eapply mod_logfile_domain_load_fds; eauto.
  - intros H. apply discard_ret in H as [s H].
    now apply mod_logfile_domain_shutdown_fds in H.
  - destruct (logger_bound st); [| now intros [= <-]].
    intros H. apply discard_ret in H as [s H].
    eapply mod_logfile_domain_logger_fd_inv; eauto.
  - intros [= <-].
    apply (fd_inv_same st); [exact Hinv | reflexivity | reflexivity | |].
    + exact (external_change_fds _ _ _).
    + exact (external_change_next_fd _ _ _).
  - intros [= <-].
    apply (fd_inv_same st); [exact Hinv | reflexivity | reflexivity | |].
    + exact (external_rename_fds _ _ _).
    + exact (external_rename_next_fd _ _ _).
  - intros H. apply discard_ret in H as [s H].
    eapply mod_logfile_domain_logger_fd_inv; eauto.
  - intros H. apply discard_ret in H as [s H].
    eapply write_domain_log_fd_inv; eauto.
  - intros H. apply discard_ret in H as [s H].
    eapply get_domain_entry_fd_inv; eauto.
Qed.

Lemma run_fd_inv ops st st' :
  cache_inv st -> fd_inv st -> run ops st = Ret tt st' -> fd_inv st'.
Proof.
  revert st; induction ops as [|o ops IH]; intros st Hc Hinv H.
  - now injection H as <-.
  - apply run_cons in H as (st1 & H1 & H2).
    eapply IH; [| | exact H2].
    + eapply run_op_inv; eauto.
    + eapply run_op_fd_inv; eauto.
Qed.

Lemma reachable_fd_inv ops w st :
  fds w = ∅ -> run ops (boot w) = Ret tt st -> fd_inv st.
Proof.
  intros Hfds. apply run_fd_inv; [apply cache_inv_boot | now apply fd_inv_boot].
Qed.

End Descriptors.

(** ** Shutdown *)

Section Shutdown.

Lemma events_unbound events st :
  logger_bound st = false -> forallb is_event events = true ->
  run events st = Ret tt st.
Proof.
  intros Hb. induction events as [|o events IH]; [reflexivity |].
  destruct o; try discriminate. simpl. intros He.
  unfold bind. rewrite Hb. now apply IH.
Qed.

(** C9. From every state the module reaches in which it is loaded,
    shutdown returns; afterwards no descriptor is open, every entry that
    was cached has lost its handle, the table is NULL and the logger is
    unbound.  Whatever events the host has after that, one or many, they
    do not reach the module: each is a no-op that leaves the state as
    shutdown left it. *)
Theorem shutdown_closes_every_handle
    (ops : list op) (w : World) (st : module_state) :
  fds w = ∅ -> run ops (boot w) = Ret tt st -> loaded st ->
  exists st',
    mod_logfile_domain_shutdown st = Ret SWITCH_STATUS_SUCCESS st' /\
    fds (world st') = ∅ /\
    (forall h d p, domain_hash st = Some h -> h !! d = Some p ->
       exists e', pool st' !! p = Some e' /\ log_file e' = None) /\
    domain_hash st' = None /\
    logger_bound st' = false /\
    (forall node level, run_op (OpEvent node level) st' = Ret tt st') /\
    (forall events, forallb is_event events = true ->
       run events st' = Ret tt st').
Proof.
  intros Hfds Hrun Hl.
  pose proof (reachable_inv _ _ _ Hrun) as Hc.
  pose proof (reachable_fd_inv _ _ _ Hfds Hrun) as Hinv.
  destruct (mod_logfile_domain_shutdown_spec st Hl)
    as (st' & E & Hh' & Hb' & Hc' & Hm' & Hdir & Hpool).
  destruct (mod_logfile_domain_shutdown_fds _ _ _ Hc Hinv E) as (Hfds' & _ & Hclosed).
  exists st'. split; [exact E |]. split; [exact Hfds' |].
  split; [| split; [exact Hh' | split; [exact Hb' |]]].
  { intros h d p Hh Hd.
    destruct (inv_entries _ Hc _ _ _ Hh Hd) as (e & Hp & _).
    destruct (Hpool _ _ Hp) as (e' & Hp' & _). exists e'. split; [exact Hp' |].
    specialize (Hclosed _ _ _ Hh Hd). unfold handle_of in Hclosed.
    now rewrite Hp' in Hclosed. }
  split.
  - intros node level. simpl. now rewrite Hb'.
  - intros events. now apply events_unbound.
Qed.

End Shutdown.

(** ** Evaluations on concrete inputs *)

Section Instances.

(** C1: the retried write is not checked.  The disk is full for the
    first write, the file reopens, and the disk is still full for the
    retried write: nothing reaches the file, and [write_domain_log]
    returns [SWITCH_STATUS_SUCCESS]. *)
Theorem retried_write_failure_returns_success :
  pool ex_disk_full !! 0%nat = Some ex_entry /\
  first_attempt_failed ex_entry "lost line" (world ex_disk_full) = Some ex_closed /\
  fst ex_reopened = inl 5%nat /\
  fst (switch_file_write 5 "lost line" (strlen "lost line") (snd ex_reopened))
  = (SWITCH_STATUS_ERRNO 28, 0) /\
  write_domain_log (Some "acme.com") (Some "lost line") ex_disk_full
  = Ret SWITCH_STATUS_SUCCESS ex_after_write /\
  files (world ex_after_write) = files (world ex_disk_full).
Proof.
  split; [vm_compute; reflexivity |].
  split; [vm_compute; reflexivity |].
  split; [vm_compute; reflexivity |].
  split; [vm_compute; reflexivity |].
  split; vm_compute; reflexivity.
Qed.

(** C5 fails on the channel: a variable of 300 characters is the key,
    whole. *)
Lemma channel_key_is_not_truncated :
  ~ (forall channel key, extract_domain channel = Some key ->
       (String.length key <= 127)%nat).
Proof.
  intros H. specialize (H (Some ex_long_channel) ex_long_key).
  assert (Hk : extract_domain (Some ex_long_channel) = Some ex_long_key)
    by (vm_compute; reflexivity).
  specialize (H Hk).
  assert (Hlen : String.length ex_long_key = 300%nat) by (vm_compute; reflexivity).
  rewrite Hlen in H. lia.
Qed.

(** The examples of the specification for the text scan. *)
Example text_scan_domain_name :
  extract_domain_from_msg (Some "... domain_name=example.com more text")
  = Some "example.com".
Proof. reflexivity. Qed.

Example text_scan_tab :
  extract_domain_from_msg (Some ("domain=foo" +:+ String "009"%char "bar"))
  = Some "foo".
Proof. reflexivity. Qed.

Example text_scan_no_marker :
  extract_domain_from_msg (Some "no marker here") = None.
Proof. reflexivity. Qed.

(** The copy loop does not test [isprint]: a control character after the
    marker is captured. *)
Example capture_takes_control_character :
  extract_domain_from_msg (Some ex_control_msg)
  = Some ("a" +:+ String "001"%char "b").
Proof. reflexivity. Qed.

End Instances.

(** ** The theorems applied to the example inputs *)

Section Applications.

(** Two equations that let a large state be named without being
    written out. *)
Lemma ret_state_of {A} (r : result A) (a : A) :
  result_value r = Some a -> r = Ret a (state_of r).
Proof. destruct r; simpl; [now intros [= ->] | discriminate]. Qed.

Lemma some_default {A} (o : option A) (d : A) :
  match o with Some _ => true | None => false end = true ->
  o = Some (default d o).
Proof. now destruct o. Qed.

Lemma ex_cached_reached :
  run [OpLoad; OpGet (Some "acme.com")] (boot ex_world) = Ret tt ex_cached.
Proof. vm_compute; reflexivity. Qed.

Lemma ex_cached_loaded : loaded ex_cached.
Proof.
  split; [vm_compute; reflexivity |].
  exists (default ∅ (domain_hash ex_cached)). vm_compute; reflexivity.
Qed.

Lemma full_cache_rejects_witness :
  exists st',
    get_domain_entry (Some "new.example") ex_full = Ret None st' /\
    domain_hash st' = Some ex_full_hash /\
    pool st' = pool ex_full /\
    globals_cache_entries st' = globals_cache_entries ex_full /\
    fds (world st') = fds (world ex_full) /\
    files (world st') = files (world ex_full) /\
    console (world st')
    = (console (world ex_full) ++ [(SWITCH_LOG_WARNING, cache_full_warning)])%list.
Proof.
  assert (Hrun : run ex_fill (boot ex_world) = Ret tt ex_full)
    by (unfold ex_full; apply ret_state_of; vm_compute; reflexivity).
  assert (Hh : domain_hash ex_full = Some ex_full_hash)
    by (unfold ex_full_hash; apply some_default; vm_compute; reflexivity).
  assert (Hsize : size ex_full_hash = 256%nat) by (vm_compute; reflexivity).
  assert (Hd : ex_full_hash !! "new.example" = None) by (vm_compute; reflexivity).
  exact (proj2 (proj2 (proj2
           (full_cache_rejects_without_eviction ex_fill ex_world ex_full
              ex_full_hash "new.example" Hrun) Hh)) Hsize Hd eq_refl).
Defined.

Lemma get_domain_entry_same_entry_witness :
  get_domain_entry (Some "acme.com") ex_later = Ret (Some 0%nat) ex_later.
Proof.
  assert (H0 : run [OpLoad] (boot ex_world) = Ret tt ex_loaded)
    by (vm_compute; reflexivity).
  assert (H1 : get_domain_entry (Some "acme.com") ex_loaded
               = Ret (Some 0%nat) ex_cached) by (vm_compute; reflexivity).
  assert (H2 : forallb (fun o => negb (is_lifecycle o)) ex_events = true)
    by reflexivity.
  assert (H3 : run ex_events ex_cached = Ret tt ex_later)
    by (vm_compute; reflexivity).
  exact (proj1 (get_domain_entry_same_entry [OpLoad] ex_events ex_world
                  ex_loaded ex_cached ex_later (Some "acme.com") 0%nat
                  H0 H1 H2 H3)).
Defined.


Lemma domain_key_bounds_witness :
  (String.length (string_of_list_ascii (repeat "b"%char 127)) <= 127)%nat /\
  String.length ex_wide_key = 200%nat /\
  extract_domain (Some ex_wide_channel) = Some ex_wide_key /\
  extract_domain (Some ex_wide_channel_domain) = Some ex_wide_key /\
  exists h' e,
    domain_hash ex_wide_cached = Some h' /\ h' !! ex_wide_key = Some 0%nat /\
    pool ex_wide_cached !! 0%nat = Some e /\
    domain e = str_take 127 ex_wide_key /\
    (String.length (domain e) <= 127)%nat /\
    (String.length (logfile_path e) <= 511)%nat.
Proof.
  pose proof (domain_key_bounds [OpLoad] ex_world ex_loaded ex_wide_cached
                (Some ex_long_msg) ex_wide_channel ex_wide_key ex_wide_key
                (string_of_list_ascii (repeat "b"%char 127)) 0%nat)
    as (H1 & H2 & _ & H4).
  pose proof (domain_key_bounds [OpLoad] ex_world ex_loaded ex_wide_cached
                (Some ex_long_msg) ex_wide_channel_domain ex_wide_key ex_wide_key
                (string_of_list_ascii (repeat "b"%char 127)) 0%nat)
    as (_ & _ & H3 & _).
  split; [apply H1; vm_compute; reflexivity |].
  split; [vm_compute; reflexivity |].
  split; [apply H2; vm_compute; reflexivity |].
  split; [apply H3; vm_compute; reflexivity |].
  apply H4.
  - unfold ex_loaded. apply ret_state_of. vm_compute. reflexivity.
  - unfold ex_wide_cached. apply ret_state_of. vm_compute. reflexivity.
Defined.

Lemma capture_takes_non_printable_witness :
  extract_domain_from_msg (Some ex_control_msg)
  = Some ("a" +:+ String "001"%char "b") /\
  non_empty (span_while key_char ("a" +:+ String "001"%char "b")) = Some "a" /\
  extract_domain_from_msg (Some ex_control_msg)
  <> non_empty (span_while key_char ("a" +:+ String "001"%char "b")).
Proof.
  assert (Hm : marker_found ex_control_msg
                 (str_drop (0 + String.length "domain=") ex_control_msg))
    by (apply (found_domain ex_control_msg 0); vm_compute; reflexivity).
  destruct (capture_takes_non_printable _ _ Hm) as (_ & H).
  destruct H as (H1 & _ & _ & H4); [vm_compute; reflexivity |].
  split; [exact H1 |]. split; [reflexivity | exact H4].
Defined.

Lemma text_capture_witness :
  extract_domain_from_msg (Some ex_long_msg)
  = non_empty (str_take 127 (span_while key_char
                 (str_drop (0 + String.length "domain=") ex_long_msg))).
Proof.
  apply text_capture_is_capped_key_run.
  - apply (found_domain ex_long_msg 0); vm_compute; reflexivity.
  - vm_compute; reflexivity.
Defined.

Lemma ex_disk_full_contract : failed_write_reports_zero (world ex_disk_full).
Proof.
  unfold failed_write_reports_zero.
  assert (E : oracle (world ex_disk_full) = [enospc; reply_ok; enospc])
    by (vm_compute; reflexivity).
  rewrite E. repeat apply Forall_cons_2; try apply Forall_nil_2; simpl;
    intros; try discriminate; lia.
Qed.

Lemma written_bytes_accounting_witness :
  exists status st' e',
    write_entry 0 "lost line" ex_disk_full = Ret status st' /\
    pool st' !! 0%nat = Some e' /\
    ((exists fd n,
        log_file ex_entry = Some fd /\
        fst (switch_file_write fd "lost line" (strlen "lost line")
               (world ex_disk_full))
        = (SWITCH_STATUS_SUCCESS, n) /\
        status = SWITCH_STATUS_SUCCESS /\
        log_file e' = Some fd /\
        log_size e' = wrap_size (log_size ex_entry + n) /\
        n = switch_file_get_size fd (world st')
            - switch_file_get_size fd (world ex_disk_full)) \/
     (exists w_c stat w,
        first_attempt_failed ex_entry "lost line" (world ex_disk_full) = Some w_c /\
        switch_file_open (logfile_path ex_entry) false w_c = (inr stat, w) /\
        status = SWITCH_STATUS_FALSE /\
        log_file e' = None /\
        log_size e' = log_size ex_entry) \/
     (exists w_c fd2 w2 s2 n2,
        first_attempt_failed ex_entry "lost line" (world ex_disk_full) = Some w_c /\
        switch_file_open (logfile_path ex_entry) false w_c = (inl fd2, w2) /\
        fst (switch_file_write fd2 "lost line" (strlen "lost line") w2) = (s2, n2) /\
        status = SWITCH_STATUS_SUCCESS /\
        log_file e' = Some fd2 /\
        log_size e' = wrap_size (switch_file_get_size fd2 w2 + n2) /\
        n2 = switch_file_get_size fd2 (world st')
             - switch_file_get_size fd2 w2 /\
        (s2 <> SWITCH_STATUS_SUCCESS -> n2 = 0))).
Proof.
  assert (H1 : pool ex_disk_full !! 0%nat = Some ex_entry)
    by (vm_compute; reflexivity).
  assert (H2 : file_lock ex_entry = true) by (vm_compute; reflexivity).
  exact (written_bytes_accounting 0 ex_entry "lost line" ex_disk_full
           H1 H2 ex_disk_full_contract).
Defined.

Lemma logger_always_succeeds_witness :
  exists st',
    mod_logfile_domain_logger (Some (ex_node (Some ex_channel))) SWITCH_LOG_INFO
      ex_cached
    = Ret SWITCH_STATUS_SUCCESS st'.
Proof.
  exact (logger_always_succeeds [OpLoad; OpGet (Some "acme.com")] ex_world
           ex_cached (Some (ex_node (Some ex_channel))) SWITCH_LOG_INFO
           ex_cached_reached ex_cached_loaded).
Defined.

Lemma shutdown_closes_every_handle_witness :
  exists st',
    mod_logfile_domain_shutdown ex_cached = Ret SWITCH_STATUS_SUCCESS st' /\
    fds (world st') = ∅ /\
    (forall h d p, domain_hash ex_cached = Some h -> h !! d = Some p ->
       exists e', pool st' !! p = Some e' /\ log_file e' = None) /\
    domain_hash st' = None /\
    logger_bound st' = false /\
    (forall node level, run_op (OpEvent node level) st' = Ret tt st') /\
    (forall events, forallb is_event events = true ->
       run events st' = Ret tt st').
Proof.
  exact (shutdown_closes_every_handle [OpLoad; OpGet (Some "acme.com")]
           ex_world ex_cached eq_refl ex_cached_reached ex_cached_loaded).
Defined.

Lemma no_rendering_witness :
  render_message (switch_log_node_render_ptr ex_cached)
    (ex_node (Some ex_channel)) = EmptyString /\
  mod_logfile_domain_logger (Some (ex_node None)) SWITCH_LOG_INFO ex_cached
  = Ret SWITCH_STATUS_SUCCESS ex_cached /\
  mod_logfile_domain_logger (Some (ex_node (Some ex_channel))) SWITCH_LOG_INFO
    ex_cached
  = (_ <- write_domain_log (Some "acme.com")
            (Some ("2024-05-01 12:00:00 [INFO] [switch_core_session.c:run:42] "
                   +:+ "(message) [4f1c]" +:+ nl)) ;;
     ret SWITCH_STATUS_SUCCESS) ex_cached /\
  file_content (world ex_cached) ex_log_path = "" /\
  file_content (world ex_logged) ex_log_path
  = "2024-05-01 12:00:00 [INFO] [switch_core_session.c:run:42] "
    +:+ "(message) [4f1c]" +:+ nl.
Proof.
  assert (Hptr : switch_log_node_render_ptr ex_cached = None)
    by (vm_compute; reflexivity).
  split; [| split; [| split]].
  - apply (no_rendering_no_text_fallback (ex_node (Some ex_channel))
             SWITCH_LOG_INFO ex_cached ""). now left.
  - apply (no_rendering_no_text_fallback (ex_node None)
             SWITCH_LOG_INFO ex_cached ""); [now left | reflexivity].
  - destruct (no_rendering_no_text_fallback (ex_node (Some ex_channel))
                SWITCH_LOG_INFO ex_cached "acme.com") as (_ & _ & _ & H);
      [now left |].
    destruct H as (channel & Hc & H); [reflexivity | reflexivity |].
    injection Hc as <-. exact H.
  - split; vm_compute; reflexivity.
Defined.

End Applications.

(** * Further properties of the module *)

Arguments fds : simpl never.

(** ** What the file operations do to the files *)

Section Files.

Lemma append_empty_r (s : string) : s +:+ "" = s.
Proof.
  induction s as [|c s IH]; [reflexivity |].
  change (String c s +:+ "") with (String c (s +:+ "")). now rewrite IH.
Qed.

(** The parts of the world a setter leaves alone. *)
Lemma fds_set_console c w : fds (set_console c w) = fds w.
Proof. reflexivity. Qed.

Lemma fds_set_oracle o w : fds (set_oracle o w) = fds w.
Proof. reflexivity. Qed.

Lemma fds_set_files f w : fds (set_files f w) = fds w.
Proof. reflexivity. Qed.

(** A refused open changes nothing but the replies to come. *)
Lemma open_failure path trunc w stat w' :
  switch_file_open path trunc w = (inr stat, w') ->
  w' = set_oracle (tail (oracle w)) w.
Proof.
  unfold switch_file_open, open_ok. destruct (oracle w) as [|rep rest].
  { discriminate. }
  destruct (is_success _); [discriminate | now intros [= _ <-]].
Qed.

(** A descriptor that was just opened is at its path. *)
Lemma open_fd_table path trunc w fd w' :
  switch_file_open path trunc w = (inl fd, w') ->
  fd = next_fd w /\ fd_table w' = <[fd := (path, AtPath path)]> (fd_table w).
Proof.
  unfold switch_file_open, open_ok.
  destruct (oracle w) as [|rep rest];
    [| destruct (is_success _); [| discriminate]]; now intros [= <- <-].
Qed.

(** The size of the file of a descriptor that is still at its path. *)
Lemma get_size_attached fd w path :
  fd_table w !! fd = Some (path, AtPath path) ->
  switch_file_get_size fd w = strlen (default "" (files w !! path)).
Proof. intros Hfd. unfold switch_file_get_size, strlen. now rewrite Hfd. Qed.

Lemma open_files path w r w' :
  switch_file_open path false w = (r, w') ->
  (forall q, q <> path -> files w' !! q = files w !! q) /\
  (forall q, file_content w' q = file_content w q) /\
  (healthy w -> healthy w' /\ r = inl (next_fd w)) /\
  (forall fd, r = inl fd ->
     files w' !! path = Some (file_content w path) /\ fds w' !! fd = Some path).
Proof.
  unfold switch_file_open, open_ok, healthy, file_content.
  assert (Hc : forall (f : gmap string string) q,
            default "" (<[path := default "" (f !! path)]> f !! q)
            = default "" (f !! q)).
  { intros f q. destruct (decide (path = q)) as [<-|Hne].
    - now rewrite lookup_insert_eq.
    - now rewrite lookup_insert_ne. }
  destruct (oracle w) as [|rep rest] eqn:Ho.
  - intros [= <- <-]. simpl. split; [| split; [| split]].
    + intros q Hq. now rewrite lookup_insert_ne.
    + intros q. apply Hc.
    + intros _. split; [exact Ho | reflexivity].
    + intros fd0 [= <-]. split; [apply lookup_insert_eq |].
      unfold fds. simpl. now rewrite fmap_insert, lookup_insert_eq.
  - destruct (is_success _); intros [= <- <-]; simpl;
      (split; [| split; [| split]]); try discriminate; try reflexivity.
    + intros q Hq. now rewrite lookup_insert_ne.
    + intros q. apply Hc.
    + intros fd0 [= <-]. split; [apply lookup_insert_eq |].
      unfold fds. simpl. now rewrite fmap_insert, lookup_insert_eq.
Qed.

(** A write on a descriptor that is not open changes nothing. *)
Lemma write_closed fd data n w r w' :
  fd_table w !! fd = None -> switch_file_write fd data n w = (r, w') ->
  w' = w /\ r = (SWITCH_STATUS_ERRNO 9, 0).
Proof.
  intros Hfd. unfold switch_file_write. rewrite Hfd. now intros [= <- <-].
Qed.

(** What a write does: it appends to the file the descriptor refers to,
    where that file is now. *)
Lemma write_disk fd data w p l s m w' :
  fd_table w !! fd = Some (p, l) ->
  switch_file_write fd data (strlen data) w = ((s, m), w') ->
  fds w' = fds w /\ next_fd w' = next_fd w /\
  (exists k, (k <= String.length data)%nat /\
     (s = SWITCH_STATUS_SUCCESS -> Z.of_nat k = m) /\
     (s <> SWITCH_STATUS_SUCCESS ->
        k = 0%nat /\ files w' = files w /\ fd_table w' = fd_table w) /\
     match l with
     | AtPath q =>
         fd_table w' = fd_table w /\
         (forall q', q' <> q -> files w' !! q' = files w !! q') /\
         file_content w' q = file_content w q +:+ str_take k data /\
         (s = SWITCH_STATUS_SUCCESS ->
            files w' !! q = Some (file_content w q +:+ str_take k data))
     | Unlinked c =>
         files w' = files w /\
         fd_table w' !! fd = Some (p, Unlinked (c +:+ str_take k data)) /\
         (forall fd', fd' <> fd -> fd_table w' !! fd' = fd_table w !! fd')
     end) /\
  (healthy w -> healthy w' /\ s = SWITCH_STATUS_SUCCESS /\ m = strlen data).
Proof.
  intros Hfd. unfold switch_file_write, healthy, file_content, strlen.
  rewrite Hfd.
  set (r := default _ (head (oracle w))).
  set (n := Z.max 0 (Z.min (Z.of_nat (String.length data)) (reply_nbytes r))).
  destruct (is_success (reply_status r)) eqn:Hs.
  - intros [= <- <- <-]. unfold append_at. destruct l as [q|c]; simpl.
    + split; [reflexivity |]. split; [reflexivity |]. split.
      * exists (Z.to_nat n). split; [subst n; lia |].
        split; [intros _; subst n; lia |]. split; [congruence |].
        split; [reflexivity |].
        split; [intros q' Hq; now rewrite lookup_insert_ne |].
        rewrite lookup_insert_eq. simpl. split; reflexivity.
      * intros Ho. split; [now rewrite Ho |]. split; [reflexivity |].
        subst n r. rewrite Ho. simpl. lia.
    + split; [exact (fst_insert_same _ _ (p, Unlinked c) _ Hfd) |].
      split; [reflexivity |]. split.
      * exists (Z.to_nat n). split; [subst n; lia |].
        split; [intros _; subst n; lia |]. split; [congruence |].
        split; [reflexivity |]. split; [apply lookup_insert_eq |].
        intros fd' Hne. now rewrite lookup_insert_ne by auto.
      * intros Ho. split; [now rewrite Ho |]. split; [reflexivity |].
        subst n r. rewrite Ho. simpl. lia.
  - intros [= <- <- <-]. simpl. split; [reflexivity |]. split; [reflexivity |].
    split.
    + exists 0%nat. split; [lia |]. split.
      { intros E. subst r. destruct (reply_status _); simpl in Hs; congruence. }
      split; [auto |].
      destruct l as [q|c]; simpl; rewrite !append_empty_r;
        [| split; [reflexivity |]; split; [exact Hfd | auto]].
      split; [reflexivity |]. split; [reflexivity |]. split; [reflexivity |].
      intros E. subst r. destruct (reply_status _); simpl in Hs; congruence.
    + intros Ho. subst r. rewrite Ho in Hs. discriminate.
Qed.

(** The write as the paths show it, for a descriptor whose file is
    still where it was opened. *)
Lemma write_files fd data w path s m w' :
  fd_table w !! fd = Some (path, AtPath path) ->
  switch_file_write fd data (strlen data) w = ((s, m), w') ->
  fds w' = fds w /\ next_fd w' = next_fd w /\ fd_table w' = fd_table w /\
  (forall q, q <> path -> files w' !! q = files w !! q) /\
  (exists k, (k <= String.length data)%nat /\
     file_content w' path = file_content w path +:+ str_take k data /\
     (s = SWITCH_STATUS_SUCCESS -> Z.of_nat k = m /\
        files w' !! path = Some (file_content w path +:+ str_take k data)) /\
     (s <> SWITCH_STATUS_SUCCESS -> k = 0%nat /\ files w' = files w)) /\
  (healthy w -> healthy w' /\ s = SWITCH_STATUS_SUCCESS /\ m = strlen data).
Proof.
  intros Hfd Hw.
  destruct (write_disk _ _ _ _ _ _ _ _ Hfd Hw)
    as (Hf & Hn & (k & Hk & Hs & Hfail & Ht & Hother & Hc & Hsome) & Hh).
  split; [exact Hf |]. split; [exact Hn |]. split; [exact Ht |].
  split; [exact Hother |]. split; [| exact Hh].
  exists k. split; [exact Hk |]. split; [exact Hc |]. split.
  - intros E. split; auto.
  - intros E. destruct (Hfail E) as (-> & Hfiles & _). now split.
Qed.

(** Whatever a write does, every path keeps its content in front, and
    no path but the one the file of the descriptor is at changes. *)
Lemma write_appends fd data w r w' q :
  switch_file_write fd data (strlen data) w = (r, w') ->
  exists k, (k <= String.length data)%nat /\
    file_content w' q = file_content w q +:+ str_take k data.
Proof.
  intros Hw. destruct r as [s m].
  destruct (fd_table w !! fd) as [[p l]|] eqn:Hfd.
  - destruct (write_disk _ _ _ _ _ _ _ _ Hfd Hw)
      as (_ & _ & (k & Hk & _ & _ & Hl) & _).
    destruct l as [q0|c].
    + destruct Hl as (_ & Hother & Hc & _).
      destruct (decide (q = q0)) as [->|Hne].
      * exists k. split; [exact Hk | exact Hc].
      * exists 0%nat. split; [lia |]. simpl. rewrite append_empty_r.
        unfold file_content. now rewrite Hother.
    + destruct Hl as (Hfiles & _). exists 0%nat. split; [lia |]. simpl.
      rewrite append_empty_r. unfold file_content. now rewrite Hfiles.
  - destruct (write_closed _ _ _ _ _ _ Hfd Hw) as [-> _].
    exists 0%nat. split; [lia |]. simpl. now rewrite append_empty_r.
Qed.

End Files.

Ltac world_simpl :=
  rewrite ?fds_set_console, ?fds_set_oracle, ?fds_set_files, ?fds_close.

(** ** Handles and paths *)

Section Paths.

Lemma path_inv_no_entry st :
  (forall h d p, domain_hash st = Some h -> h !! d <> Some p) -> path_inv st.
Proof. intros Hno h d p e fd Hh Hd. now destruct (Hno h d p Hh). Qed.

Lemma path_inv_same_state st st' :
  path_inv st -> domain_hash st' = domain_hash st -> pool st' = pool st ->
  fds (world st') = fds (world st) -> path_inv st'.
Proof.
  intros Hinv Hh Hp Hf h d p e fd. rewrite Hh, Hp, Hf. apply Hinv.
Qed.

Lemma path_inv_printf st level msg :
  path_inv st -> path_inv (switch_log_printf level msg st).
Proof. intros H. now apply (path_inv_same_state st). Qed.

(** The handle of another cached entry is neither the handle of [p] nor
    the next descriptor. *)
Lemma other_handle st h d p fd d0 p0 e0 fd0 :
  fd_inv st -> path_inv st -> domain_hash st = Some h ->
  h !! d = Some p -> h !! d0 = Some p0 -> p0 <> p ->
  pool st !! p0 = Some e0 -> log_file e0 = Some fd0 ->
  fds (world st) !! fd0 = Some (logfile_path e0) /\
  fd0 <> next_fd (world st) /\
  (handle_of st p = Some fd -> fd0 <> fd).
Proof.
  intros Hfd Hpath Hh Hd Hd0 Hne Hp0 Hf0.
  pose proof (Hpath _ _ _ _ _ Hh Hd0 Hp0 Hf0) as Hopen.
  split; [exact Hopen |]. split.
  - intros ->. assert (Hs : is_Some (fds (world st) !! next_fd (world st))) by eauto.
    apply (inv_fresh _ Hfd) in Hs. lia.
  - intros Hp ->. apply Hne.
    eapply (inv_handle_inj _ Hfd h d0 d); eauto.
    unfold handle_of. now rewrite Hp0.
Qed.

Lemma write_entry_path_inv st h d p e data status st' :
  fd_inv st -> path_inv st -> domain_hash st = Some h -> h !! d = Some p ->
  pool st !! p = Some e -> file_lock e = true ->
  write_entry p data st = Ret status st' ->
  path_inv st'.
Proof.
  intros Hfd Hpath Hh Hd Hp Hl Hw.
  assert (Hlt : (p < length (pool st))%nat) by (eapply lookup_lt_Some, Hp).
  destruct (write_entry_cases p e data st Hp Hl)
    as [(fd & n & w1 & Hf & Hw1 & E)
       |[(w_c & stat & w & msg & Hfirst & Ho & E)
        |(w_c & fd2 & w2 & s2 & n2 & w3 & Hfirst & Ho & Hw2 & E)]];
    rewrite E in Hw; injection Hw as _ <-;
    intros h0 d0 p0 e0 fd0 Hh0 Hd0 Hp0 Hf0; simpl in Hh0, Hp0 |- *;
    world_simpl; rewrite Hh in Hh0; injection Hh0 as <-.
  - apply write_fds in Hw1 as [-> _].
    destruct (decide (p0 = p)) as [->|Hne].
    + rewrite list_lookup_insert_eq in Hp0 by exact Hlt. injection Hp0 as <-.
      simpl in *. eapply Hpath; eauto.
    + rewrite list_lookup_insert_ne in Hp0 by auto. eapply Hpath; eauto.
  - apply open_fds_failure in Ho as [-> _].
    apply first_attempt_failed_fds in Hfirst as [-> _].
    destruct (decide (p0 = p)) as [->|Hne].
    + rewrite list_lookup_insert_eq in Hp0 by exact Hlt. injection Hp0 as <-.
      discriminate.
    + rewrite list_lookup_insert_ne in Hp0 by auto.
      destruct (other_handle st h d p (default 0%nat (log_file e)) d0 p0 e0 fd0)
        as (Hopen & _ & Hfdne); auto.
      destruct (log_file e) as [fd|] eqn:Hf; [| exact Hopen].
      rewrite lookup_delete_ne; [exact Hopen |].
      intros ->. apply Hfdne; [| reflexivity].
      unfold handle_of. now rewrite Hp.
  - apply open_fds_success in Ho as (-> & Hfds2 & _).
    apply write_fds in Hw2 as [-> _]. rewrite Hfds2.
    apply first_attempt_failed_fds in Hfirst as [-> Hn].
    destruct (decide (p0 = p)) as [->|Hne].
    + rewrite list_lookup_insert_eq in Hp0 by exact Hlt. injection Hp0 as <-.
      simpl in *. injection Hf0 as <-. apply lookup_insert_eq.
    + rewrite list_lookup_insert_ne in Hp0 by auto.
      destruct (other_handle st h d p (default 0%nat (log_file e)) d0 p0 e0 fd0)
        as (Hopen & Hfresh & Hfdne); auto.
      rewrite lookup_insert_ne by (rewrite Hn; auto).
      destruct (log_file e) as [fd|] eqn:Hf; [| exact Hopen].
      rewrite lookup_delete_ne; [exact Hopen |].
      intros ->. apply Hfdne; [| reflexivity].
      unfold handle_of. now rewrite Hp.
Qed.

Lemma lookup_app_new (pl : list domain_cache_entry_t) new q e :
  (pl ++ [new])%list !! q = Some e -> q <> length pl -> pl !! q = Some e.
Proof.
  intros H Hne. destruct (decide (q < length pl)%nat) as [Hlt|Hge].
  - now rewrite lookup_app_l in H.
  - rewrite lookup_ge_None_2 in H; [discriminate |].
    rewrite length_app. simpl. lia.
Qed.

Lemma get_domain_entry_path_inv domain st r st' :
  fd_inv st -> path_inv st ->
  get_domain_entry domain st = Ret r st' -> path_inv st'.
Proof.
  intros Hfd Hpath. unfold get_domain_entry.
  destruct domain as [d|]; [| now intros [= _ <-]].
  destruct (zstr (Some d)); [now intros [= _ <-] |].
  destruct (globals_mutex st); [| discriminate]. simpl.
  destruct (domain_hash st) as [h|] eqn:Hh; [| discriminate].
  destruct (h !! d) as [p|] eqn:Hd; [now intros [= _ <-] |].
  destruct (MAX_DOMAIN_CACHE_SIZE <=? globals_cache_entries st).
  { intros [= _ <-]. now apply path_inv_printf. }
  set (new := new_domain_entry (log_dir (world st)) d).
  set (st1 := set_pool (pool st ++ [new])%list st).
  assert (Hp1 : pool st1 !! length (pool st) = Some new).
  { simpl. rewrite lookup_app_r by lia. now rewrite Nat.sub_diag. }
  assert (Hold : forall d0 p0 e0 fd0, h !! d0 = Some p0 ->
            pool st !! p0 = Some e0 -> log_file e0 = Some fd0 ->
            fds (world st) !! fd0 = Some (logfile_path e0) /\
            fd0 <> next_fd (world st)).
  { intros d0 p0 e0 fd0 Hd0 Hp0 Hf0.
    pose proof (Hpath _ _ _ _ _ Hh Hd0 Hp0 Hf0) as Hopen. split; [exact Hopen |].
    intros ->. assert (Hs : is_Some (fds (world st) !! next_fd (world st))) by eauto.
    apply (inv_fresh _ Hfd) in Hs. lia. }
  destruct (switch_file_open (logfile_path new) false (world st1))
    as [[afd|stat] w] eqn:Ho.
  - rewrite (open_domain_logfile_success _ _ _ _ _ Hp1 Ho).
    intros [= _ <-]. apply path_inv_printf.
    apply open_fds_success in Ho as (-> & Hfds & Hn).
    intros h0 d0 p0 e0 fd0 Hh0 Hd0 Hp0 Hf0. simpl in Hh0, Hp0 |- *.
    injection Hh0 as <-. rewrite Hfds.
    destruct (decide (p0 = length (pool st))) as [->|Hne].
    + rewrite list_lookup_insert_eq in Hp0 by (rewrite length_app; simpl; lia).
      injection Hp0 as <-. simpl in *. injection Hf0 as <-.
      apply lookup_insert_eq.
    + rewrite list_lookup_insert_ne in Hp0 by auto.
      apply lookup_app_new in Hp0; [| exact Hne].
      assert (Hd0' : h !! d0 = Some p0).
      { destruct (decide (d = d0)) as [<-|Hned].
        - rewrite lookup_insert_eq in Hd0. congruence.
        - now rewrite lookup_insert_ne in Hd0. }
      destruct (Hold _ _ _ _ Hd0' Hp0 Hf0) as [Hopen Hfresh].
      rewrite lookup_insert_ne by auto. exact Hopen.
  - destruct (open_domain_logfile_failure _ _ _ _ _ Hp1 Ho) as [msg ->].
    intros [= _ <-]. apply path_inv_printf.
    apply open_fds_failure in Ho as [Hfds Hn].
    intros h0 d0 p0 e0 fd0 Hh0 Hd0 Hp0 Hf0. simpl in Hh0, Hp0 |- *.
    rewrite Hh in Hh0. injection Hh0 as <-. rewrite Hfds.
    destruct (decide (p0 = length (pool st))) as [->|Hne].
    + rewrite lookup_app_r in Hp0 by lia. rewrite Nat.sub_diag in Hp0.
      injection Hp0 as <-. discriminate.
    + apply lookup_app_new in Hp0; [| exact Hne].
      now destruct (Hold _ _ _ _ Hd0 Hp0 Hf0).
Qed.

Lemma write_domain_log_path_inv domain log_data st status st' :
  cache_inv st -> fd_inv st -> path_inv st ->
  write_domain_log domain log_data st = Ret status st' -> path_inv st'.
Proof.
  intros Hc Hfd Hpath. unfold write_domain_log.
  destruct domain as [d|]; [| now intros [= _ <-]].
  destruct log_data as [data|]; [| now intros [= _ <-]].
  unfold bind. destruct (get_domain_entry (Some d) st) as [r st1|] eqn:Hget;
    [| discriminate].
  pose proof (get_domain_entry_fd_inv _ _ _ _ Hfd Hget) as Hfd1.
  pose proof (get_domain_entry_path_inv _ _ _ _ Hfd Hpath Hget) as Hpath1.
  apply get_domain_entry_ret in Hget as (_ & Hc1 & Hr).
  destruct r as [p|].
  - destruct (Hr p eq_refl) as (d' & h' & [= <-] & _ & Hh' & Hd').
    destruct (inv_entries _ (Hc1 Hc) _ _ _ Hh' Hd') as (e & Hp & Hs).
    assert (Hlock : file_lock e = true).
    { unfold entry_static in Hs. now injection Hs. }
    intros Hw. eapply write_entry_path_inv; eauto.
  - intros [= _ <-]. now apply path_inv_printf.
Qed.

Lemma mod_logfile_domain_logger_path_inv node level st status st' :
  cache_inv st -> fd_inv st -> path_inv st ->
  mod_logfile_domain_logger node level st = Ret status st' -> path_inv st'.
Proof.
  intros Hc Hfd Hpath. unfold mod_logfile_domain_logger.
  destruct node as [node|]; [| now intros [= _ <-]].
  destruct (is_internal node); [now intros [= _ <-] |].
  destruct (negb (zstr _)); [| now intros [= _ <-]].
  unfold bind.
  match goal with
  | |- context [write_domain_log ?d ?l st] =>
      destruct (write_domain_log d l st) as [s st1|] eqn:Hw; [| discriminate]
  end.
  intros [= _ <-]. eapply write_domain_log_path_inv; eauto.
Qed.

Lemma run_op_path_inv o st st' :
  cache_inv st -> fd_inv st -> path_inv st ->
  run_op o st = Ret tt st' -> path_inv st'.
Proof.
  intros Hc Hfd Hpath.
  destruct o as [| |node level|f o|src dst|node level|d l|d]; simpl.
  - intros H. apply discard_ret in H as [s H].
    destruct (mod_logfile_domain_load_spec st) as (st2 & E & Hh2 & _).
    rewrite E in H. injection H as _ <-.
    apply path_inv_no_entry. intros h d p Hh. rewrite Hh2 in Hh.
    injection Hh as <-. now rewrite lookup_empty.
  - intros H. apply discard_ret in H as [s H].
    pose proof (mod_logfile_domain_shutdown_ret _ _ _ H) as Hl.
    destruct (mod_logfile_domain_shutdown_spec st Hl) as (st2 & E & Hh2 & _).
    rewrite E in H. injection H as _ <-.
    apply path_inv_no_entry. intros h d p Hh. congruence.
  - destruct (logger_bound st); [| now intros [= <-]].
    intros H. apply discard_ret in H as [s H].
    eapply mod_logfile_domain_logger_path_inv; eauto.
  - intros [= <-].
    apply (path_inv_same_state st); [exact Hpath | reflexivity | reflexivity |].
    exact (external_change_fds _ _ _).
  - intros [= <-].
    apply (path_inv_same_state st); [exact Hpath | reflexivity | reflexivity |].
    exact (external_rename_fds _ _ _).
  - intros H. apply discard_ret in H as [s H].
    eapply mod_logfile_domain_logger_path_inv; eauto.
  - intros H. apply discard_ret in H as [s H].
    eapply write_domain_log_path_inv; eauto.
  - intros H. apply discard_ret in H as [s H].
    eapply get_domain_entry_path_inv; eauto.
Qed.

Lemma run_path_inv ops st st' :
  cache_inv st -> fd_inv st -> path_inv st ->
  run ops st = Ret tt st' -> path_inv st'.
Proof.
  revert st; induction ops as [|o ops IH]; intros st Hc Hfd Hpath H.
  - now injection H as <-.
  - apply run_cons in H as (st1 & H1 & H2).
    eapply IH; [| | | exact H2].
    + eapply run_op_inv; eauto.
    + eapply run_op_fd_inv; eauto.
    + eapply run_op_path_inv; eauto.
Qed.

Lemma reachable_path_inv ops w st :
  fds w = ∅ -> run ops (boot w) = Ret tt st -> path_inv st.
Proof.
  intros Hfds. apply run_path_inv.
  - apply cache_inv_boot.
  - now apply fd_inv_boot.
  - apply path_inv_no_entry. discriminate.
Qed.

End Paths.

(** ** The text scan, both ways *)

Section TextScan.

Lemma prefix_of_append needle rest : String.prefix needle (needle +:+ rest) = true.
Proof.
  induction needle as [|c needle IH]; [now destruct rest |].
  rewrite append_cons. simpl. destruct (ascii_dec c c); [exact IH | congruence].
Qed.

(** [strstr] finds a needle that is there. *)
Lemma strstr_append pre needle post :
  exists p, strstr (pre +:+ needle +:+ post) needle = Some p.
Proof.
  induction pre as [|c pre IH]; rewrite strstr_unfold.
  - change ("" +:+ needle +:+ post) with (needle +:+ post).
    rewrite prefix_of_append. eauto.
  - destruct (String.prefix needle _); [eauto |].
    rewrite append_cons. exact IH.
Qed.

(** What [strstr] returns is the first occurrence, and NULL means there
    is none. *)
Lemma strstr_some_first_at needle msg p :
  strstr msg needle = Some p ->
  exists i, first_at needle msg i = true /\ p = str_drop i msg.
Proof.
  revert p; induction msg as [|c msg IH]; intros p; rewrite strstr_unfold.
  - destruct (String.prefix needle "") eqn:Hp; [| discriminate].
    intros [= <-]. exists 0%nat. unfold first_at.
    now rewrite occurs_at_0, Hp.
  - destruct (String.prefix needle (String c msg)) eqn:Hp.
    + intros [= <-]. exists 0%nat. unfold first_at.
      now rewrite occurs_at_0, Hp.
    + intros H. destruct (IH _ H) as (i & Hi & ->). exists (S i).
      split; [| reflexivity]. unfold first_at in *.
      apply andb_prop in Hi as [Hocc Hmin].
      rewrite occurs_at_S, Hocc, forallb_seq_S. simpl.
      rewrite occurs_at_0, Hp. simpl. exact Hmin.
Qed.

Lemma strstr_none_absent needle msg :
  strstr msg needle = None -> absent needle msg = true.
Proof.
  unfold absent. induction msg as [|c msg IH]; rewrite strstr_unfold.
  - destruct (String.prefix needle "") eqn:Hp; [discriminate |].
    intros _. change (String.length "") with 0%nat.
    now rewrite forallb_seq_S, occurs_at_0, Hp.
  - destruct (String.prefix needle (String c msg)) eqn:Hp; [discriminate |].
    intros H. rewrite forallb_seq_S, occurs_at_0, Hp. simpl.
    apply IH, H.
Qed.

(** [find_marker] finds the marker the description of the scan
    designates, and nothing else. *)
Lemma find_marker_some msg rest :
  find_marker msg = Some rest -> marker_found msg rest.
Proof.
  unfold find_marker.
  destruct (strstr msg "domain_name=") as [p|] eqn:H1.
  - apply strstr_some_first_at in H1 as (i & Hi & ->).
    intros H. apply (inj Some) in H. subst rest.
    rewrite str_drop_drop. now apply found_domain_name.
  - apply strstr_none_absent in H1.
    destruct (strstr msg "domain=") as [p|] eqn:H2; [| discriminate].
    apply strstr_some_first_at in H2 as (i & Hi & ->).
    intros H. apply (inj Some) in H. subst rest.
    rewrite str_drop_drop. now apply found_domain.
Qed.

Lemma find_marker_none msg :
  find_marker msg = None ->
  absent "domain_name=" msg = true /\ absent "domain=" msg = true.
Proof.
  unfold find_marker.
  destruct (strstr msg "domain_name=") as [p|] eqn:H1; [discriminate |].
  destruct (strstr msg "domain=") as [p|] eqn:H2; [discriminate |].
  intros _. split; now apply strstr_none_absent.
Qed.

Lemma span_while_forall f s : str_forall f (span_while f s) = true.
Proof.
  induction s as [|c s IH]; simpl; [reflexivity |].
  destruct (f c) eqn:Hc; simpl; [now rewrite Hc | reflexivity].
Qed.

Lemma span_while_split f s : exists tail, s = span_while f s +:+ tail.
Proof.
  induction s as [|c s [tail IH]]; simpl; [now exists "" |].
  destruct (f c).
  - exists tail. rewrite append_cons. now rewrite <- IH.
  - now exists (String c s).
Qed.

Lemma str_take_split n s : s = str_take n s +:+ str_drop n s.
Proof.
  revert s; induction n as [|n IH]; intros [|c s]; simpl; try reflexivity.
  rewrite append_cons. now rewrite <- IH.
Qed.

Lemma str_take_forall f n s :
  str_forall f s = true -> str_forall f (str_take n s) = true.
Proof.
  revert s; induction n as [|n IH]; intros [|c s]; simpl; try reflexivity.
  intros H. apply andb_prop in H as [Hc Hs]. now rewrite Hc, IH.
Qed.

Lemma str_take_all n s : (String.length s <= n)%nat -> str_take n s = s.
Proof.
  revert s; induction n as [|n IH]; intros [|c s]; simpl; intros H;
    try reflexivity; try lia.
  f_equal. apply IH. lia.
Qed.

Lemma span_while_key f key rest :
  str_forall f key = true ->
  match rest with EmptyString => True | String c _ => f c = false end ->
  span_while f (key +:+ rest) = key.
Proof.
  intros Hk Hr. induction key as [|c key IH].
  - change ("" +:+ rest) with rest. destruct rest as [|c r]; [reflexivity |].
    simpl. now rewrite Hr.
  - rewrite append_cons. simpl in *. apply andb_prop in Hk as [Hc Hk].
    now rewrite Hc, IH.
Qed.

(** X1. The key returned from a text has between 1 and 127 characters, none
    of which is a whitespace or NUL, and it is the beginning of the text
    that follows the marker. *)
Theorem text_key_shape (msg key : string) :
  extract_domain_from_msg (Some msg) = Some key ->
  (1 <= String.length key <= 127)%nat /\
  str_forall token_char key = true /\
  exists tail, marker_found msg (key +:+ tail).
Proof.
  unfold extract_domain_from_msg.
  destruct (find_marker msg) as [rest|] eqn:Hm; [| discriminate].
  apply find_marker_some in Hm. rewrite capture_span.
  destruct (span_while_split token_char rest) as [tail1 Hrest].
  pose proof (span_while_forall token_char rest) as Hall.
  set (run := span_while token_char rest) in *.
  destruct (str_take 127 run) as [|c k] eqn:Hk; [discriminate |].
  intros [= <-]. rewrite <- Hk. split; [| split].
  - pose proof (str_take_length_le 127 run). rewrite Hk in *. simpl in *. lia.
  - now apply str_take_forall.
  - exists (str_drop 127 run +:+ tail1).
    rewrite <- append_assoc, <- str_take_split, <- Hrest. exact Hm.
Qed.

(** X2. Round trip: a key of 1 to 127 characters without whitespace or NUL,
    put after the marker and followed by the end of the text, a
    whitespace or NUL, is read back as it is. *)
Theorem text_key_round_trip (msg key rest : string) :
  marker_found msg (key +:+ rest) ->
  key <> EmptyString ->
  (String.length key <= 127)%nat ->
  str_forall token_char key = true ->
  match rest with EmptyString => True | String c _ => token_char c = false end ->
  extract_domain_from_msg (Some msg) = Some key.
Proof.
  intros Hm Hne Hlen Hall Hrest. unfold extract_domain_from_msg.
  rewrite (find_marker_found _ _ Hm), capture_span.
  rewrite (span_while_key _ _ _ Hall Hrest), (str_take_all _ _ Hlen).
  now destruct key.
Qed.

(** X3. The text scan gives nothing in two cases only: the text has neither
    marker, or the marker it uses is followed at once by the end of the
    text, a whitespace or NUL. *)
Theorem text_scan_none_iff (msg : string) :
  extract_domain_from_msg (Some msg) = None <->
  (absent "domain_name=" msg = true /\ absent "domain=" msg = true) \/
  (exists rest, marker_found msg rest /\
     match rest with EmptyString => True | String c _ => token_char c = false end).
Proof.
  unfold extract_domain_from_msg. split.
  - destruct (find_marker msg) as [rest|] eqn:Hm.
    + intros Hc. right. exists rest. split; [now apply find_marker_some |].
      rewrite capture_span in Hc. destruct rest as [|c rest]; [exact I |].
      simpl in Hc. destruct (token_char c); [discriminate | reflexivity].
    + intros _. left. now apply find_marker_none.
  - intros [[H1 H2] | (rest & Hm & Hrest)].
    + unfold find_marker. now rewrite (strstr_absent _ _ H1), (strstr_absent _ _ H2).
    + rewrite (find_marker_found _ _ Hm), capture_span.
      destruct rest as [|c rest]; [reflexivity |]. simpl. now rewrite Hrest.
Qed.

(** X4. An event whose source file name contains ["mod_logfile_domain"] is
    ignored, in every state and whatever domain it carries. *)
Theorem internal_events_are_ignored
    (node : switch_log_node_t) (level : switch_log_level_t)
    (st : module_state) (pre post : string) :
  node_file node = Some (pre +:+ "mod_logfile_domain" +:+ post) ->
  mod_logfile_domain_logger (Some node) level st = Ret SWITCH_STATUS_SUCCESS st.
Proof.
  intros Hf. unfold mod_logfile_domain_logger, is_internal. rewrite Hf.
  destruct (strstr_append pre "mod_logfile_domain" post) as [p ->].
  reflexivity.
Qed.

End TextScan.

(** ** Creating an entry *)

Section Creation.

Lemma new_entry_path dir d :
  logfile_path (new_domain_entry dir d) = domain_log_path dir d.
Proof. reflexivity. Qed.

(** The state [get_domain_entry] opens the file from: the new entry is
    allocated. *)
Lemma get_domain_entry_new d st h :
  zstr (Some d) = false -> globals_mutex st = true ->
  domain_hash st = Some h -> h !! d = None ->
  globals_cache_entries st < MAX_DOMAIN_CACHE_SIZE ->
  get_domain_entry (Some d) st
  = match open_domain_logfile (length (pool st))
            (set_pool (pool st ++ [new_domain_entry (log_dir (world st)) d])%list st) with
    | Fault => Fault
    | Ret SWITCH_STATUS_SUCCESS st2 =>
        Ret (Some (length (pool st)))
          (switch_log_printf SWITCH_LOG_DEBUG
             ("mod_logfile_domain: Created cache entry for domain: " +:+ d +:+ nl)
             (set_cache (Some (<[d := length (pool st)]> h))
                (globals_cache_entries st2 + 1) st2))
    | Ret _ st2 => Ret None st2
    end.
Proof.
  intros Hz Hm Hh Hd Hlt. unfold get_domain_entry.
  rewrite Hz, Hm, Hh, Hd. simpl.
  destruct (Z.leb_spec MAX_DOMAIN_CACHE_SIZE (globals_cache_entries st)); [lia |].
  reflexivity.
Qed.

(** X5. When the file of an unseen domain does not open, the domain is
    refused and the cache is as before: same table, same counter, same
    descriptors, same files; the error is on the console.  The entry
    that was allocated for the attempt stays in the pool. *)
Theorem failed_open_leaves_cache
    (d : string) (st : module_state) (h : gmap string nat)
    (stat : switch_status_t) (w : World) :
  zstr (Some d) = false -> globals_mutex st = true ->
  domain_hash st = Some h -> h !! d = None ->
  globals_cache_entries st < MAX_DOMAIN_CACHE_SIZE ->
  switch_file_open (domain_log_path (log_dir (world st)) d) false (world st)
  = (inr stat, w) ->
  exists st' msg,
    get_domain_entry (Some d) st = Ret None st' /\
    domain_hash st' = Some h /\
    globals_cache_entries st' = globals_cache_entries st /\
    fds (world st') = fds (world st) /\
    files (world st') = files (world st) /\
    console (world st')
    = (console (world st) ++ [(SWITCH_LOG_ERROR, msg)])%list /\
    pool st' = (pool st ++ [new_domain_entry (log_dir (world st)) d])%list.
Proof.
  intros Hz Hm Hh Hd Hlt Ho.
  rewrite (get_domain_entry_new _ _ _ Hz Hm Hh Hd Hlt).
  set (new := new_domain_entry (log_dir (world st)) d).
  set (st1 := set_pool (pool st ++ [new])%list st).
  assert (Hp1 : pool st1 !! length (pool st) = Some new).
  { simpl. rewrite lookup_app_r by lia. now rewrite Nat.sub_diag. }
  destruct (open_domain_logfile_failure _ _ _ _ _ Hp1 Ho) as [msg ->].
  exists (switch_log_printf SWITCH_LOG_ERROR msg (set_world w st1)), msg.
  split; [reflexivity |]. cbn.
  rewrite (open_failure _ _ _ _ _ Ho). world_simpl.
  split; [exact Hh |]. repeat split.
Qed.

(** X6. When the file opens, the unseen domain is cached under a new entry:
    the counter grows by one; the entry holds the first 127 characters
    of the domain, the path of the domain, the default limit and a
    handle open on that path; its size is the size of the file, and no
    file has lost anything. *)
Theorem created_entry
    (d : string) (st : module_state) (h : gmap string nat)
    (afd : nat) (w : World) :
  zstr (Some d) = false -> globals_mutex st = true ->
  domain_hash st = Some h -> h !! d = None ->
  globals_cache_entries st < MAX_DOMAIN_CACHE_SIZE ->
  switch_file_open (domain_log_path (log_dir (world st)) d) false (world st)
  = (inl afd, w) ->
  exists st' e,
    get_domain_entry (Some d) st = Ret (Some (length (pool st))) st' /\
    domain_hash st' = Some (<[d := length (pool st)]> h) /\
    globals_cache_entries st' = globals_cache_entries st + 1 /\
    pool st' !! length (pool st) = Some e /\
    domain e = str_take 127 d /\
    logfile_path e = domain_log_path (log_dir (world st)) d /\
    roll_size e = DEFAULT_LIMIT /\
    log_file e = Some afd /\
    fds (world st') !! afd = Some (logfile_path e) /\
    log_size e = strlen (file_content (world st) (logfile_path e)) /\
    forall q, file_content (world st') q = file_content (world st) q.
Proof.
  intros Hz Hm Hh Hd Hlt Ho.
  rewrite (get_domain_entry_new _ _ _ Hz Hm Hh Hd Hlt).
  set (new := new_domain_entry (log_dir (world st)) d).
  set (st1 := set_pool (pool st ++ [new])%list st).
  assert (Hp1 : pool st1 !! length (pool st) = Some new).
  { simpl. rewrite lookup_app_r by lia. now rewrite Nat.sub_diag. }
  rewrite (open_domain_logfile_success _ _ _ _ _ Hp1 Ho).
  destruct (open_files _ _ _ _ Ho) as (_ & Hcontent & _ & Hnew).
  destruct (Hnew afd eq_refl) as [Hfile Hfd].
  do 2 eexists. split; [reflexivity |]. cbn.
  rewrite list_lookup_insert_eq by (rewrite length_app; simpl; lia).
  split; [reflexivity |]. split; [reflexivity |]. split; [reflexivity |].
  cbn. repeat (split; [reflexivity |]).
  split; [exact Hfd |]. split; [| exact Hcontent].
  destruct (open_fd_table _ _ _ _ _ Ho) as (_ & Ht).
  rewrite (get_size_attached afd w (logfile_path new));
    [| rewrite Ht; apply lookup_insert_eq].
  change (logfile_path new) with (domain_log_path (log_dir (world st)) d) in *.
  now rewrite Hfile.
Qed.

End Creation.

(** ** What a write does to the files *)

Section WriteFiles.

Lemma write_failure_files fd data n w s m w' :
  switch_file_write fd data n w = ((s, m), w') ->
  s <> SWITCH_STATUS_SUCCESS ->
  files w' = files w /\ fd_table w' = fd_table w.
Proof.
  unfold switch_file_write.
  destruct (fd_table w !! fd); [| now intros [= _ _ <-]].
  destruct (is_success _) eqn:Hs; intros [= <- _ <-]; [congruence | auto].
Qed.

Lemma first_attempt_failed_files e data w w_c :
  first_attempt_failed e data w = Some w_c ->
  files w_c = files w /\
  (forall fd, log_file e <> Some fd -> fd_table w_c !! fd = fd_table w !! fd) /\
  ((forall fd, log_file e = Some fd -> is_Some (fds w !! fd)) -> healthy w ->
   log_file e = None /\ w_c = w).
Proof.
  unfold first_attempt_failed. destruct (log_file e) as [fd|].
  - destruct (switch_file_write fd data (strlen data) w) as [[s n] w1] eqn:Hw.
    assert (Hs : s <> SWITCH_STATUS_SUCCESS ->
                 (files w1 = files w /\ fd_table w1 = fd_table w)
                 /\ ((forall fd0, Some fd = Some fd0 -> is_Some (fds w !! fd0)) ->
                     healthy w -> False)).
    { intros Hs. split; [eapply write_failure_files; eauto |].
      intros Hopen Hh. destruct (Hopen fd eq_refl) as [path Hpath].
      rewrite fds_lookup in Hpath.
      destruct (fd_table w !! fd) as [[p0 l0]|] eqn:Hfd; [| discriminate].
      destruct (write_disk _ _ _ _ _ _ _ _ Hfd Hw) as (_ & _ & _ & Hok).
      destruct (Hok Hh) as (_ & E & _). contradiction. }
    destruct s; [discriminate | |]; intros [= <-];
      (destruct Hs as [(Hf & Ht) Hno]; [discriminate |]);
      (split; [exact Hf |]);
      (split; [intros fd0 Hne; simpl; rewrite lookup_delete_ne by congruence;
               now rewrite Ht |]);
      intros Hopen Hh; destruct (Hno Hopen Hh).
  - intros [= <-]. auto.
Qed.

(** Whatever course a call of [write_entry] takes, every path keeps its
    content in front and gains at most a beginning of the line. *)
Lemma write_entry_appends p e data st status st' q :
  pool st !! p = Some e -> file_lock e = true ->
  write_entry p data st = Ret status st' ->
  exists k, (k <= String.length data)%nat /\
    file_content (world st') q = file_content (world st) q +:+ str_take k data.
Proof.
  intros Hp Hl Hw.
  destruct (write_entry_cases p e data st Hp Hl)
    as [(fd & n & w1 & Hf & Hw1 & E)
       |[(w_c & stat & w & msg & Hfirst & Ho & E)
        |(w_c & fd2 & w2 & s2 & n2 & w3 & Hfirst & Ho & Hw2 & E)]];
    rewrite E in Hw; injection Hw as _ <-.
  - exact (write_appends _ _ _ _ _ q Hw1).
  - apply first_attempt_failed_files in Hfirst as (Hfc & _).
    destruct (open_files _ _ _ _ Ho) as (_ & Hc & _).
    exists 0%nat. split; [lia |]. simpl. rewrite append_empty_r.
    change (file_content w q = file_content (world st) q).
    rewrite Hc. unfold file_content. now rewrite Hfc.
  - apply first_attempt_failed_files in Hfirst as (Hfc & _).
    destruct (open_files _ _ _ _ Ho) as (_ & Hc & _).
    destruct (write_appends _ _ _ _ _ q Hw2) as (k & Hk & Hc3).
    exists k. split; [exact Hk |].
    change (file_content w3 q = file_content (world st) q +:+ str_take k data).
    rewrite Hc3, Hc. unfold file_content. now rewrite Hfc.
Qed.

(** A call of [write_entry] changes one path at most, by a beginning of
    the line at the end of its file.  The path is the one where the file
    of the handle is when the first write succeeds, and the path of the
    entry when the file is reopened; a write that goes to a removed file
    changes no path. *)
Lemma write_entry_disk p e data st status st' :
  pool st !! p = Some e -> file_lock e = true ->
  write_entry p data st = Ret status st' ->
  exists q k, (k <= String.length data)%nat /\
    (forall q', q' <> q -> files (world st') !! q' = files (world st) !! q') /\
    file_content (world st') q
    = file_content (world st) q +:+ str_take k data /\
    ((exists fd, log_file e = Some fd /\ fd_path (world st) fd = Some q) \/
     q = logfile_path e \/
     (k = 0%nat /\ files (world st') = files (world st))).
Proof.
  intros Hp Hl Hw.
  destruct (write_entry_cases p e data st Hp Hl)
    as [(fd & n & w1 & Hf & Hw1 & E)
       |[(w_c & stat & w & msg & Hfirst & Ho & E)
        |(w_c & fd2 & w2 & s2 & n2 & w3 & Hfirst & Ho & Hw2 & E)]];
    rewrite E in Hw; injection Hw as _ <-.
  - destruct (fd_table (world st) !! fd) as [[p0 l]|] eqn:Hfd.
    2:{ destruct (write_closed _ _ _ _ _ _ Hfd Hw1) as [_ [=]]. }
    destruct (write_disk _ _ _ _ _ _ _ _ Hfd Hw1)
      as (_ & _ & (k & Hk & _ & _ & Hloc) & _).
    destruct l as [q|c].
    + destruct Hloc as (_ & Hother & Hc & _).
      exists q, k. split; [exact Hk |]. split; [exact Hother |].
      split; [exact Hc |]. left. exists fd. split; [exact Hf |].
      unfold fd_path. now rewrite Hfd.
    + destruct Hloc as (Hfiles & _).
      exists (logfile_path e), 0%nat. split; [lia |]. cbn [world set_world set_pool].
      split; [intros q' _; now rewrite Hfiles |].
      split; [simpl; rewrite append_empty_r; unfold file_content;
              now rewrite Hfiles |].
      right. left. reflexivity.
  - apply first_attempt_failed_files in Hfirst as (Hfc & _).
    rewrite (open_failure _ _ _ _ _ Ho).
    exists (logfile_path e), 0%nat. split; [lia |].
    unfold file_content. simpl. rewrite append_empty_r, Hfc.
    split; [reflexivity |]. split; [reflexivity |]. right. left. reflexivity.
  - apply first_attempt_failed_files in Hfirst as (Hfc & _).
    destruct (open_files _ _ _ _ Ho) as (Hother2 & Hc2 & _).
    destruct (open_fd_table _ _ _ _ _ Ho) as (_ & Ht2).
    assert (Hfd2 : fd_table w2 !! fd2 = Some (logfile_path e, AtPath (logfile_path e))).
    { rewrite Ht2. apply lookup_insert_eq. }
    destruct (write_files _ _ _ _ _ _ _ Hfd2 Hw2)
      as (_ & _ & _ & Hother3 & (k & Hk & Hc3 & _) & _).
    exists (logfile_path e), k. split; [exact Hk |].
    cbn [world set_world set_pool].
    split; [intros q' Hq; rewrite (Hother3 _ Hq), (Hother2 _ Hq); now rewrite Hfc |].
    split; [rewrite Hc3, Hc2; unfold file_content; now rewrite Hfc |].
    right. left. reflexivity.
Qed.

Lemma write_entry_reopen_healthy
    (p : nat) (e : domain_cache_entry_t) (data : string) (st : module_state) :
  pool st !! p = Some e -> file_lock e = true -> log_file e = None ->
  healthy (world st) ->
  exists st' e',
    write_entry p data st = Ret SWITCH_STATUS_SUCCESS st' /\
    pool st' !! p = Some e' /\
    log_file e' = Some (next_fd (world st)) /\
    fds (world st') = <[next_fd (world st) := logfile_path e]> (fds (world st)) /\
    file_content (world st') (logfile_path e)
    = file_content (world st) (logfile_path e) +:+ data /\
    log_size e' = wrap_size (strlen (file_content (world st') (logfile_path e))) /\
    entry_static e' = entry_static e /\
    healthy (world st').
Proof.
  intros Hp Hl Hf Hh.
  assert (Hlt : (p < length (pool st))%nat) by (eapply lookup_lt_Some, Hp).
  assert (Hfirst : first_attempt_failed e data (world st) = Some (world st)).
  { unfold first_attempt_failed. now rewrite Hf. }
  rewrite (write_entry_reopen _ _ _ _ _ Hp Hl Hfirst).
  assert (Hp1 : pool (closed_state p e (world st) st) !! p
                = Some (set_log_file None e)).
  { simpl. now apply list_lookup_insert_eq. }
  destruct (switch_file_open (logfile_path e) false (world st)) as [r w2] eqn:Ho.
  destruct (open_files _ _ _ _ Ho) as (_ & Hc & Hok & Hnew).
  destruct (Hok Hh) as [Hh2 ->]. destruct (Hnew _ eq_refl) as [Hfile _].
  destruct (open_fd_table _ _ _ _ _ Ho) as (_ & Ht2).
  assert (Hfd2 : fd_table w2 !! next_fd (world st)
                 = Some (logfile_path e, AtPath (logfile_path e))).
  { rewrite Ht2. apply lookup_insert_eq. }
  apply open_fds_success in Ho as Hfds. destruct Hfds as (_ & Hfds2 & _).
  destruct (switch_file_write (next_fd (world st)) data (strlen data) w2)
    as [[s2 n2] w3] eqn:Hw.
  destruct (write_files _ _ _ _ _ _ _ Hfd2 Hw)
    as (Hfds3 & _ & _ & _ & (k & Hk & Hc3 & Hsucc & _) & Hok3).
  destruct (Hok3 Hh2) as (Hh3 & -> & ->). destruct (Hsucc eq_refl) as [Hkn _].
  assert (k = String.length data) by (unfold strlen in Hkn; lia). subst k.
  rewrite str_take_all in Hc3 by lia.
  rewrite (reopen_and_write_success _ _ _ _ _ _ _ _ _ Hp1 Ho Hw).
  do 2 eexists. split; [reflexivity |]. cbn.
  rewrite list_lookup_insert_eq by (rewrite length_insert; exact Hlt).
  split; [reflexivity |]. cbn. split; [reflexivity |].
  split; [now rewrite Hfds3, Hfds2 |].
  rewrite Hc3, Hc. split; [reflexivity |]. split; [| split; [reflexivity | exact Hh3]].
  f_equal. rewrite (get_size_attached _ _ _ Hfd2), Hfile.
  unfold strlen. simpl. rewrite length_append. lia.
Qed.

(** X7. An entry without handle, on a healthy system: the write reopens the
    file on the next descriptor, appends the whole line and sets
    [log_size] to the size of the file. *)
Theorem write_reopens_closed_entry
    (p : nat) (e : domain_cache_entry_t) (data : string) (st : module_state) :
  pool st !! p = Some e -> file_lock e = true -> log_file e = None ->
  healthy (world st) ->
  exists st' e',
    write_entry p data st = Ret SWITCH_STATUS_SUCCESS st' /\
    pool st' !! p = Some e' /\
    log_file e' = Some (next_fd (world st)) /\
    fds (world st') = <[next_fd (world st) := logfile_path e]> (fds (world st)) /\
    file_content (world st') (logfile_path e)
    = file_content (world st) (logfile_path e) +:+ data /\
    log_size e' = wrap_size (strlen (file_content (world st') (logfile_path e))) /\
    entry_static e' = entry_static e /\
    healthy (world st').
Proof. apply write_entry_reopen_healthy. Qed.

(** X8. A handle that fails once: the write closes it, reopens the file on
    the next descriptor, and the retried write appends the whole line. *)
Theorem transient_write_failure_heals
    (p : nat) (e : domain_cache_entry_t) (data : string) (st : module_state)
    (fd : nat) (r : os_reply) :
  pool st !! p = Some e -> file_lock e = true -> log_file e = Some fd ->
  fds (world st) !! fd = Some (logfile_path e) ->
  oracle (world st) = [r] -> is_success (reply_status r) = false ->
  exists st' e',
    write_entry p data st = Ret SWITCH_STATUS_SUCCESS st' /\
    pool st' !! p = Some e' /\
    log_file e' = Some (next_fd (world st)) /\
    fds (world st')
    = <[next_fd (world st) := logfile_path e]> (delete fd (fds (world st))) /\
    file_content (world st') (logfile_path e)
    = file_content (world st) (logfile_path e) +:+ data /\
    log_size e' = wrap_size (strlen (file_content (world st') (logfile_path e))) /\
    healthy (world st').
Proof.
  intros Hp Hl Hf Hfd Ho1 Hr.
  assert (Hlt : (p < length (pool st))%nat) by (eapply lookup_lt_Some, Hp).
  set (w1 := set_oracle [] (world st)).
  assert (Hw1 : switch_file_write fd data (strlen data) (world st)
                = ((reply_status r,
                    Z.max 0 (Z.min (strlen data) (reply_nbytes r))), w1)).
  { rewrite fds_lookup in Hfd.
    destruct (fd_table (world st) !! fd) as [pi|] eqn:Ht; [| discriminate].
    unfold switch_file_write. rewrite Ht, Ho1. simpl. now rewrite Hr. }
  assert (Hfirst : first_attempt_failed e data (world st)
                   = Some (switch_file_close fd w1)).
  { unfold first_attempt_failed. rewrite Hf, Hw1.
    destruct (reply_status r); [discriminate | reflexivity | reflexivity]. }
  pose proof (write_entry_reopen _ _ _ _ _ Hp Hl Hfirst) as E.
  set (stc := closed_state p e (switch_file_close fd w1) st) in *.
  assert (Hpc : pool stc !! p = Some (set_log_file None e)).
  { simpl. now apply list_lookup_insert_eq. }
  assert (Hhc : healthy (world stc)) by reflexivity.
  destruct (write_entry_reopen_healthy p (set_log_file None e) data stc
              Hpc Hl eq_refl Hhc)
    as (st' & e' & Hw & Hp' & Hf' & Hfds' & Hc' & Hs' & _ & Hh').
  (* the reopen block does not depend on how the entry lost its handle *)
  assert (Hre : write_entry p data stc = reopen_and_write p data stc).
  { rewrite (write_entry_reopen p (set_log_file None e) data stc (world stc)
               Hpc Hl eq_refl).
    f_equal. unfold closed_state. simpl.
    rewrite list_insert_insert_eq. unfold set_pool, set_world. simpl.
    f_equal. }
  rewrite Hre in Hw. rewrite E, Hw.
  exists st', e'. split; [reflexivity |]. split; [exact Hp' |].
  split; [exact Hf' |].
  split; [rewrite Hfds'; subst stc w1; cbn [world closed_state set_pool set_world];
          now rewrite fds_close |].
  split; [exact Hc' |].
  split; [exact Hs' | exact Hh'].
Qed.

End WriteFiles.

(** ** A line on its way to the file *)

Section Delivery.

Lemma reachable_module_inv ops w st :
  fds w = ∅ -> run ops (boot w) = Ret tt st -> module_inv st.
Proof.
  intros Hfds Hrun. split; [| split].
  - eapply reachable_inv; eauto.
  - eapply reachable_fd_inv; eauto.
  - eapply reachable_path_inv; eauto.
Qed.

Lemma get_domain_entry_keeps_inv domain st r st' :
  module_inv st -> get_domain_entry domain st = Ret r st' -> module_inv st'.
Proof.
  intros (Hc & Hfd & Hpath) H. split; [| split].
  - now apply (get_domain_entry_ret _ _ _ _ H).
  - eapply get_domain_entry_fd_inv; eauto.
  - eapply get_domain_entry_path_inv; eauto.
Qed.

Lemma write_domain_log_keeps_inv domain log_data st status st' :
  module_inv st -> write_domain_log domain log_data st = Ret status st' ->
  module_inv st'.
Proof.
  intros (Hc & Hfd & Hpath) H. split; [| split].
  - now apply (write_domain_log_ret _ _ _ _ _ H).
  - eapply write_domain_log_fd_inv; eauto.
  - eapply write_domain_log_path_inv; eauto.
Qed.

(** The entry of a cached domain: its path, its lock and where its
    handle is open. *)
Lemma cached_entry_facts st h d p :
  module_inv st -> domain_hash st = Some h -> h !! d = Some p ->
  exists e, pool st !! p = Some e /\ file_lock e = true /\
    logfile_path e = domain_log_path (log_dir (world st)) d /\
    forall fd, log_file e = Some fd ->
      fds (world st) !! fd = Some (logfile_path e).
Proof.
  intros (Hc & Hfd & Hpath) Hh Hd.
  destruct (inv_entries _ Hc _ _ _ Hh Hd) as (e & Hp & Hs).
  unfold entry_static in Hs. injection Hs as _ _ Hpe Hl.
  exists e. repeat split; auto. intros fd Hf. eapply Hpath; eauto.
Qed.

(** [get_domain_entry] leaves the content of every file, and creates no
    file but the one of the domain. *)
Lemma get_domain_entry_files d st r st' :
  get_domain_entry (Some d) st = Ret r st' ->
  (forall q, file_content (world st') q = file_content (world st) q) /\
  (forall q, q <> domain_log_path (log_dir (world st)) d ->
     files (world st') !! q = files (world st) !! q).
Proof.
  unfold get_domain_entry.
  destruct (zstr (Some d)); [now intros [= _ <-] |].
  destruct (globals_mutex st); [| discriminate]. simpl.
  destruct (domain_hash st) as [h|] eqn:Hh; [| discriminate].
  destruct (h !! d) as [p|] eqn:Hd; [now intros [= _ <-] |].
  destruct (MAX_DOMAIN_CACHE_SIZE <=? globals_cache_entries st).
  { now intros [= _ <-]. }
  set (new := new_domain_entry (log_dir (world st)) d).
  set (st1 := set_pool (pool st ++ [new])%list st).
  assert (Hp1 : pool st1 !! length (pool st) = Some new).
  { simpl. rewrite lookup_app_r by lia. now rewrite Nat.sub_diag. }
  destruct (switch_file_open (logfile_path new) false (world st1))
    as [[afd|stat] w] eqn:Ho;
    destruct (open_files _ _ _ _ Ho) as (Hother & Hc & _).
  - rewrite (open_domain_logfile_success _ _ _ _ _ Hp1 Ho).
    intros [= _ <-]. split; [exact Hc | exact Hother].
  - destruct (open_domain_logfile_failure _ _ _ _ _ Hp1 Ho) as [msg ->].
    intros [= _ <-]. split; [exact Hc | exact Hother].
Qed.

(** On a healthy system a domain that is cached, or that the cache has
    room for, gets its entry. *)
Lemma get_domain_entry_healthy d st h :
  zstr (Some d) = false -> globals_mutex st = true ->
  domain_hash st = Some h ->
  (h !! d = None -> globals_cache_entries st < MAX_DOMAIN_CACHE_SIZE) ->
  healthy (world st) ->
  exists p st', get_domain_entry (Some d) st = Ret (Some p) st' /\
    healthy (world st').
Proof.
  intros Hz Hm Hh Hroom Hhealthy.
  destruct (h !! d) as [p|] eqn:Hd.
  - exists p, st. split; [now apply (get_domain_entry_found _ _ h) | exact Hhealthy].
  - rewrite (get_domain_entry_new _ _ _ Hz Hm Hh Hd (Hroom eq_refl)).
    set (new := new_domain_entry (log_dir (world st)) d).
    set (st1 := set_pool (pool st ++ [new])%list st).
    assert (Hp1 : pool st1 !! length (pool st) = Some new).
    { simpl. rewrite lookup_app_r by lia. now rewrite Nat.sub_diag. }
    destruct (switch_file_open (logfile_path new) false (world st1))
      as [r w] eqn:Ho.
    destruct (open_files _ _ _ _ Ho) as (_ & _ & Hok & _).
    destruct (Hok Hhealthy) as [Hh2 ->].
    rewrite (open_domain_logfile_success _ _ _ _ _ Hp1 Ho).
    do 2 eexists. split; [reflexivity | exact Hh2].
Qed.

Lemma attached_spec w fd :
  attached w fd = true <->
  exists path, fd_table w !! fd = Some (path, AtPath path).
Proof.
  unfold attached. split.
  - destruct (fd_table w !! fd) as [[path [q|c]]|]; try discriminate.
    intros H. apply String.eqb_eq in H. subst q. eauto.
  - intros (path & ->). apply String.eqb_refl.
Qed.

Lemma handle_attached_spec st d :
  handle_attached st d = true <->
  (forall h p e fd, domain_hash st = Some h -> h !! d = Some p ->
     pool st !! p = Some e -> log_file e = Some fd ->
     attached (world st) fd = true).
Proof.
  unfold handle_attached, handle_of. split.
  - intros H h p e fd Hh Hd Hp Hf. rewrite Hh, Hd, Hp in H. simpl in H.
    now rewrite Hf in H.
  - intros H. destruct (domain_hash st) as [h|] eqn:Hh; [| reflexivity].
    destruct (h !! d) as [p|] eqn:Hd; [| reflexivity].
    destruct (pool st !! p) as [e|] eqn:Hp; [| reflexivity]. simpl.
    destruct (log_file e) as [fd|] eqn:Hf; [| reflexivity].
    exact (H h p e fd eq_refl Hd Hp Hf).
Qed.

(** A domain that is not cached has no handle that could be
    detached. *)
Lemma handle_attached_uncached st h d :
  domain_hash st = Some h -> h !! d = None -> handle_attached st d = true.
Proof. intros Hh Hd. unfold handle_attached. now rewrite Hh, Hd. Qed.

(** The handle of a new entry is attached. *)
Lemma get_domain_entry_attached d st r st' :
  handle_attached st d = true -> get_domain_entry (Some d) st = Ret r st' ->
  handle_attached st' d = true.
Proof.
  intros Hatt. unfold get_domain_entry.
  destruct (zstr (Some d)); [now intros [= _ <-] |].
  destruct (globals_mutex st); [| discriminate]. simpl.
  destruct (domain_hash st) as [h|] eqn:Hh; [| discriminate].
  destruct (h !! d) as [p|] eqn:Hd; [now intros [= _ <-] |].
  assert (Hvac : forall st2, domain_hash st2 = Some h ->
                   handle_attached st2 d = true).
  { intros st2 E. now apply (handle_attached_uncached st2 h). }
  destruct (MAX_DOMAIN_CACHE_SIZE <=? globals_cache_entries st).
  { intros [= _ <-]. now apply Hvac. }
  set (new := new_domain_entry (log_dir (world st)) d).
  set (st1 := set_pool (pool st ++ [new])%list st).
  assert (Hp1 : pool st1 !! length (pool st) = Some new).
  { simpl. rewrite lookup_app_r by lia. now rewrite Nat.sub_diag. }
  destruct (switch_file_open (logfile_path new) false (world st1))
    as [[afd|stat] w] eqn:Ho.
  - rewrite (open_domain_logfile_success _ _ _ _ _ Hp1 Ho).
    intros [= _ <-].
    destruct (open_fd_table _ _ _ _ _ Ho) as (_ & Ht).
    apply handle_attached_spec.
    intros h0 p e fd E1 E2 E3 E4. cbn in E1, E3.
    apply (inj Some) in E1. subst h0. rewrite lookup_insert_eq in E2.
    apply (inj Some) in E2. subst p.
    rewrite list_lookup_insert_eq in E3 by (rewrite length_app; simpl; lia).
    apply (inj Some) in E3. subst e. cbn in E4. apply (inj Some) in E4. subst fd.
    apply attached_spec. exists (logfile_path new).
    change (fd_table w !! afd = Some (logfile_path new, AtPath (logfile_path new))).
    rewrite Ht. apply lookup_insert_eq.
  - destruct (open_domain_logfile_failure _ _ _ _ _ Hp1 Ho) as [msg ->].
    intros [= _ <-]. now apply Hvac.
Qed.

(** The reopen of an entry without handle, on a healthy system: the new
    handle is at the path of the entry, and no other path changes. *)
Lemma write_entry_reopen_disk p e data st status st' :
  pool st !! p = Some e -> file_lock e = true -> log_file e = None ->
  healthy (world st) ->
  write_entry p data st = Ret status st' ->
  (forall e' fd', pool st' !! p = Some e' -> log_file e' = Some fd' ->
     fd_table (world st') !! fd'
     = Some (logfile_path e, AtPath (logfile_path e))) /\
  (forall q, q <> logfile_path e ->
     files (world st') !! q = files (world st) !! q).
Proof.
  intros Hp Hl Hf Hh.
  assert (Hlt : (p < length (pool st))%nat) by (eapply lookup_lt_Some, Hp).
  assert (Hfirst : first_attempt_failed e data (world st) = Some (world st)).
  { unfold first_attempt_failed. now rewrite Hf. }
  rewrite (write_entry_reopen _ _ _ _ _ Hp Hl Hfirst).
  assert (Hp1 : pool (closed_state p e (world st) st) !! p
                = Some (set_log_file None e)).
  { simpl. now apply list_lookup_insert_eq. }
  destruct (switch_file_open (logfile_path e) false (world st)) as [r w2] eqn:Ho.
  destruct (open_files _ _ _ _ Ho) as (Hother & _ & Hok & _).
  destruct (Hok Hh) as [Hh2 ->].
  destruct (open_fd_table _ _ _ _ _ Ho) as (_ & Ht2).
  assert (Hfd2 : fd_table w2 !! next_fd (world st)
                 = Some (logfile_path e, AtPath (logfile_path e))).
  { rewrite Ht2. apply lookup_insert_eq. }
  destruct (switch_file_write (next_fd (world st)) data (strlen data) w2)
    as [[s2 n2] w3] eqn:Hw.
  destruct (write_files _ _ _ _ _ _ _ Hfd2 Hw) as (_ & _ & Ht3 & Hother3 & _).
  rewrite (reopen_and_write_success _ _ _ _ _ _ _ _ _ Hp1 Ho Hw).
  intros [= _ <-]. cbn [world set_pool set_world]. split.
  - intros e' fd'. cbn [pool set_pool set_world closed_state].
    rewrite list_lookup_insert_eq by (rewrite length_insert; exact Hlt).
    intros E. apply (inj Some) in E. subst e'. cbn. intros E.
    apply (inj Some) in E. subst fd'. now rewrite Ht3.
  - intros q Hq. rewrite Hother3 by exact Hq. now apply Hother.
Qed.

(** On a healthy system a write through an entry whose handle, if it
    has one, is attached succeeds and appends the whole line to the file
    at the path of the entry. *)
Lemma write_entry_healthy p e data st :
  pool st !! p = Some e -> file_lock e = true ->
  (forall fd, log_file e = Some fd ->
     fd_table (world st) !! fd
     = Some (logfile_path e, AtPath (logfile_path e))) ->
  healthy (world st) ->
  exists st', write_entry p data st = Ret SWITCH_STATUS_SUCCESS st' /\
    file_content (world st') (logfile_path e)
    = file_content (world st) (logfile_path e) +:+ data /\
    healthy (world st') /\
    (forall e' fd', pool st' !! p = Some e' -> log_file e' = Some fd' ->
       fd_table (world st') !! fd'
       = Some (logfile_path e, AtPath (logfile_path e))) /\
    (forall q, q <> logfile_path e ->
       files (world st') !! q = files (world st) !! q).
Proof.
  intros Hp Hl Hatt Hh.
  assert (Hlt : (p < length (pool st))%nat) by (eapply lookup_lt_Some, Hp).
  destruct (log_file e) as [fd|] eqn:Hf.
  - pose proof (Hatt fd eq_refl) as Hfd.
    destruct (switch_file_write fd data (strlen data) (world st))
      as [[s n] w1] eqn:Hw.
    destruct (write_files _ _ _ _ _ _ _ Hfd Hw)
      as (_ & _ & Ht1 & Hother & (k & Hk & Hc & Hsucc & _) & Hok).
    destruct (Hok Hh) as (Hh1 & -> & ->). destruct (Hsucc eq_refl) as [Hkn _].
    assert (k = String.length data) by (unfold strlen in Hkn; lia). subst k.
    rewrite str_take_all in Hc by lia.
    rewrite (write_entry_first_ok _ _ _ _ _ _ _ Hp Hl Hf Hw).
    eexists. split; [reflexivity |]. cbn [world set_pool set_world].
    split; [exact Hc |]. split; [exact Hh1 |]. split; [| exact Hother].
    intros e' fd'. cbn [pool set_pool set_world].
    rewrite list_lookup_insert_eq by exact Hlt.
    intros E. apply (inj Some) in E. subst e'. cbn. rewrite Hf.
    intros E. apply (inj Some) in E. subst fd'. now rewrite Ht1.
  - destruct (write_entry_reopen_healthy p e data st Hp Hl Hf Hh)
      as (st' & e' & Hw & _ & _ & _ & Hc & _ & _ & Hh').
    destruct (write_entry_reopen_disk p e data st _ _ Hp Hl Hf Hh Hw)
      as (Hhandle & Hother).
    exists st'. auto 7.
Qed.

(** The facts about the handle of a cached entry that a write needs. *)
Lemma cached_handle_attached st h d p e :
  module_inv st -> handle_attached st d = true ->
  domain_hash st = Some h -> h !! d = Some p -> pool st !! p = Some e ->
  forall fd, log_file e = Some fd ->
    fd_table (world st) !! fd = Some (logfile_path e, AtPath (logfile_path e)).
Proof.
  intros (_ & _ & Hpath) Hatt Hh Hd Hp fd Hf.
  rewrite handle_attached_spec in Hatt.
  pose proof (Hpath _ _ _ _ _ Hh Hd Hp Hf) as Hopen.
  destruct (proj1 (attached_spec _ _) (Hatt _ _ _ _ Hh Hd Hp Hf))
    as (path & Ht).
  rewrite fds_lookup, Ht in Hopen. simpl in Hopen.
  apply (inj Some) in Hopen. now subst path.
Qed.

(** [write_domain_log] on a healthy system, in a state of the
    invariants where the handle of the domain is attached. *)
Lemma write_domain_log_healthy d data st h :
  module_inv st -> handle_attached st d = true ->
  zstr (Some d) = false -> globals_mutex st = true ->
  domain_hash st = Some h ->
  (h !! d = None -> globals_cache_entries st < MAX_DOMAIN_CACHE_SIZE) ->
  healthy (world st) ->
  exists st' h' p,
    write_domain_log (Some d) (Some data) st = Ret SWITCH_STATUS_SUCCESS st' /\
    file_content (world st') (domain_log_path (log_dir (world st)) d)
    = file_content (world st) (domain_log_path (log_dir (world st)) d) +:+ data /\
    (forall q, q <> domain_log_path (log_dir (world st)) d ->
       files (world st') !! q = files (world st) !! q) /\
    healthy (world st') /\
    domain_hash st' = Some h' /\ h' !! d = Some p /\ h ⊆ h' /\
    module_inv st' /\ cache_grows st st' /\ handle_attached st' d = true.
Proof.
  intros Hinv Hatt Hz Hm Hh Hroom Hhealthy.
  destruct (get_domain_entry_healthy d st h Hz Hm Hh Hroom Hhealthy)
    as (p & st1 & Hget & Hh1).
  pose proof (get_domain_entry_keeps_inv _ _ _ _ Hinv Hget) as Hinv1.
  pose proof (get_domain_entry_attached _ _ _ _ Hatt Hget) as Hatt1.
  destruct (get_domain_entry_files _ _ _ _ Hget) as [Hc1 Ho1].
  destruct (get_domain_entry_ret _ _ _ _ Hget) as (Hg1 & _ & Hr).
  destruct (Hr p eq_refl) as (d' & h' & Ed & _ & Hh' & Hd').
  apply (inj Some) in Ed. subst d'.
  destruct (cached_entry_facts st1 h' d p Hinv1 Hh' Hd')
    as (e & Hp & Hl & Hpe & _).
  destruct (write_entry_healthy p e data st1 Hp Hl
              (cached_handle_attached st1 h' d p e Hinv1 Hatt1 Hh' Hd' Hp) Hh1)
    as (st' & Hw & Hc & Hh2 & Hhandle & Ho2).
  assert (Hdir : log_dir (world st1) = log_dir (world st)) by apply Hg1.
  rewrite Hdir in Hpe. rewrite Hpe in Hc, Hhandle, Ho2.
  pose proof (write_entry_ret _ _ _ _ _ Hw) as Hsame.
  assert (Hwd : write_domain_log (Some d) (Some data) st
                = Ret SWITCH_STATUS_SUCCESS st').
  { unfold write_domain_log, bind. now rewrite Hget. }
  assert (Hh2' : domain_hash st' = Some h').
  { destruct Hsame as (E1 & _). congruence. }
  exists st', h', p. split; [exact Hwd |].
  split; [rewrite Hc; now rewrite Hc1 |].
  split.
  { intros q Hq. rewrite Ho2 by exact Hq. now apply Ho1. }
  split; [exact Hh2 |]. split; [exact Hh2' |]. split; [exact Hd' |].
  split.
  { destruct Hg1 as (_ & _ & _ & _ & _ & Hsub). rewrite Hh in Hsub.
    destruct Hsub as (h2 & E2 & Hsub). rewrite Hh' in E2.
    apply (inj Some) in E2. now subst h2. }
  split; [exact (write_domain_log_keeps_inv _ _ _ _ _ Hinv Hwd) |].
  split; [now apply (write_domain_log_ret _ _ _ _ _ Hwd) |].
  apply handle_attached_spec.
  intros h0 p0 e0 fd0 E1 E2 E3 E4. rewrite Hh2' in E1.
  apply (inj Some) in E1. subst h0. rewrite Hd' in E2.
  apply (inj Some) in E2. subst p0.
  apply attached_spec. exists (domain_log_path (log_dir (world st)) d).
  exact (Hhandle _ _ E3 E4).
Qed.

(** [write_domain_log] from a state of the invariants, whatever the
    operating system answers: every path keeps its content in front. *)
Lemma write_domain_log_appends d data st status st' q :
  module_inv st ->
  write_domain_log (Some d) (Some data) st = Ret status st' ->
  exists k, (k <= String.length data)%nat /\
    file_content (world st') q = file_content (world st) q +:+ str_take k data.
Proof.
  intros Hinv. unfold write_domain_log, bind.
  destruct (get_domain_entry (Some d) st) as [r st1|] eqn:Hget; [| discriminate].
  pose proof (get_domain_entry_keeps_inv _ _ _ _ Hinv Hget) as Hinv1.
  destruct (get_domain_entry_files _ _ _ _ Hget) as [Hc1 _].
  destruct (get_domain_entry_ret _ _ _ _ Hget) as (_ & _ & Hr).
  destruct r as [p|].
  - destruct (Hr p eq_refl) as (d' & h' & Ed & _ & Hh' & Hd').
    apply (inj Some) in Ed. subst d'.
    destruct (cached_entry_facts st1 h' d p Hinv1 Hh' Hd')
      as (e & Hp & Hl & _).
    intros Hw.
    destruct (write_entry_appends _ _ _ _ _ _ q Hp Hl Hw) as (k & Hk & Hc).
    exists k. split; [exact Hk |]. now rewrite Hc, Hc1.
  - intros [= _ <-]. exists 0%nat. split; [lia |]. simpl.
    rewrite append_empty_r. apply Hc1.
Qed.

(** A lookup that finds the domain cached changes nothing. *)
Lemma get_domain_entry_cached d st h p r st1 :
  domain_hash st = Some h -> h !! d = Some p ->
  get_domain_entry (Some d) st = Ret r st1 -> st1 = st.
Proof.
  intros Hh Hd. unfold get_domain_entry.
  destruct (zstr (Some d)); [now intros [= _ <-] |].
  destruct (globals_mutex st); [| discriminate]. simpl.
  rewrite Hh, Hd. now intros [= _ <-].
Qed.

(** [write_domain_log] from a state of the invariants changes one path
    at most, by a beginning of the line at the end of its file: the path
    of the domain's log, or the path where the file of the cached handle
    is now. *)
Lemma write_domain_log_disk d data st status st' :
  module_inv st ->
  write_domain_log (Some d) (Some data) st = Ret status st' ->
  exists q k, (k <= String.length data)%nat /\
    (forall q', q' <> q -> files (world st') !! q' = files (world st) !! q') /\
    file_content (world st') q
    = file_content (world st) q +:+ str_take k data /\
    (q = domain_log_path (log_dir (world st)) d \/
     exists h p fd, domain_hash st = Some h /\ h !! d = Some p /\
       handle_of st p = Some fd /\ fd_path (world st) fd = Some q).
Proof.
  intros Hinv Hwd.
  set (P := domain_log_path (log_dir (world st)) d).
  pose proof Hwd as Hw. unfold write_domain_log, bind in Hw.
  destruct (get_domain_entry (Some d) st) as [r st1|] eqn:Hget; [| discriminate].
  pose proof (get_domain_entry_keeps_inv _ _ _ _ Hinv Hget) as Hinv1.
  destruct (get_domain_entry_files _ _ _ _ Hget) as [Hc1 Ho1]. fold P in Ho1.
  destruct (get_domain_entry_ret _ _ _ _ Hget) as (Hg1 & _ & Hr).
  assert (Hdir : log_dir (world st1) = log_dir (world st)) by apply Hg1.
  destruct r as [p|].
  2:{ injection Hw as _ <-. exists P, 0%nat. split; [lia |].
      split; [exact Ho1 |].
      split; [simpl; rewrite append_empty_r; apply Hc1 | now left]. }
  destruct (Hr p eq_refl) as (d' & h' & Ed & _ & Hh' & Hd').
  apply (inj Some) in Ed. subst d'.
  destruct (cached_entry_facts st1 h' d p Hinv1 Hh' Hd')
    as (e & Hp & Hl & Hpe & _).
  rewrite Hdir in Hpe. fold P in Hpe.
  destruct (write_entry_disk _ _ _ _ _ _ Hp Hl Hw)
    as (q & k & Hk & Hother & Hc & Hwhich).
  rewrite Hpe in Hwhich.
  (* the written path is the path of the domain *)
  assert (Hown : q = P ->
            exists q k, (k <= String.length data)%nat /\
              (forall q', q' <> q ->
                 files (world st') !! q' = files (world st) !! q') /\
              file_content (world st') q
              = file_content (world st) q +:+ str_take k data /\
              (q = P \/
               exists h p fd, domain_hash st = Some h /\ h !! d = Some p /\
                 handle_of st p = Some fd /\ fd_path (world st) fd = Some q)).
  { intros ->. exists P, k. split; [exact Hk |].
    split; [intros q' Hq; rewrite (Hother _ Hq); now apply Ho1 |].
    split; [now rewrite Hc, Hc1 | now left]. }
  (* nothing is written *)
  assert (Hnothing : k = 0%nat -> files (world st') = files (world st1) ->
            exists q k, (k <= String.length data)%nat /\
              (forall q', q' <> q ->
                 files (world st') !! q' = files (world st) !! q') /\
              file_content (world st') q
              = file_content (world st) q +:+ str_take k data /\
              (q = P \/
               exists h p fd, domain_hash st = Some h /\ h !! d = Some p /\
                 handle_of st p = Some fd /\ fd_path (world st) fd = Some q)).
  { intros -> E. exists P, 0%nat. split; [lia |].
    split; [intros q' Hq; rewrite E; now apply Ho1 |].
    split; [| now left]. simpl. rewrite append_empty_r.
    unfold file_content at 1. rewrite E. apply Hc1. }
  destruct Hwhich as [(fd & Hf & Hq) | [-> | [Hk0 E]]];
    [| now apply Hown | now apply Hnothing].
  destruct (domain_hash st) as [h|] eqn:Hh.
  2:{ exfalso. revert Hget. unfold get_domain_entry.
      destruct (zstr (Some d)); [discriminate |].
      destruct (globals_mutex st); [| discriminate]. simpl.
      rewrite Hh. discriminate. }
  destruct (h !! d) as [p0|] eqn:Hd.
  - (* the domain was cached: the lookup changed nothing *)
    pose proof (get_domain_entry_cached _ _ _ _ _ _ Hh Hd Hget) as ->.
    rewrite Hh in Hh'. apply (inj Some) in Hh'. subst h'.
    rewrite Hd in Hd'. apply (inj Some) in Hd'. subst p0.
    exists q, k. split; [exact Hk |]. split; [exact Hother |].
    split; [exact Hc |]. right. exists h, p, fd.
    split; [reflexivity |]. split; [exact Hd |]. split; [| exact Hq].
    unfold handle_of. now rewrite Hp.
  - (* a new entry: its handle is at the path of the domain *)
    apply Hown.
    pose proof (get_domain_entry_attached _ _ _ _
                  (handle_attached_uncached st h d Hh Hd) Hget) as Hatt1.
    pose proof (cached_handle_attached st1 h' d p e Hinv1 Hatt1 Hh' Hd' Hp fd Hf)
      as Ht.
    unfold fd_path in Hq. rewrite Ht in Hq. rewrite Hpe in Hq. congruence.
Qed.

(** X9. In a state the module has reached, a call of [write_domain_log]
    changes one path at most, by a beginning of the line put at the end
    of its file.  That path is the path of the domain's log, or, when
    another process has renamed the log since the cached handle was
    opened, the path the log has now; no other path is created, removed
    or changed. *)
Theorem write_touches_only_own_file
    (ops : list op) (w : World) (st : module_state) (d data : string)
    (status : switch_status_t) (st' : module_state) :
  fds w = ∅ -> run ops (boot w) = Ret tt st ->
  write_domain_log (Some d) (Some data) st = Ret status st' ->
  exists q k, (k <= String.length data)%nat /\
    (forall q', q' <> q -> files (world st') !! q' = files (world st) !! q') /\
    file_content (world st') q
    = file_content (world st) q +:+ str_take k data /\
    (q = domain_log_path (log_dir (world st)) d \/
     exists h p fd, domain_hash st = Some h /\ h !! d = Some p /\
       handle_of st p = Some fd /\ fd_path (world st) fd = Some q).
Proof.
  intros Hfds Hrun. apply write_domain_log_disk.
  eapply reachable_module_inv; eauto.
Qed.

(** X10. In a reached state of a loaded module on a healthy system, a
    line for a domain that is cached or that the cache has room for, and
    whose log, if a handle is open on it, is still at its path, is
    written in full at the end of the file at that path, and no other
    file changes. *)
Theorem healthy_write_appends_line
    (ops : list op) (w : World) (st : module_state) (h : gmap string nat)
    (d data : string) :
  fds w = ∅ -> run ops (boot w) = Ret tt st ->
  globals_mutex st = true -> domain_hash st = Some h ->
  zstr (Some d) = false ->
  (h !! d = None -> globals_cache_entries st < MAX_DOMAIN_CACHE_SIZE) ->
  handle_attached st d = true ->
  healthy (world st) ->
  exists st',
    write_domain_log (Some d) (Some data) st = Ret SWITCH_STATUS_SUCCESS st' /\
    file_content (world st') (domain_log_path (log_dir (world st)) d)
    = file_content (world st) (domain_log_path (log_dir (world st)) d) +:+ data /\
    (forall q, q <> domain_log_path (log_dir (world st)) d ->
       files (world st') !! q = files (world st) !! q) /\
    handle_attached st' d = true /\
    healthy (world st').
Proof.
  intros Hfds Hrun Hm Hh Hz Hroom Hatt Hhealthy.
  destruct (write_domain_log_healthy d data st h
              (reachable_module_inv _ _ _ Hfds Hrun) Hatt Hz Hm Hh Hroom Hhealthy)
    as (st' & h' & p & Hw & Hc & Ho & Hh' & _ & _ & _ & _ & _ & Hatt').
  exists st'. auto.
Qed.

(** X11. Two lines written one after the other for the same domain, under
    the conditions of X10, end up in the file in that order. *)
Theorem writes_append_in_order
    (ops : list op) (w : World) (st : module_state) (h : gmap string nat)
    (d line1 line2 : string) :
  fds w = ∅ -> run ops (boot w) = Ret tt st ->
  globals_mutex st = true -> domain_hash st = Some h ->
  zstr (Some d) = false ->
  (h !! d = None -> globals_cache_entries st < MAX_DOMAIN_CACHE_SIZE) ->
  handle_attached st d = true ->
  healthy (world st) ->
  exists st',
    run [OpWrite (Some d) (Some line1); OpWrite (Some d) (Some line2)] st
    = Ret tt st' /\
    file_content (world st') (domain_log_path (log_dir (world st)) d)
    = file_content (world st) (domain_log_path (log_dir (world st)) d)
      +:+ line1 +:+ line2 /\
    (forall q, q <> domain_log_path (log_dir (world st)) d ->
       files (world st') !! q = files (world st) !! q).
Proof.
  intros Hfds Hrun Hm Hh Hz Hroom Hatt Hhealthy.
  destruct (write_domain_log_healthy d line1 st h
              (reachable_module_inv _ _ _ Hfds Hrun) Hatt Hz Hm Hh Hroom Hhealthy)
    as (st1 & h1 & p & Hw1 & Hc1 & Ho1 & Hh1 & Hhash1 & Hd1 & _
        & Hinv1 & Hg1 & Hatt1).
  assert (Hm1 : globals_mutex st1 = true).
  { destruct Hg1 as (E & _). now rewrite E. }
  assert (Hdir : log_dir (world st1) = log_dir (world st)) by apply Hg1.
  destruct (write_domain_log_healthy d line2 st1 h1 Hinv1 Hatt1 Hz Hm1 Hhash1)
    as (st2 & h2 & p2 & Hw2 & Hc2 & Ho2 & _); [congruence | exact Hh1 |].
  rewrite Hdir in Hc2, Ho2.
  exists st2. split; [| split].
  - cbn [run run_op]. unfold bind, discard, bind, ret. now rewrite Hw1, Hw2.
  - rewrite Hc2, Hc1. apply append_assoc.
  - intros q Hq. rewrite (Ho2 _ Hq). now apply Ho1.
Qed.

(** The formatted line fits its buffer. *)
Lemma format_log_line_length date level node msg channel :
  (String.length (format_log_line date level node msg channel)
   < sizeof_log_line)%nat.
Proof.
  assert (H0 : (0 < sizeof_log_line)%nat) by (unfold sizeof_log_line; lia).
  unfold format_log_line.
  destruct channel as [c|]; unfold switch_snprintf;
    match goal with
    | |- context [str_take ?n ?s] => pose proof (str_take_length_le n s)
    end; lia.
Qed.

(** X12. An event whose domain resolves, under the conditions of X10:
    the file at the path of that domain gains one line, and no other
    file changes.  The line is, cut to the 2047 characters the buffer
    holds: the date (79 characters at most), the level in brackets, the source file, function and
    line (as the [int] that [%d] prints) in brackets, the rendered
    message or the placeholder, the identifier of the channel in brackets
    when the event has a channel, and a line feed. *)
Theorem event_line_reaches_domain_file
    (ops : list op) (w : World) (st : module_state) (h : gmap string nat)
    (node : switch_log_node_t) (level : switch_log_level_t) (d : string) :
  fds w = ∅ -> run ops (boot w) = Ret tt st ->
  globals_mutex st = true -> domain_hash st = Some h ->
  is_internal node = false ->
  resolve_domain node (render_message (switch_log_node_render_ptr st) node)
  = Some d ->
  (h !! d = None -> globals_cache_entries st < MAX_DOMAIN_CACHE_SIZE) ->
  handle_attached st d = true ->
  healthy (world st) ->
  exists st' line,
    mod_logfile_domain_logger (Some node) level st
    = Ret SWITCH_STATUS_SUCCESS st' /\
    file_content (world st') (domain_log_path (log_dir (world st)) d)
    = file_content (world st) (domain_log_path (log_dir (world st)) d)
      +:+ line /\
    line
    = str_take 2047
        (str_take 79 (clock (world st)) +:+ " ["
         +:+ switch_log_level2str level +:+ "] ["
         +:+ default "unknown" (node_file node) +:+ ":"
         +:+ default "unknown" (node_func node) +:+ ":"
         +:+ pretty (as_int (node_line node)) +:+ "] "
         +:+ (if zstr (Some (render_message (switch_log_node_render_ptr st) node))
              then "(message)"
              else render_message (switch_log_node_render_ptr st) node)
         +:+ match node_channel node with
             | Some channel =>
                 " [" +:+ default "unknown" (switch_channel_get_uuid channel)
                 +:+ "]" +:+ nl
             | None => nl
             end) /\
    (forall q, q <> domain_log_path (log_dir (world st)) d ->
       files (world st') !! q = files (world st) !! q).
Proof.
  intros Hfds Hrun Hm Hh Hint Hres Hroom Hatt Hhealthy.
  pose proof (resolve_domain_not_empty _ _ _ Hres) as Hz.
  set (line := format_log_line (format_date (world st)) level node
                 (message_or_placeholder
                    (render_message (switch_log_node_render_ptr st) node))
                 (node_channel node)).
  destruct (write_domain_log_healthy d line st h
              (reachable_module_inv _ _ _ Hfds Hrun) Hatt Hz Hm Hh Hroom Hhealthy)
    as (st' & h' & p & Hw & Hc & Ho & _).
  exists st', line. split; [| split; [exact Hc | split; [| exact Ho]]].
  - unfold mod_logfile_domain_logger. rewrite Hint, Hres, Hz.
    cbv beta iota zeta delta [negb bind ret]. fold line. now rewrite Hw.
  - subst line. unfold format_log_line, message_or_placeholder, format_date,
      switch_snprintf.
    destruct (node_channel node); rewrite !append_assoc; reflexivity.
Qed.

(** X13. In a reached state, an event that resolves to no domain leaves
    the state as it is, and any event changes one path at most, by less
    than a line buffer put at the end of its file; no other path is
    created, removed or changed. *)
Theorem event_touches_one_file
    (ops : list op) (w : World) (st : module_state)
    (node : switch_log_node_t) (level : switch_log_level_t)
    (status : switch_status_t) (st' : module_state) :
  fds w = ∅ -> run ops (boot w) = Ret tt st ->
  mod_logfile_domain_logger (Some node) level st = Ret status st' ->
  (resolve_domain node (render_message (switch_log_node_render_ptr st) node)
   = None -> st' = st) /\
  exists q added, (String.length added < sizeof_log_line)%nat /\
    (forall q', q' <> q -> files (world st') !! q' = files (world st) !! q') /\
    file_content (world st') q = file_content (world st) q +:+ added /\
    (added <> "" ->
     exists d,
       resolve_domain node (render_message (switch_log_node_render_ptr st) node)
       = Some d /\
       (q = domain_log_path (log_dir (world st)) d \/
        exists h p fd, domain_hash st = Some h /\ h !! d = Some p /\
          handle_of st p = Some fd /\ fd_path (world st) fd = Some q)).
Proof.
  intros Hfds Hrun.
  assert (Hsame : forall s : module_state, s = st ->
    (resolve_domain node (render_message (switch_log_node_render_ptr st) node)
     = None -> s = st) /\
    exists q added, (String.length added < sizeof_log_line)%nat /\
      (forall q', q' <> q -> files (world s) !! q' = files (world st) !! q') /\
      file_content (world s) q = file_content (world st) q +:+ added /\
      (added <> "" ->
       exists d,
         resolve_domain node
           (render_message (switch_log_node_render_ptr st) node) = Some d /\
         (q = domain_log_path (log_dir (world st)) d \/
          exists h p fd, domain_hash st = Some h /\ h !! d = Some p /\
            handle_of st p = Some fd /\ fd_path (world st) fd = Some q))).
  { intros s ->. split; [reflexivity |]. exists "", "".
    split; [unfold sizeof_log_line; simpl; lia |].
    split; [reflexivity |]. split; [now rewrite append_empty_r | congruence]. }
  unfold mod_logfile_domain_logger.
  destruct (is_internal node); [intros [= _ <-]; now apply Hsame |].
  destruct (resolve_domain node _) as [d|] eqn:Hres;
    [| simpl; intros [= _ <-]; now apply Hsame].
  destruct (negb (zstr (Some d))); [| intros [= _ <-]; now apply Hsame].
  unfold bind, ret.
  match goal with
  | |- context [write_domain_log _ (Some ?l) st] =>
      pose proof (format_log_line_length (format_date (world st)) level node
                    (message_or_placeholder
                       (render_message (switch_log_node_render_ptr st) node))
                    (node_channel node)) as Hlen;
      set (line := l) in *
  end.
  destruct (write_domain_log (Some d) (Some line) st) as [s st1|] eqn:Hw;
    [| discriminate].
  intros [= _ <-]. split; [discriminate |].
  destruct (write_domain_log_disk _ _ _ _ _
              (reachable_module_inv _ _ _ Hfds Hrun) Hw)
    as (q & k & Hk & Hother & Hc & Hwhich).
  exists q, (str_take k line).
  split; [rewrite str_take_length; lia |].
  split; [exact Hother |]. split; [exact Hc |].
  intros _. exists d. split; [reflexivity | exact Hwhich].
Qed.

(** X22. A cached handle follows its file.  When no system call fails, a
    line for a cached domain that has an open handle goes to the end of
    the file the handle was opened on, at the path that file has now, and
    no other path changes: after another process has renamed the log the
    line is in the renamed file and the old path is not created again;
    after it has removed the log the line reaches no path. *)
Theorem write_follows_the_open_file
    (ops : list op) (w : World) (st : module_state) (h : gmap string nat)
    (d data : string) (p fd : nat) :
  fds w = ∅ -> run ops (boot w) = Ret tt st ->
  globals_mutex st = true -> domain_hash st = Some h ->
  zstr (Some d) = false -> h !! d = Some p ->
  handle_of st p = Some fd ->
  healthy (world st) ->
  exists st',
    write_domain_log (Some d) (Some data) st = Ret SWITCH_STATUS_SUCCESS st' /\
    (forall q, fd_path (world st) fd = Some q ->
       file_content (world st') q = file_content (world st) q +:+ data /\
       forall q', q' <> q -> files (world st') !! q' = files (world st) !! q') /\
    (fd_path (world st) fd = None -> files (world st') = files (world st)) /\
    handle_of st' p = Some fd /\
    (forall fd', fd_path (world st') fd' = fd_path (world st) fd') /\
    healthy (world st').
Proof.
  intros Hfds Hrun Hm Hh Hz Hd Hhandle Hhealthy.
  destruct (reachable_module_inv _ _ _ Hfds Hrun) as (Hc & Hfdinv & Hpath).
  destruct (inv_entries _ Hc _ _ _ Hh Hd) as (e & Hp & Hs).
  assert (Hlt : (p < length (pool st))%nat) by (eapply lookup_lt_Some, Hp).
  assert (Hl : file_lock e = true).
  { unfold entry_static in Hs. now injection Hs. }
  pose proof Hhandle as Hf. unfold handle_of in Hf. rewrite Hp in Hf.
  simpl in Hf.
  pose proof (Hpath _ _ _ _ _ Hh Hd Hp Hf) as Hopen.
  rewrite fds_lookup in Hopen.
  destruct (fd_table (world st) !! fd) as [[p0 l]|] eqn:Ht; [| discriminate].
  destruct (switch_file_write fd data (strlen data) (world st))
    as [[s n] w1] eqn:Hw.
  destruct (write_disk _ _ _ _ _ _ _ _ Ht Hw)
    as (_ & _ & (k & Hk & Hsucc & _ & Hloc) & Hok).
  destruct (Hok Hhealthy) as (Hh1 & -> & ->).
  specialize (Hsucc eq_refl).
  assert (k = String.length data) by (unfold strlen in Hsucc; lia). subst k.
  rewrite str_take_all in Hloc by lia.
  eexists. split.
  { unfold write_domain_log, bind.
    rewrite (get_domain_entry_found _ _ _ _ Hz Hm Hh Hd).
    exact (write_entry_first_ok _ _ _ _ _ _ _ Hp Hl Hf Hw). }
  unfold handle_of, fd_path. cbn [world pool set_pool set_world].
  rewrite list_lookup_insert_eq by exact Hlt. rewrite Ht.
  destruct l as [q0|c].
  - destruct Hloc as (Ht1 & Hother & Hcq & _). rewrite Ht1.
    split; [intros q [= <-]; split; [exact Hcq | exact Hother] |].
    split; [discriminate |]. split; [exact Hf |]. split; [reflexivity | exact Hh1].
  - destruct Hloc as (Hfiles & Hfd1 & Hother).
    split; [discriminate |]. split; [intros _; exact Hfiles |].
    split; [exact Hf |]. split; [| exact Hh1].
    intros fd'. destruct (decide (fd' = fd)) as [->|Hne].
    + now rewrite Hfd1, Ht.
    + now rewrite (Hother _ Hne).
Qed.

End Delivery.

(** ** Handles when no other process touches the logs *)

Section Undisturbed.

Lemma all_attached_empty w : fds w = ∅ -> all_attached w.
Proof.
  unfold fds. intros H. apply fmap_empty_inv in H.
  intros fd pl Hfd. rewrite H, lookup_empty in Hfd. discriminate.
Qed.

Lemma all_attached_table w w' :
  fd_table w' = fd_table w -> all_attached w -> all_attached w'.
Proof. intros E H fd pl. rewrite E. apply H. Qed.

Lemma all_attached_open path trunc w r w' :
  all_attached w -> switch_file_open path trunc w = (r, w') -> all_attached w'.
Proof.
  intros Ha Ho. destruct r as [fd|stat].
  - destruct (open_fd_table _ _ _ _ _ Ho) as (_ & Ht).
    intros fd' pl. rewrite Ht.
    destruct (decide (fd' = fd)) as [->|Hne].
    + rewrite lookup_insert_eq. now intros [= <-].
    + rewrite lookup_insert_ne by auto. apply Ha.
  - rewrite (open_failure _ _ _ _ _ Ho). exact Ha.
Qed.

Lemma all_attached_write fd data w r w' :
  all_attached w -> switch_file_write fd data (strlen data) w = (r, w') ->
  all_attached w'.
Proof.
  intros Ha Hw. destruct r as [s m].
  destruct (fd_table w !! fd) as [[p l]|] eqn:Hfd.
  - pose proof (Ha _ _ Hfd) as Hl. simpl in Hl. subst l.
    destruct (write_disk _ _ _ _ _ _ _ _ Hfd Hw)
      as (_ & _ & (k & _ & _ & _ & Ht & _) & _).
    exact (all_attached_table _ _ Ht Ha).
  - now destruct (write_closed _ _ _ _ _ _ Hfd Hw) as [-> _].
Qed.

Lemma all_attached_close fd w :
  all_attached w -> all_attached (switch_file_close fd w).
Proof.
  intros Ha fd' pl. simpl. intros H.
  apply lookup_delete_Some in H as [_ H]. exact (Ha _ _ H).
Qed.

Lemma all_attached_first e data w w_c :
  all_attached w -> first_attempt_failed e data w = Some w_c -> all_attached w_c.
Proof.
  intros Ha. unfold first_attempt_failed.
  destruct (log_file e) as [fd|]; [| now intros [= <-]].
  destruct (switch_file_write fd data (strlen data) w) as [[s n] w1] eqn:Hw.
  pose proof (all_attached_write _ _ _ _ _ Ha Hw) as Ha1.
  destruct s; [discriminate | |]; intros [= <-]; now apply all_attached_close.
Qed.

Lemma all_attached_write_entry p e data st status st' :
  pool st !! p = Some e -> file_lock e = true ->
  all_attached (world st) -> write_entry p data st = Ret status st' ->
  all_attached (world st').
Proof.
  intros Hp Hl Ha Hw.
  destruct (write_entry_cases p e data st Hp Hl)
    as [(fd & n & w1 & Hf & Hw1 & E)
       |[(w_c & stat & w & msg & Hfirst & Ho & E)
        |(w_c & fd2 & w2 & s2 & n2 & w3 & Hfirst & Ho & Hw2 & E)]];
    rewrite E in Hw; injection Hw as _ <-.
  - exact (all_attached_write _ _ _ _ _ Ha Hw1).
  - apply (all_attached_first _ _ _ _ Ha) in Hfirst.
    exact (all_attached_open _ _ _ _ _ Hfirst Ho).
  - apply (all_attached_first _ _ _ _ Ha) in Hfirst.
    apply (all_attached_open _ _ _ _ _ Hfirst) in Ho.
    exact (all_attached_write _ _ _ _ _ Ho Hw2).
Qed.

Lemma all_attached_get_domain_entry domain st r st' :
  all_attached (world st) -> get_domain_entry domain st = Ret r st' ->
  all_attached (world st').
Proof.
  intros Ha. unfold get_domain_entry.
  destruct domain as [d|]; [| now intros [= _ <-]].
  destruct (zstr (Some d)); [now intros [= _ <-] |].
  destruct (globals_mutex st); [| discriminate]. simpl.
  destruct (domain_hash st) as [h|] eqn:Hh; [| discriminate].
  destruct (h !! d) as [p|] eqn:Hd; [now intros [= _ <-] |].
  destruct (MAX_DOMAIN_CACHE_SIZE <=? globals_cache_entries st).
  { now intros [= _ <-]. }
  set (new := new_domain_entry (log_dir (world st)) d).
  set (st1 := set_pool (pool st ++ [new])%list st).
  assert (Hp1 : pool st1 !! length (pool st) = Some new).
  { simpl. rewrite lookup_app_r by lia. now rewrite Nat.sub_diag. }
  destruct (switch_file_open (logfile_path new) false (world st1))
    as [[afd|stat] w] eqn:Ho;
    pose proof (all_attached_open _ _ _ _ _ Ha Ho) as Ha1.
  - rewrite (open_domain_logfile_success _ _ _ _ _ Hp1 Ho).
    now intros [= _ <-].
  - destruct (open_domain_logfile_failure _ _ _ _ _ Hp1 Ho) as [msg ->].
    now intros [= _ <-].
Qed.

Lemma all_attached_write_domain_log domain log_data st status st' :
  module_inv st -> all_attached (world st) ->
  write_domain_log domain log_data st = Ret status st' ->
  all_attached (world st').
Proof.
  intros Hinv Ha. unfold write_domain_log.
  destruct domain as [d|]; [| now intros [= _ <-]].
  destruct log_data as [data|]; [| now intros [= _ <-]].
  unfold bind.
  destruct (get_domain_entry (Some d) st) as [r st1|] eqn:Hget; [| discriminate].
  pose proof (get_domain_entry_keeps_inv _ _ _ _ Hinv Hget) as Hinv1.
  pose proof (all_attached_get_domain_entry _ _ _ _ Ha Hget) as Ha1.
  destruct (get_domain_entry_ret _ _ _ _ Hget) as (_ & _ & Hr).
  destruct r as [p|]; [| now intros [= _ <-]].
  destruct (Hr p eq_refl) as (d' & h' & Ed & _ & Hh' & Hd').
  apply (inj Some) in Ed. subst d'.
  destruct (cached_entry_facts st1 h' d p Hinv1 Hh' Hd') as (e & Hp & Hl & _).
  exact (all_attached_write_entry _ _ _ _ _ _ Hp Hl Ha1).
Qed.

Lemma all_attached_logger node level st status st' :
  module_inv st -> all_attached (world st) ->
  mod_logfile_domain_logger node level st = Ret status st' ->
  all_attached (world st').
Proof.
  intros Hinv Ha. unfold mod_logfile_domain_logger.
  destruct node as [node|]; [| now intros [= _ <-]].
  destruct (is_internal node); [now intros [= _ <-] |].
  destruct (negb (zstr _)); [| now intros [= _ <-]].
  unfold bind, ret.
  match goal with
  | |- context [write_domain_log ?d ?l st] =>
      destruct (write_domain_log d l st) as [s st1|] eqn:Hw; [| discriminate]
  end.
  intros [= _ <-]. exact (all_attached_write_domain_log _ _ _ _ _ Hinv Ha Hw).
Qed.

Lemma run_op_module_inv o st st' :
  module_inv st -> run_op o st = Ret tt st' -> module_inv st'.
Proof.
  intros (Hc & Hfd & Hpath) H. split; [| split].
  - eapply run_op_inv; eauto.
  - eapply run_op_fd_inv; eauto.
  - eapply run_op_path_inv; eauto.
Qed.

Lemma all_attached_run_op o st st' :
  module_inv st -> all_attached (world st) -> is_external o = false ->
  run_op o st = Ret tt st' -> all_attached (world st').
Proof.
  intros Hinv Ha Hext.
  pose proof Hinv as (Hc & Hfd & _).
  destruct o as [| |node level|f o|src dst|node level|d l|d]; simpl;
    try discriminate Hext.
  - intros H. apply discard_ret in H as [s H].
    destruct (mod_logfile_domain_load_spec st) as (st2 & E & Hh2 & _).
    assert (st2 = st') by congruence. subst st2.
    apply all_attached_empty, fd_inv_no_handle.
    + eapply mod_logfile_domain_load_fds; eauto.
    + intros fd (h & d & p & E1 & E2 & _). rewrite Hh2 in E1.
      injection E1 as <-. now rewrite lookup_empty in E2.
  - intros H. apply discard_ret in H as [s H].
    apply all_attached_empty.
    now apply (mod_logfile_domain_shutdown_fds _ _ _ Hc Hfd H).
  - destruct (logger_bound st); [| now intros [= <-]].
    intros H. apply discard_ret in H as [s H].
    exact (all_attached_logger _ _ _ _ _ Hinv Ha H).
  - intros H. apply discard_ret in H as [s H].
    exact (all_attached_logger _ _ _ _ _ Hinv Ha H).
  - intros H. apply discard_ret in H as [s H].
    exact (all_attached_write_domain_log _ _ _ _ _ Hinv Ha H).
  - intros H. apply discard_ret in H as [s H].
    exact (all_attached_get_domain_entry _ _ _ _ Ha H).
Qed.

Lemma all_attached_run ops st st' :
  module_inv st -> all_attached (world st) ->
  forallb (fun o => negb (is_external o)) ops = true ->
  run ops st = Ret tt st' -> all_attached (world st').
Proof.
  revert st. induction ops as [|o ops IH]; intros st Hinv Ha Hext H.
  - now injection H as <-.
  - simpl in Hext. apply andb_prop in Hext as [Ho Hext].
    apply negb_true_iff in Ho.
    apply run_cons in H as (st1 & H1 & H2).
    apply (IH st1); [| | exact Hext | exact H2].
    + exact (run_op_module_inv _ _ _ Hinv H1).
    + exact (all_attached_run_op _ _ _ Hinv Ha Ho H1).
Qed.

(** X23. As long as no other process renames or removes files, every
    descriptor the module holds open is at the path it was opened with:
    in every state reached by loads, shutdowns, events and calls alone,
    whatever system calls failed on the way, the handle of each cached
    domain is attached to the log of that domain. *)
Theorem undisturbed_handles_attached
    (ops : list op) (w : World) (st : module_state) :
  fds w = ∅ -> run ops (boot w) = Ret tt st ->
  forallb (fun o => negb (is_external o)) ops = true ->
  (forall fd path, fds (world st) !! fd = Some path ->
     fd_path (world st) fd = Some path) /\
  forall d, handle_attached st d = true.
Proof.
  intros Hfds Hrun Hext.
  assert (Hinv0 : module_inv (boot w)).
  { split; [apply cache_inv_boot | split; [now apply fd_inv_boot |]].
    apply path_inv_no_entry. discriminate. }
  pose proof (all_attached_run ops (boot w) st Hinv0
                (all_attached_empty w Hfds) Hext Hrun) as Ha.
  assert (Hat : forall fd path, fds (world st) !! fd = Some path ->
                  fd_table (world st) !! fd = Some (path, AtPath path)).
  { intros fd path. rewrite fds_lookup.
    destruct (fd_table (world st) !! fd) as [[p l]|] eqn:Ht; [| discriminate].
    simpl. intros [= ->]. pose proof (Ha _ _ Ht) as E. simpl in E. now subst l. }
  split.
  - intros fd path Hopen. unfold fd_path. now rewrite (Hat _ _ Hopen).
  - intros d. apply handle_attached_spec. intros h p e fd Hh Hd Hp Hf.
    destruct (reachable_module_inv _ _ _ Hfds Hrun) as (_ & _ & Hpath).
    apply attached_spec. exists (logfile_path e).
    exact (Hat _ _ (Hpath _ _ _ _ _ Hh Hd Hp Hf)).
Qed.

End Undisturbed.

(** ** Closing, shutting down and loading *)

Section Reload.

(** A loop over the table that leaves a field of the world alone. *)
Lemma foldl_world_field {A} (g : World -> A)
    (f : module_state -> nat -> module_state) l :
  (forall st p, g (world (f st p)) = g (world st)) ->
  forall st, g (world (foldl f st l)) = g (world st).
Proof.
  intros Hf. induction l as [|p l IH]; intros st; simpl; [reflexivity |].
  now rewrite IH, Hf.
Qed.

Lemma close_entry_log_world {A} (g : World -> A) :
  (forall fd w, g (switch_file_close fd w) = g w) ->
  forall st p, g (world (close_entry_log st p)) = g (world st).
Proof.
  intros Hg st p. unfold close_entry_log.
  destruct (pool st !! p) as [e|]; [| reflexivity].
  destruct (file_lock e); [| reflexivity].
  destruct (log_file e); [| reflexivity]. apply Hg.
Qed.

Lemma cleanup_domain_entry_world {A} (g : World -> A) :
  (forall fd w, g (switch_file_close fd w) = g w) ->
  forall st p, g (world (cleanup_domain_entry p st)) = g (world st).
Proof.
  intros Hg st p. unfold cleanup_domain_entry.
  destruct (pool st !! p) as [e|]; [| reflexivity].
  destruct (log_file e); [| reflexivity]. apply Hg.
Qed.

Lemma cleanup_domain_entry_world' {A} (g : World -> A) :
  (forall fd w, g (switch_file_close fd w) = g w) ->
  forall st p, g (world ((fun st ptr => cleanup_domain_entry ptr st) st p))
               = g (world st).
Proof. intros Hg st p. now apply cleanup_domain_entry_world. Qed.

(** The loop of [close_all_domain_logs] in a state of the invariants. *)
Lemma close_all_domain_logs_spec st h :
  module_inv st -> globals_mutex st = true -> domain_hash st = Some h ->
  exists st',
    close_all_domain_logs st = Ret tt st' /\
    same_cache st st' /\ module_inv st' /\
    fds (world st') = ∅ /\
    files (world st') = files (world st) /\
    oracle (world st') = oracle (world st) /\
    next_fd (world st') = next_fd (world st) /\
    forall d p, h !! d = Some p -> handle_of st' p = None.
Proof.
  intros (Hc & Hfd & Hpath) Hm Hh.
  unfold close_all_domain_logs. rewrite Hm, Hh. simpl.
  set (st' := foldl close_entry_log st (hash_values h)).
  assert (Hsame : same_cache st st')
    by apply same_cache_foldl, same_cache_close_entry.
  destruct (close_loop h (hash_values h) st Hc Hfd Hh) as (H1 & _ & H3).
  { intros p Hp. now apply elem_of_hash_values. }
  fold st' in H1, H3.
  assert (Hh' : domain_hash st' = Some h).
  { destruct Hsame as (E & _). now rewrite E. }
  assert (Hclosed : forall d p, h !! d = Some p -> handle_of st' p = None).
  { intros d p Hd. apply H3, elem_of_hash_values. eauto. }
  assert (Hfds : fds (world st') = ∅).
  { apply fd_inv_no_handle; [exact H1 |].
    intros fd (h0 & d & p & E1 & E2 & E3). rewrite Hh' in E1.
    apply (inj Some) in E1. subst h0. rewrite (Hclosed _ _ E2) in E3.
    discriminate. }
  exists st'. split; [reflexivity |]. split; [exact Hsame |].
  split; [split; [eapply cache_inv_same; eauto | split; [exact H1 |]] |].
  { intros h0 d p e fd E1 E2 Hp Hf. rewrite Hh' in E1.
    apply (inj Some) in E1. subst h0.
    pose proof (Hclosed _ _ E2) as Hn. unfold handle_of in Hn.
    rewrite Hp in Hn. simpl in Hn. congruence. }
  split; [exact Hfds |].
  split; [apply (foldl_world_field files), (close_entry_log_world files);
          reflexivity |].
  split; [apply (foldl_world_field oracle), (close_entry_log_world oracle);
          reflexivity |].
  split; [apply (foldl_world_field next_fd), (close_entry_log_world next_fd);
          reflexivity |].
  exact Hclosed.
Qed.

(** X14. [close_all_domain_logs] in a reached state of a loaded module
    closes every descriptor and keeps everything else: the table, the
    counter, the files, and for each cached domain its entry, now without
    handle. *)
Theorem close_all_keeps_cache
    (ops : list op) (w : World) (st : module_state) (h : gmap string nat) :
  fds w = ∅ -> run ops (boot w) = Ret tt st ->
  globals_mutex st = true -> domain_hash st = Some h ->
  exists st',
    close_all_domain_logs st = Ret tt st' /\
    fds (world st') = ∅ /\
    files (world st') = files (world st) /\
    domain_hash st' = Some h /\
    globals_cache_entries st' = globals_cache_entries st /\
    forall d p, h !! d = Some p ->
      exists e', pool st' !! p = Some e' /\ log_file e' = None /\
        logfile_path e' = domain_log_path (log_dir (world st)) d.
Proof.
  intros Hfds Hrun Hm Hh.
  destruct (close_all_domain_logs_spec st h
              (reachable_module_inv _ _ _ Hfds Hrun) Hm Hh)
    as (st' & E & Hsame & Hinv' & Hfds' & Hfiles & _ & _ & Hclosed).
  exists st'. split; [exact E |]. split; [exact Hfds' |].
  split; [exact Hfiles |].
  destruct Hsame as (E1 & _ & E3 & _ & _ & Hdir & _).
  split; [congruence |]. split; [exact E3 |].
  intros d p Hd.
  assert (Hh' : domain_hash st' = Some h) by congruence.
  destruct (cached_entry_facts st' h d p Hinv' Hh' Hd) as (e' & Hp & _ & Hpe & _).
  exists e'. split; [exact Hp |]. split.
  - pose proof (Hclosed _ _ Hd) as Hn. unfold handle_of in Hn.
    rewrite Hp in Hn. exact Hn.
  - now rewrite Hpe, Hdir.
Qed.

(** X15. After [close_all_domain_logs] the cache still serves: on a healthy
    system a line for a cached domain reopens the file of the domain on
    the next descriptor, the only one open afterwards, and is appended
    in full. *)
Theorem write_after_close_all_reopens
    (ops : list op) (w : World) (st : module_state) (h : gmap string nat)
    (d data : string) (p : nat) :
  fds w = ∅ -> run ops (boot w) = Ret tt st ->
  globals_mutex st = true -> domain_hash st = Some h ->
  zstr (Some d) = false -> h !! d = Some p -> healthy (world st) ->
  exists st1 st2,
    close_all_domain_logs st = Ret tt st1 /\
    write_domain_log (Some d) (Some data) st1 = Ret SWITCH_STATUS_SUCCESS st2 /\
    fds (world st2)
    = {[ next_fd (world st) := domain_log_path (log_dir (world st)) d ]} /\
    file_content (world st2) (domain_log_path (log_dir (world st)) d)
    = file_content (world st) (domain_log_path (log_dir (world st)) d) +:+ data.
Proof.
  intros Hfds Hrun Hm Hh Hz Hd Hhealthy.
  destruct (close_all_domain_logs_spec st h
              (reachable_module_inv _ _ _ Hfds Hrun) Hm Hh)
    as (st1 & E & Hsame & Hinv1 & Hfds1 & Hfiles & Horacle & Hnext & Hclosed).
  destruct Hsame as (E1 & E2 & _ & _ & _ & Hdir & _).
  assert (Hh1 : domain_hash st1 = Some h) by congruence.
  assert (Hm1 : globals_mutex st1 = true) by congruence.
  destruct (cached_entry_facts st1 h d p Hinv1 Hh1 Hd)
    as (e & Hp & Hl & Hpe & _).
  assert (Hf : log_file e = None).
  { pose proof (Hclosed _ _ Hd) as Hn. unfold handle_of in Hn.
    rewrite Hp in Hn. exact Hn. }
  assert (Hhealthy1 : healthy (world st1)).
  { unfold healthy in *. congruence. }
  destruct (write_entry_reopen_healthy p e data st1 Hp Hl Hf Hhealthy1)
    as (st2 & e2 & Hw & _ & _ & Hfds2 & Hc & _).
  exists st1, st2. split; [exact E |]. split.
  { unfold write_domain_log, bind.
    now rewrite (get_domain_entry_found _ _ _ _ Hz Hm1 Hh1 Hd). }
  rewrite Hdir in Hpe. rewrite Hpe in Hfds2, Hc. split.
  - rewrite Hfds2, Hfds1, Hnext. reflexivity.
  - rewrite Hc. unfold file_content. now rewrite Hfiles.
Qed.

(** X16. Shutdown removes and rewrites no file, leaves the counter of
    cached domains at its last value, and announces that value on the
    console. *)
Theorem shutdown_keeps_files_and_counter
    (st : module_state) (status : switch_status_t) (st' : module_state) :
  mod_logfile_domain_shutdown st = Ret status st' ->
  files (world st') = files (world st) /\
  globals_cache_entries st' = globals_cache_entries st /\
  console (world st')
  = (console (world st)
     ++ [(SWITCH_LOG_NOTICE,
          "mod_logfile_domain: Shutting down - "
          +:+ pretty (globals_cache_entries st) +:+ " domains cached" +:+ nl)])%list.
Proof.
  intros H.
  destruct (mod_logfile_domain_shutdown_ret _ _ _ H) as [Hm [h Hh]].
  revert H.
  unfold mod_logfile_domain_shutdown, bind, close_all_domain_logs,
    switch_core_hash_destroy.
  cbn. rewrite Hm, Hh. cbn.
  match goal with
  | |- context [foldl close_entry_log ?s ?l] =>
      destruct (same_cache_foldl close_entry_log l same_cache_close_entry s)
        as (A1 & A2 & A3 & _);
      pose proof (foldl_world_field files close_entry_log l
                    (close_entry_log_world files (fun _ _ => eq_refl)) s) as F1;
      pose proof (foldl_world_field console close_entry_log l
                    (close_entry_log_world console (fun _ _ => eq_refl)) s) as F2;
      set (st1 := foldl close_entry_log s l) in *
  end.
  cbn in A1, A3, F1, F2. rewrite A1, Hh.
  intros [= _ <-]. cbn.
  rewrite (foldl_world_field files _ _
             (fun st p => cleanup_domain_entry_world files (fun _ _ => eq_refl) st p)).
  rewrite (foldl_world_field console _ _
             (fun st p => cleanup_domain_entry_world console (fun _ _ => eq_refl) st p)).
  split; [exact F1 |]. split; [exact A3 | exact F2].
Qed.

(** The text of the diagnostic file. *)
Lemma write_diagnostic_files st :
  (forall q, q <> diag_path (log_dir (world st)) ->
     files (world (write_diagnostic st)) !! q = files (world st) !! q) /\
  (healthy (world st) ->
     files (world (write_diagnostic st)) !! diag_path (log_dir (world st))
     = Some ("mod_logfile_domain loaded" +:+ nl) /\
     healthy (world (write_diagnostic st)) /\
     console (world (write_diagnostic st)) = console (world st)) /\
  (forall r rest, oracle (world st) = r :: rest ->
     is_success (reply_status r) = false ->
     files (world (write_diagnostic st)) = files (world st) /\
     oracle (world (write_diagnostic st)) = rest /\
     console (world (write_diagnostic st))
     = (console (world st)
        ++ [(SWITCH_LOG_WARNING,
             "mod_logfile_domain: could not write diagnostic file "
             +:+ diag_path (log_dir (world st)) +:+ nl)])%list).
Proof.
  unfold write_diagnostic. fold (diag_path (log_dir (world st))).
  set (path := diag_path (log_dir (world st))).
  split; [| split].
  - intros q Hq.
    destruct (switch_file_open path true (world st)) as [[diag|stat] w1] eqn:Ho.
    + destruct (open_fds_success _ _ _ _ _ Ho) as (-> & Hf1 & _).
      assert (Hfiles1 : files w1 !! q = files (world st) !! q).
      { revert Ho. unfold switch_file_open, open_ok.
        destruct (oracle (world st)) as [|r rest].
        - intros [= <-]. simpl. now rewrite lookup_insert_ne.
        - destruct (is_success _); [| discriminate].
          intros [= <-]. simpl. now rewrite lookup_insert_ne. }
      destruct (switch_file_write _ _ _ w1) as [[s m] w2] eqn:Hw.
      assert (Hfd : fd_table w1 !! next_fd (world st) = Some (path, AtPath path)).
      { rewrite (proj2 (open_fd_table _ _ _ _ _ Ho)). apply lookup_insert_eq. }
      destruct (write_files _ _ _ _ _ _ _ Hfd Hw) as (_ & _ & _ & Hother & _).
      simpl. now rewrite Hother.
    + revert Ho. unfold switch_file_open, open_ok.
      destruct (oracle (world st)) as [|r rest]; [discriminate |].
      destruct (is_success _); [discriminate |]. now intros [= _ <-].
  - intros Hh. unfold healthy in Hh. unfold switch_file_open, open_ok.
    rewrite Hh. cbv beta iota zeta.
    unfold switch_file_write. cbn [fd_table set_fd_table set_files].
    rewrite lookup_insert_eq. cbn [oracle set_fd_table set_files head tail default].
    rewrite Hh. cbn [head tail default reply_status reply_nbytes is_success].
    unfold append_at.
    cbn [snd files set_files set_oracle set_fd_table world set_world
         switch_file_close oracle console].
    rewrite lookup_insert_eq. split; [| split; [reflexivity | reflexivity]].
    rewrite lookup_insert_eq. vm_compute. reflexivity.
  - intros r rest Ho Hs. unfold switch_file_open. rewrite Ho, Hs.
    now simpl.
Qed.

(** The load function up to the diagnostic file: the globals are
    zeroed, an old table is destroyed and a new one created. *)
Lemma mod_logfile_domain_load_unfold st :
  exists st1 msg1 msg2,
    mod_logfile_domain_load st
    = Ret SWITCH_STATUS_SUCCESS
        (switch_log_printf SWITCH_LOG_NOTICE msg2
           (write_diagnostic
              (set_logger_bound true
                 (switch_log_printf SWITCH_LOG_INFO msg1
                    (set_render_ptr (host_render (world st))
                       (set_cache (Some ∅) 0 st1)))))) /\
    files (world st1) = files (world st) /\
    oracle (world st1) = oracle (world st) /\
    log_dir (world st1) = log_dir (world st) /\
    console (world st1) = console (world st).
Proof.
  unfold mod_logfile_domain_load.
  set (st0 := set_globals true 0 st).
  assert (Hd : exists st1,
             match domain_hash st0 with
             | Some _ => switch_core_hash_destroy st0
             | None => Ret tt st0
             end = Ret tt st1 /\
             globals_cache_entries st1 = 0 /\
             files (world st1) = files (world st) /\
             oracle (world st1) = oracle (world st) /\
             log_dir (world st1) = log_dir (world st) /\
             console (world st1) = console (world st) /\
             host_render (world st1) = host_render (world st)).
  { destruct (domain_hash st0) as [h|] eqn:Hh.
    - unfold switch_core_hash_destroy. rewrite Hh. eexists.
      split; [reflexivity |]. split; [reflexivity |]. cbn [world set_cache].
      split; [| split; [| split; [| split]]].
      + now rewrite (foldl_world_field files _ _
                       (cleanup_domain_entry_world' files (fun _ _ => eq_refl))).
      + now rewrite (foldl_world_field oracle _ _
                       (cleanup_domain_entry_world' oracle (fun _ _ => eq_refl))).
      + now rewrite (foldl_world_field log_dir _ _
                       (cleanup_domain_entry_world' log_dir (fun _ _ => eq_refl))).
      + now rewrite (foldl_world_field console _ _
                       (cleanup_domain_entry_world' console (fun _ _ => eq_refl))).
      + now rewrite (foldl_world_field host_render _ _
                       (cleanup_domain_entry_world' host_render (fun _ _ => eq_refl))).
    - exists st0. repeat split; reflexivity. }
  destruct Hd as (st1 & -> & Hc & Hf & Ho & Hdir & Hcon & Hr).
  exists st1. do 2 eexists. cbv beta iota zeta.
  split; [| split; [exact Hf | split; [exact Ho | split; [exact Hdir | exact Hcon]]]].
  rewrite Hc. cbn [world set_cache set_render_ptr]. rewrite Hr. reflexivity.
Qed.

(** X17. The load function, from any state the module has reached, with
    or without a shutdown before: it returns [SWITCH_STATUS_SUCCESS] and
    leaves an empty table, a zero counter, the renderer the host
    provides, a bound logger and no open descriptor; no file changes but
    the diagnostic file. *)
Theorem load_resets_module
    (ops : list op) (w : World) (st : module_state) :
  fds w = ∅ -> run ops (boot w) = Ret tt st ->
  exists st',
    mod_logfile_domain_load st = Ret SWITCH_STATUS_SUCCESS st' /\
    domain_hash st' = Some ∅ /\
    globals_cache_entries st' = 0 /\
    globals_mutex st' = true /\
    logger_bound st' = true /\
    switch_log_node_render_ptr st' = host_render (world st) /\
    fds (world st') = ∅ /\
    (forall q, q <> diag_path (log_dir (world st)) ->
       files (world st') !! q = files (world st) !! q).
Proof.
  intros Hfds Hrun.
  pose proof (reachable_fd_inv _ _ _ Hfds Hrun) as Hfd.
  destruct (mod_logfile_domain_load_spec st)
    as (st' & E & Hh & Hc & Hm & Hb & _).
  pose proof (mod_logfile_domain_load_fds _ _ _ Hfd E) as Hfd'.
  exists st'. split; [exact E |].
  split; [exact Hh |]. split; [exact Hc |]. split; [exact Hm |].
  split; [exact Hb |].
  destruct (mod_logfile_domain_load_unfold st)
    as (st1 & msg1 & msg2 & E2 & Hf & _ & Hdir & _).
  rewrite E in E2. apply (f_equal state_of) in E2. cbn [state_of] in E2.
  split; [| split].
  - rewrite E2. cbn [switch_log_node_render_ptr switch_log_printf set_world].
    match goal with
    | |- context [write_diagnostic ?s] =>
        destruct (same_cache_diagnostic s) as (_ & _ & _ & A4 & _)
    end.
    now rewrite A4.
  - apply fd_inv_no_handle; [exact Hfd' |].
    intros fd (h & d & p & E1 & Hd & _). rewrite Hh in E1.
    apply (inj Some) in E1. subst h. now rewrite lookup_empty in Hd.
  - intros q Hq. rewrite E2. cbn [world switch_log_printf set_world].
    match goal with
    | |- context [write_diagnostic ?s] =>
        destruct (write_diagnostic_files s) as (Ho & _)
    end.
    cbn in Ho. rewrite Hdir in Ho. rewrite Ho by exact Hq. exact (f_equal (fun f => f !! q) Hf).
Qed.

(** X18. On a healthy system the load function leaves the diagnostic file
    with exactly its one line, whatever the file held before. *)
Theorem load_writes_diagnostic (st : module_state) :
  healthy (world st) ->
  exists st',
    mod_logfile_domain_load st = Ret SWITCH_STATUS_SUCCESS st' /\
    files (world st') !! diag_path (log_dir (world st))
    = Some ("mod_logfile_domain loaded" +:+ nl) /\
    healthy (world st').
Proof.
  intros Hh.
  destruct (mod_logfile_domain_load_unfold st)
    as (st1 & msg1 & msg2 & E & Hf & Ho & Hdir & _).
  eexists. split; [exact E |].
  cbn [world switch_log_printf set_world].
  match goal with
  | |- context [write_diagnostic ?s] =>
      destruct (write_diagnostic_files s) as (_ & Hok & _)
  end.
  cbn in Hok. rewrite Hdir in Hok.
  destruct Hok as (Hd & Hh' & _).
  { unfold healthy in *. cbn [oracle set_console]. congruence. }
  split; [exact Hd | exact Hh'].
Qed.

(** X19. When the diagnostic file cannot be opened the load function warns
    on the console and still succeeds: the logger is bound, the table is
    new, and no file has changed. *)
Theorem load_survives_diagnostic_failure
    (st : module_state) (r : os_reply) (rest : list os_reply) :
  oracle (world st) = r :: rest -> is_success (reply_status r) = false ->
  exists st',
    mod_logfile_domain_load st = Ret SWITCH_STATUS_SUCCESS st' /\
    files (world st') = files (world st) /\
    oracle (world st') = rest /\
    domain_hash st' = Some ∅ /\ logger_bound st' = true /\
    (SWITCH_LOG_WARNING,
     "mod_logfile_domain: could not write diagnostic file "
     +:+ diag_path (log_dir (world st)) +:+ nl) ∈ console (world st').
Proof.
  intros Hor Hs.
  destruct (mod_logfile_domain_load_spec st)
    as (st' & E & Hh & _ & _ & Hb & _).
  destruct (mod_logfile_domain_load_unfold st)
    as (st1 & msg1 & msg2 & E2 & Hf & Ho & Hdir & _).
  exists st'. split; [exact E |].
  rewrite E in E2. apply (f_equal state_of) in E2. cbn [state_of] in E2.
  assert (Hw : files (world st') = files (world st) /\
               oracle (world st') = rest /\
               (SWITCH_LOG_WARNING,
                "mod_logfile_domain: could not write diagnostic file "
                +:+ diag_path (log_dir (world st)) +:+ nl) ∈ console (world st')).
  { rewrite E2. cbn [world switch_log_printf set_world].
    match goal with
    | |- context [write_diagnostic ?s] =>
        destruct (write_diagnostic_files s) as (_ & _ & Hfail)
    end.
    cbn in Hfail. rewrite Hdir in Hfail.
    destruct (Hfail r rest) as (Hf' & Ho' & Hc'); [congruence | exact Hs |].
    cbn [files oracle console set_console].
    split; [congruence |]. split; [exact Ho' |].
    rewrite Hc'. apply elem_of_app. left. apply elem_of_app. right.
    apply list_elem_of_singleton. reflexivity. }
  destruct Hw as (A & B & C).
  split; [exact A |]. split; [exact B |]. split; [exact Hh |].
  split; [exact Hb | exact C].
Qed.

End Reload.

(** ** Bounds *)

Section Bounds.

(** A map has at most as many values as keys. *)
Lemma size_map_img_le (m : gmap string nat) :
  (size (map_img m : gset nat) <= size m)%nat.
Proof.
  induction m as [|d x m Hd IH] using map_ind.
  - rewrite map_img_empty_L, size_empty. lia.
  - rewrite map_img_insert_notin_L by exact Hd.
    rewrite map_size_insert_None by exact Hd.
    rewrite size_union_alt, size_singleton.
    assert (size (map_img m ∖ {[x]} : gset nat) <= size (map_img m : gset nat))%nat
      by (apply subseteq_size; intros y Hy;
          now apply elem_of_difference in Hy as [Hy _]).
    lia.
Qed.

(** The open descriptors are at most as many as the cached domains. *)
Lemma open_descriptors_le_cache st h :
  fd_inv st -> domain_hash st = Some h ->
  (size (fds (world st)) <= size h)%nat.
Proof.
  intros Hfd Hh.
  set (m := omap (handle_of st) h : gmap string nat).
  assert (H1 : dom (fds (world st)) ⊆ (map_img m : gset nat)).
  { intros fd Hin. apply elem_of_dom in Hin.
    apply (inv_open _ Hfd) in Hin as (h0 & d & p & E1 & Hd & Hp).
    rewrite Hh in E1. apply (inj Some) in E1. subst h0.
    apply elem_of_map_img. exists d. subst m. rewrite lookup_omap, Hd.
    exact Hp. }
  apply subseteq_size in H1. rewrite size_dom in H1.
  pose proof (size_map_img_le m) as H2.
  assert (H3 : (size m <= size h)%nat).
  { rewrite <- (size_dom (D := gset string) m), <- (size_dom (D := gset string) h).
    apply subseteq_size. subst m. apply dom_omap_subseteq. }
  lia.
Qed.

(** X20. In every state the module reaches, the descriptors it holds open
    are at most as many as the counter of cached domains says, hence at
    most [MAX_DOMAIN_CACHE_SIZE], and each is open on the log file of a
    cached domain. *)
Theorem open_descriptors_bounded
    (ops : list op) (w : World) (st : module_state) :
  fds w = ∅ -> run ops (boot w) = Ret tt st ->
  Z.of_nat (size (fds (world st))) <= globals_cache_entries st
  /\ globals_cache_entries st <= MAX_DOMAIN_CACHE_SIZE
  /\ forall fd path, fds (world st) !! fd = Some path ->
       exists h d p, domain_hash st = Some h /\ h !! d = Some p /\
         handle_of st p = Some fd /\
         path = domain_log_path (log_dir (world st)) d.
Proof.
  intros Hfds Hrun.
  destruct (reachable_module_inv _ _ _ Hfds Hrun) as (Hc & Hfd & Hpath).
  split; [| split].
  - destruct (domain_hash st) as [h|] eqn:Hh.
    + destruct (inv_live _ Hc _ Hh) as [_ ->].
      pose proof (open_descriptors_le_cache st h Hfd Hh). lia.
    + rewrite (fd_inv_no_handle st Hfd).
      * rewrite map_size_empty. apply (inv_bound _ Hc).
      * intros fd (h & d & p & E & _). congruence.
  - apply (inv_bound _ Hc).
  - intros fd path Hopen.
    assert (Hs : is_Some (fds (world st) !! fd)) by eauto.
    apply (inv_open _ Hfd) in Hs as (h & d & p & Hh & Hd & Hp).
    exists h, d, p. split; [exact Hh |]. split; [exact Hd |].
    split; [exact Hp |].
    destruct (cached_entry_facts st h d p (conj Hc (conj Hfd Hpath)) Hh Hd)
      as (e & He & _ & Hpe & Hopen').
    unfold handle_of in Hp. rewrite He in Hp. simpl in Hp.
    specialize (Hopen' _ Hp). rewrite Hopen' in Hopen.
    apply (inj Some) in Hopen. congruence.
Qed.

(** X21. An event of the host only appends: in every file the old content
    stays in front, and what is added is shorter than the line buffer. *)
Theorem events_are_append_only
    (ops : list op) (w : World) (st : module_state)
    (node : option switch_log_node_t) (level : switch_log_level_t)
    (status : switch_status_t) (st' : module_state) (q : string) :
  fds w = ∅ -> run ops (boot w) = Ret tt st ->
  mod_logfile_domain_logger node level st = Ret status st' ->
  exists added,
    file_content (world st') q = file_content (world st) q +:+ added /\
    (String.length added < sizeof_log_line)%nat.
Proof.
  intros Hfds Hrun.
  assert (Hnone : forall s, s = st' -> s = st ->
            exists added,
              file_content (world st') q = file_content (world st) q +:+ added /\
              (String.length added < sizeof_log_line)%nat).
  { intros s <- ->. exists "". rewrite append_empty_r.
    split; [reflexivity | unfold sizeof_log_line; simpl; lia]. }
  unfold mod_logfile_domain_logger.
  destruct node as [node|]; [| intros [= _ <-]; now apply (Hnone st)].
  destruct (is_internal node); [intros [= _ <-]; now apply (Hnone st) |].
  destruct (resolve_domain node _) as [d|] eqn:Hres;
    [| simpl; intros [= _ <-]; now apply (Hnone st)].
  destruct (negb (zstr (Some d))); [| intros [= _ <-]; now apply (Hnone st)].
  unfold bind, ret.
  match goal with
  | |- context [write_domain_log _ (Some ?l) st] =>
      pose proof (format_log_line_length (format_date (world st)) level node
                    (message_or_placeholder
                       (render_message (switch_log_node_render_ptr st) node))
                    (node_channel node)) as Hlen;
      set (line := l) in *
  end.
  destruct (write_domain_log (Some d) (Some line) st) as [s st1|] eqn:Hw;
    [| discriminate].
  intros [= _ <-].
  destruct (write_domain_log_appends _ _ _ _ _ q
              (reachable_module_inv _ _ _ Hfds Hrun) Hw) as (k & Hk & Hc).
  exists (str_take k line). split; [exact Hc |].
  rewrite str_take_length. lia.
Qed.

End Bounds.

(** ** The further properties at work *)

Section FurtherApplications.

Lemma text_key_shape_witness :
  (1 <= String.length "text.example" <= 127)%nat /\
  str_forall token_char "text.example" = true /\
  exists tail,
    marker_found "call from domain=text.example" ("text.example" +:+ tail).
Proof. apply text_key_shape. vm_compute; reflexivity. Defined.

Lemma text_key_round_trip_witness :
  extract_domain_from_msg (Some "call from domain=text.example now")
  = Some "text.example".
Proof.
  assert (Hm : marker_found "call from domain=text.example now"
                 (str_drop (10 + String.length "domain=")
                    "call from domain=text.example now"))
    by (apply found_domain; vm_compute; reflexivity).
  apply (text_key_round_trip _ "text.example" " now").
  - exact Hm.
  - discriminate.
  - vm_compute. lia.
  - vm_compute; reflexivity.
  - vm_compute; reflexivity.
Defined.

Lemma text_scan_none_witness :
  extract_domain_from_msg (Some "call from domain= unknown") = None.
Proof.
  assert (Hm : marker_found "call from domain= unknown"
                 (str_drop (10 + String.length "domain=")
                    "call from domain= unknown"))
    by (apply found_domain; vm_compute; reflexivity).
  apply (proj2 (text_scan_none_iff "call from domain= unknown")).
  right. exists " unknown". split; [exact Hm | vm_compute; reflexivity].
Defined.

Lemma internal_events_are_ignored_witness :
  mod_logfile_domain_logger (Some ex_internal_node) SWITCH_LOG_ERROR ex_cached
  = Ret SWITCH_STATUS_SUCCESS ex_cached.
Proof.
  apply (internal_events_are_ignored ex_internal_node SWITCH_LOG_ERROR
           ex_cached "src/" ".c").
  vm_compute; reflexivity.
Defined.

Lemma failed_open_leaves_cache_witness :
  exists st' msg,
    get_domain_entry (Some "acme.com") ex_denied = Ret None st' /\
    domain_hash st' = Some ∅ /\
    globals_cache_entries st' = globals_cache_entries ex_denied /\
    fds (world st') = fds (world ex_denied) /\
    files (world st') = files (world ex_denied) /\
    console (world st')
    = (console (world ex_denied) ++ [(SWITCH_LOG_ERROR, msg)])%list /\
    pool st'
    = (pool ex_denied ++ [new_domain_entry (log_dir (world ex_denied)) "acme.com"])%list.
Proof.
  apply (failed_open_leaves_cache "acme.com" ex_denied ∅
           (SWITCH_STATUS_ERRNO 13) ex_denied_open);
    vm_compute; reflexivity.
Defined.

Lemma created_entry_witness :
  exists st' e,
    get_domain_entry (Some "acme.com") ex_loaded
    = Ret (Some (length (pool ex_loaded))) st' /\
    domain_hash st' = Some (<["acme.com" := length (pool ex_loaded)]> ∅) /\
    globals_cache_entries st' = globals_cache_entries ex_loaded + 1 /\
    pool st' !! length (pool ex_loaded) = Some e /\
    domain e = str_take 127 "acme.com" /\
    logfile_path e = domain_log_path (log_dir (world ex_loaded)) "acme.com" /\
    roll_size e = DEFAULT_LIMIT /\
    log_file e = Some 4%nat /\
    fds (world st') !! 4%nat = Some (logfile_path e) /\
    log_size e = strlen (file_content (world ex_loaded) (logfile_path e)) /\
    forall q, file_content (world st') q = file_content (world ex_loaded) q.
Proof.
  apply (created_entry "acme.com" ex_loaded ∅ 4%nat ex_opened);
    vm_compute; reflexivity.
Defined.

Lemma write_reopens_closed_entry_witness :
  exists st' e',
    write_entry 0 "line" ex_all_closed = Ret SWITCH_STATUS_SUCCESS st' /\
    pool st' !! 0%nat = Some e' /\
    log_file e' = Some (next_fd (world ex_all_closed)) /\
    fds (world st')
    = <[next_fd (world ex_all_closed) := logfile_path ex_closed_entry]>
        (fds (world ex_all_closed)) /\
    file_content (world st') (logfile_path ex_closed_entry)
    = file_content (world ex_all_closed) (logfile_path ex_closed_entry) +:+ "line" /\
    log_size e'
    = wrap_size (strlen (file_content (world st') (logfile_path ex_closed_entry))) /\
    entry_static e' = entry_static ex_closed_entry /\
    healthy (world st').
Proof.
  apply (write_reopens_closed_entry 0 ex_closed_entry "line" ex_all_closed);
    vm_compute; reflexivity.
Defined.

Lemma transient_write_failure_heals_witness :
  exists st' e',
    write_entry 0 "line" ex_transient = Ret SWITCH_STATUS_SUCCESS st' /\
    pool st' !! 0%nat = Some e' /\
    log_file e' = Some (next_fd (world ex_transient)) /\
    fds (world st')
    = <[next_fd (world ex_transient) := logfile_path ex_entry]>
        (delete 4%nat (fds (world ex_transient))) /\
    file_content (world st') (logfile_path ex_entry)
    = file_content (world ex_transient) (logfile_path ex_entry) +:+ "line" /\
    log_size e'
    = wrap_size (strlen (file_content (world st') (logfile_path ex_entry))) /\
    healthy (world st').
Proof.
  apply (transient_write_failure_heals 0 ex_entry "line" ex_transient 4%nat enospc);
    vm_compute; reflexivity.
Defined.

Lemma ex_cached_hash_eq : domain_hash ex_cached = Some ex_cached_hash.
Proof. unfold ex_cached_hash. apply some_default. vm_compute; reflexivity. Qed.

Lemma ex_cached_room :
  ex_cached_hash !! "acme.com" = None ->
  globals_cache_entries ex_cached < MAX_DOMAIN_CACHE_SIZE.
Proof. intros _. vm_compute; reflexivity. Qed.

Lemma ex_cached_attached : handle_attached ex_cached "acme.com" = true.
Proof. vm_compute; reflexivity. Qed.

Lemma write_touches_only_own_file_witness :
  exists q k, (k <= String.length "line")%nat /\
    (forall q', q' <> q ->
       files (world ex_written) !! q' = files (world ex_cached) !! q') /\
    file_content (world ex_written) q
    = file_content (world ex_cached) q +:+ str_take k "line" /\
    (q = domain_log_path (log_dir (world ex_cached)) "acme.com" \/
     exists h p fd, domain_hash ex_cached = Some h /\ h !! "acme.com" = Some p /\
       handle_of ex_cached p = Some fd /\ fd_path (world ex_cached) fd = Some q).
Proof.
  apply (write_touches_only_own_file [OpLoad; OpGet (Some "acme.com")] ex_world
           ex_cached "acme.com" "line" SWITCH_STATUS_SUCCESS ex_written
           eq_refl ex_cached_reached).
  unfold ex_written. apply ret_state_of. vm_compute; reflexivity.
Defined.

Lemma healthy_write_appends_line_witness :
  exists st',
    write_domain_log (Some "acme.com") (Some "line") ex_cached
    = Ret SWITCH_STATUS_SUCCESS st' /\
    file_content (world st')
      (domain_log_path (log_dir (world ex_cached)) "acme.com")
    = file_content (world ex_cached)
        (domain_log_path (log_dir (world ex_cached)) "acme.com") +:+ "line" /\
    (forall q, q <> domain_log_path (log_dir (world ex_cached)) "acme.com" ->
       files (world st') !! q = files (world ex_cached) !! q) /\
    handle_attached st' "acme.com" = true /\
    healthy (world st').
Proof.
  apply (healthy_write_appends_line [OpLoad; OpGet (Some "acme.com")] ex_world
           ex_cached ex_cached_hash "acme.com" "line"
           eq_refl ex_cached_reached);
    [vm_compute; reflexivity | exact ex_cached_hash_eq | reflexivity
    | exact ex_cached_room | exact ex_cached_attached | vm_compute; reflexivity].
Defined.

Lemma writes_append_in_order_witness :
  exists st',
    run [OpWrite (Some "acme.com") (Some "first");
         OpWrite (Some "acme.com") (Some "second")] ex_cached
    = Ret tt st' /\
    file_content (world st')
      (domain_log_path (log_dir (world ex_cached)) "acme.com")
    = file_content (world ex_cached)
        (domain_log_path (log_dir (world ex_cached)) "acme.com")
      +:+ "first" +:+ "second" /\
    (forall q, q <> domain_log_path (log_dir (world ex_cached)) "acme.com" ->
       files (world st') !! q = files (world ex_cached) !! q).
Proof.
  apply (writes_append_in_order [OpLoad; OpGet (Some "acme.com")] ex_world
           ex_cached ex_cached_hash "acme.com" "first" "second"
           eq_refl ex_cached_reached);
    [vm_compute; reflexivity | exact ex_cached_hash_eq | reflexivity
    | exact ex_cached_room | exact ex_cached_attached | vm_compute; reflexivity].
Defined.

Lemma event_line_reaches_domain_file_witness :
  exists st',
    mod_logfile_domain_logger (Some (ex_node (Some ex_channel))) SWITCH_LOG_INFO
      ex_cached
    = Ret SWITCH_STATUS_SUCCESS st' /\
    file_content (world st') ex_log_path
    = "2024-05-01 12:00:00 [INFO] [switch_core_session.c:run:42] "
      +:+ "(message) [4f1c]" +:+ nl /\
    (forall q, q <> ex_log_path ->
       files (world st') !! q = files (world ex_cached) !! q).
Proof.
  destruct (event_line_reaches_domain_file [OpLoad; OpGet (Some "acme.com")]
              ex_world ex_cached ex_cached_hash (ex_node (Some ex_channel))
              SWITCH_LOG_INFO "acme.com" eq_refl ex_cached_reached)
    as (st' & line & Hlog & Hcontent & Hline & Hother);
    [vm_compute; reflexivity | exact ex_cached_hash_eq | reflexivity
    | vm_compute; reflexivity | exact ex_cached_room | exact ex_cached_attached
    | vm_compute; reflexivity |].
  exists st'. split; [exact Hlog |]. split; [| exact Hother].
  change (domain_log_path (log_dir (world ex_cached)) "acme.com")
    with ex_log_path in Hcontent.
  rewrite Hcontent, Hline. vm_compute. reflexivity.
Defined.

Lemma event_touches_one_file_witness :
  (resolve_domain (ex_node (Some ex_channel))
     (render_message (switch_log_node_render_ptr ex_cached)
        (ex_node (Some ex_channel))) = None -> ex_logged = ex_cached) /\
  exists q added, (String.length added < sizeof_log_line)%nat /\
    (forall q', q' <> q ->
       files (world ex_logged) !! q' = files (world ex_cached) !! q') /\
    file_content (world ex_logged) q
    = file_content (world ex_cached) q +:+ added /\
    (added <> "" ->
     exists d,
       resolve_domain (ex_node (Some ex_channel))
         (render_message (switch_log_node_render_ptr ex_cached)
            (ex_node (Some ex_channel))) = Some d /\
       (q = domain_log_path (log_dir (world ex_cached)) d \/
        exists h p fd, domain_hash ex_cached = Some h /\ h !! d = Some p /\
          handle_of ex_cached p = Some fd /\
          fd_path (world ex_cached) fd = Some q)).
Proof.
  apply (event_touches_one_file [OpLoad; OpGet (Some "acme.com")] ex_world
           ex_cached (ex_node (Some ex_channel)) SWITCH_LOG_INFO
           SWITCH_STATUS_SUCCESS ex_logged eq_refl ex_cached_reached).
  unfold ex_logged. apply ret_state_of. vm_compute; reflexivity.
Defined.

Lemma ex_rotated_reached : run ex_rotation (boot ex_world) = Ret tt ex_rotated.
Proof. unfold ex_rotated. apply ret_state_of. vm_compute; reflexivity. Qed.

Lemma ex_rotated_hash : domain_hash ex_rotated = Some ex_cached_hash.
Proof. vm_compute; reflexivity. Qed.

Lemma ex_removed_reached : run ex_removal (boot ex_world) = Ret tt ex_removed.
Proof. unfold ex_removed. apply ret_state_of. vm_compute; reflexivity. Qed.

Lemma ex_removed_hash : domain_hash ex_removed = Some ex_cached_hash.
Proof. vm_compute; reflexivity. Qed.

(** After the rotation the next line is in the renamed file, and the
    path of the log names no file; after the removal the next line is
    written with success and there is still no file. *)
Lemma write_follows_the_open_file_witness :
  (exists st',
     write_domain_log (Some "acme.com") (Some ("second" +:+ nl)) ex_rotated
     = Ret SWITCH_STATUS_SUCCESS st' /\
     files (world ex_rotated) !! (ex_log_path +:+ ".1") = Some ("first" +:+ nl) /\
     file_content (world st') (ex_log_path +:+ ".1")
     = "first" +:+ nl +:+ "second" +:+ nl /\
     files (world st') !! ex_log_path = None) /\
  (exists st',
     write_domain_log (Some "acme.com") (Some ("second" +:+ nl)) ex_removed
     = Ret SWITCH_STATUS_SUCCESS st' /\
     files (world st') = ∅).
Proof.
  split.
  - destruct (write_follows_the_open_file ex_rotation ex_world ex_rotated
                ex_cached_hash "acme.com" ("second" +:+ nl) 0%nat 4%nat
                eq_refl ex_rotated_reached)
      as (st' & Hw & Hat & _);
      [vm_compute; reflexivity | exact ex_rotated_hash | reflexivity
      | vm_compute; reflexivity | vm_compute; reflexivity
      | vm_compute; reflexivity |].
    destruct (Hat (ex_log_path +:+ ".1")) as [Hc Hother];
      [vm_compute; reflexivity |].
    exists st'. split; [exact Hw |]. split; [vm_compute; reflexivity |].
    split.
    + rewrite Hc. vm_compute. reflexivity.
    + rewrite Hother; [vm_compute; reflexivity |].
      intros E. vm_compute in E. discriminate E.
  - destruct (write_follows_the_open_file ex_removal ex_world ex_removed
                ex_cached_hash "acme.com" ("second" +:+ nl) 0%nat 4%nat
                eq_refl ex_removed_reached)
      as (st' & Hw & _ & Hnone & _);
      [vm_compute; reflexivity | exact ex_removed_hash | reflexivity
      | vm_compute; reflexivity | vm_compute; reflexivity
      | vm_compute; reflexivity |].
    exists st'. split; [exact Hw |].
    rewrite Hnone; vm_compute; reflexivity.
Defined.

Lemma undisturbed_handles_attached_witness :
  (forall fd path, fds (world ex_cached) !! fd = Some path ->
     fd_path (world ex_cached) fd = Some path) /\
  forall d, handle_attached ex_cached d = true.
Proof.
  exact (undisturbed_handles_attached [OpLoad; OpGet (Some "acme.com")]
           ex_world ex_cached eq_refl ex_cached_reached eq_refl).
Defined.

Lemma close_all_keeps_cache_witness :
  exists st',
    close_all_domain_logs ex_cached = Ret tt st' /\
    fds (world st') = ∅ /\
    files (world st') = files (world ex_cached) /\
    domain_hash st' = Some ex_cached_hash /\
    globals_cache_entries st' = globals_cache_entries ex_cached /\
    forall d p, ex_cached_hash !! d = Some p ->
      exists e', pool st' !! p = Some e' /\ log_file e' = None /\
        logfile_path e' = domain_log_path (log_dir (world ex_cached)) d.
Proof.
  apply (close_all_keeps_cache [OpLoad; OpGet (Some "acme.com")] ex_world
           ex_cached ex_cached_hash eq_refl ex_cached_reached);
    [vm_compute; reflexivity | exact ex_cached_hash_eq].
Defined.

Lemma write_after_close_all_reopens_witness :
  exists st1 st2,
    close_all_domain_logs ex_cached = Ret tt st1 /\
    write_domain_log (Some "acme.com") (Some "line") st1
    = Ret SWITCH_STATUS_SUCCESS st2 /\
    fds (world st2)
    = {[ next_fd (world ex_cached)
         := domain_log_path (log_dir (world ex_cached)) "acme.com" ]} /\
    file_content (world st2)
      (domain_log_path (log_dir (world ex_cached)) "acme.com")
    = file_content (world ex_cached)
        (domain_log_path (log_dir (world ex_cached)) "acme.com") +:+ "line".
Proof.
  apply (write_after_close_all_reopens [OpLoad; OpGet (Some "acme.com")]
           ex_world ex_cached ex_cached_hash "acme.com" "line" 0%nat
           eq_refl ex_cached_reached);
    [vm_compute; reflexivity | exact ex_cached_hash_eq | reflexivity
    | vm_compute; reflexivity | vm_compute; reflexivity].
Defined.

Lemma shutdown_keeps_files_and_counter_witness :
  files (world ex_after_shutdown) = files (world ex_cached) /\
  globals_cache_entries ex_after_shutdown = globals_cache_entries ex_cached /\
  console (world ex_after_shutdown)
  = (console (world ex_cached)
     ++ [(SWITCH_LOG_NOTICE,
          "mod_logfile_domain: Shutting down - "
          +:+ pretty (globals_cache_entries ex_cached)
          +:+ " domains cached" +:+ nl)])%list.
Proof.
  apply (shutdown_keeps_files_and_counter ex_cached SWITCH_STATUS_SUCCESS
           ex_after_shutdown).
  unfold ex_after_shutdown. apply ret_state_of. vm_compute; reflexivity.
Defined.

Lemma load_resets_module_witness :
  exists st',
    mod_logfile_domain_load ex_cached = Ret SWITCH_STATUS_SUCCESS st' /\
    domain_hash st' = Some ∅ /\
    globals_cache_entries st' = 0 /\
    globals_mutex st' = true /\
    logger_bound st' = true /\
    switch_log_node_render_ptr st' = host_render (world ex_cached) /\
    fds (world st') = ∅ /\
    (forall q, q <> diag_path (log_dir (world ex_cached)) ->
       files (world st') !! q = files (world ex_cached) !! q).
Proof.
  exact (load_resets_module [OpLoad; OpGet (Some "acme.com")] ex_world
           ex_cached eq_refl ex_cached_reached).
Defined.

Lemma load_writes_diagnostic_witness :
  exists st',
    mod_logfile_domain_load (boot ex_world) = Ret SWITCH_STATUS_SUCCESS st' /\
    files (world st') !! diag_path (log_dir (world (boot ex_world)))
    = Some ("mod_logfile_domain loaded" +:+ nl) /\
    healthy (world st').
Proof. apply (load_writes_diagnostic (boot ex_world)). reflexivity. Defined.

Lemma load_survives_diagnostic_failure_witness :
  exists st',
    mod_logfile_domain_load ex_readonly = Ret SWITCH_STATUS_SUCCESS st' /\
    files (world st') = files (world ex_readonly) /\
    oracle (world st') = [] /\
    domain_hash st' = Some ∅ /\ logger_bound st' = true /\
    (SWITCH_LOG_WARNING,
     "mod_logfile_domain: could not write diagnostic file "
     +:+ diag_path (log_dir (world ex_readonly)) +:+ nl)
    ∈ console (world st').
Proof.
  apply (load_survives_diagnostic_failure ex_readonly eacces []); reflexivity.
Defined.

Lemma open_descriptors_bounded_witness :
  Z.of_nat (size (fds (world ex_cached))) <= globals_cache_entries ex_cached
  /\ globals_cache_entries ex_cached <= MAX_DOMAIN_CACHE_SIZE
  /\ forall fd path, fds (world ex_cached) !! fd = Some path ->
       exists h d p, domain_hash ex_cached = Some h /\ h !! d = Some p /\
         handle_of ex_cached p = Some fd /\
         path = domain_log_path (log_dir (world ex_cached)) d.
Proof.
  exact (open_descriptors_bounded [OpLoad; OpGet (Some "acme.com")] ex_world
           ex_cached eq_refl ex_cached_reached).
Defined.

Lemma events_are_append_only_witness :
  exists added,
    file_content (world ex_logged) "/var/log/freeswitch/domain_acme.com.log"
    = file_content (world ex_cached) "/var/log/freeswitch/domain_acme.com.log"
      +:+ added /\
    (String.length added < sizeof_log_line)%nat.
Proof.
  apply (events_are_append_only [OpLoad; OpGet (Some "acme.com")] ex_world
           ex_cached (Some (ex_node (Some ex_channel))) SWITCH_LOG_INFO
           SWITCH_STATUS_SUCCESS ex_logged
           "/var/log/freeswitch/domain_acme.com.log"
           eq_refl ex_cached_reached).
  unfold ex_logged. apply ret_state_of. vm_compute; reflexivity.
Defined.

End FurtherApplications.
